(** * Time Auction: the game-session orchestrator

    A shallow embedding of the WebSocket game server (the message handlers of
    [registerRoutes] in server/routes.ts) together with the in-memory store
    [MemStorage] of server/storage.ts and the bots of server/bots.ts.

    Modelling conventions.
    - JavaScript numbers that hold identifiers and counters (ids, round
      numbers, tokens) are integers [Z]; hold durations and time banks are
      exact rationals [Q] (floating-point rounding, NaN and the infinities
      are not represented).
    - A JavaScript [Map] is an insertion-ordered association list: [set] on a
      key that is present replaces the value in place, [set] on a new key
      appends, [values()] lists the values in insertion order.
    - The participant key, the string [`${gameId}-${userId}`], is the pair
      [(gameId, userId)].
    - Every handler is run to completion on one state (section 5 of the
      specification: one message is processed before the next is
      considered).  A handler returns the new state and the list of effects
      it performed, in program order.
    - [broadcastToGame] is recorded as the effect [Broadcast].  What it does
      beyond sending (the GAME_STATE resync, and the [handleEmptyGame] check
      that it starts without awaiting when no socket of the room is open)
      runs after the handler has gone on; the check is an input of its own,
      [EmptyGameCheck].
    - Timestamps ([Date.now()], [startedAt], [endedAt], [joinedAt]) and the
      map [userSocketMap] are left out: no handler reads them.  The
      WebSocket handlers work on [MemStorage], which holds the tables they
      read; the counters and the audit tables [gameRounds] and [roundBids]
      that only the other methods of the store and the bots use are added
      by [Store].  Of the HTTP routes only the login handler is modelled.
    - [Math.random()] is an argument of the functions that call it. *)

From Stdlib Require Import String ZArith QArith Qminmax Qround List Bool Lia Lqa Permutation Sorted.
Import ListNotations.
Local Open Scope Z_scope.

(** ** Insertion-ordered maps (JavaScript [Map]) *)

Module JsMap.
Section Defs.
Context {K V : Type}.
Variable eqb : K -> K -> bool.

Fixpoint get (m : list (K * V)) (k : K) : option V :=
  match m with
  | [] => None
  | (k', v) :: m' => if eqb k' k then Some v else get m' k
  end.

Fixpoint set (m : list (K * V)) (k : K) (v : V) : list (K * V) :=
  match m with
  | [] => [(k, v)]
  | (k', v') :: m' => if eqb k' k then (k', v) :: m' else (k', v') :: set m' k v
  end.

Fixpoint delete (m : list (K * V)) (k : K) : list (K * V) :=
  match m with
  | [] => []
  | (k', v') :: m' => if eqb k' k then m' else (k', v') :: delete m' k
  end.

Definition has (m : list (K * V)) (k : K) : bool :=
  match get m k with Some _ => true | None => false end.

Definition values (m : list (K * V)) : list V := map snd m.

Definition keys (m : list (K * V)) : list K := map fst m.
End Defs.
End JsMap.

(** ** Data model (shared/schema.ts) *)

Inductive GameStatus := waiting | in_progress | completed.

Definition status_eqb (a b : GameStatus) : bool :=
  match a, b with
  | waiting, waiting | in_progress, in_progress | completed, completed => true
  | _, _ => false
  end.

Record User := mkUser {
  u_id : Z;
  username : string;
  displayName : string
}.

Record Game := mkGame {
  g_id : Z;
  createdById : Z;
  status : GameStatus;
  currentRound : Z;
  totalRounds : Z;
  startingTimeBank : Q;
  isPublic : bool;
  hasBots : bool;
  maxHoldTimeLastRound : Q;
  roundWinnerId : option Z
}.

(** [p_id] is the row id drawn from [participantIdCounter]; [userId] is the
    id of the user the row belongs to.  [timeBank] is [number | null].  The
    flags [isBot] and [hasBidThisRound] are only ever tested for truthiness,
    so an absent flag is [false]; an absent [lastHoldTime] is [0], the
    schema default. *)
Record GameParticipant := mkParticipant {
  p_id : Z;
  gameId : Z;
  userId : Z;
  isHost : bool;
  isReady : bool;
  timeBank : option Q;
  tokensWon : Z;
  isEliminated : bool;
  isBot : bool;
  hasBidThisRound : bool;
  lastHoldTime : Q
}.

(** Object spreads [{ ...participant, field }]. *)
Definition with_isReady (p : GameParticipant) (v : bool) : GameParticipant :=
  mkParticipant (p_id p) (gameId p) (userId p) (isHost p) v (timeBank p)
    (tokensWon p) (isEliminated p) (isBot p) (hasBidThisRound p) (lastHoldTime p).

Definition with_isHost (p : GameParticipant) (v : bool) : GameParticipant :=
  mkParticipant (p_id p) (gameId p) (userId p) v (isReady p) (timeBank p)
    (tokensWon p) (isEliminated p) (isBot p) (hasBidThisRound p) (lastHoldTime p).

Definition with_timeBank (p : GameParticipant) (v : Q) : GameParticipant :=
  mkParticipant (p_id p) (gameId p) (userId p) (isHost p) (isReady p) (Some v)
    (tokensWon p) (isEliminated p) (isBot p) (hasBidThisRound p) (lastHoldTime p).

Definition with_tokensWon (p : GameParticipant) (v : Z) : GameParticipant :=
  mkParticipant (p_id p) (gameId p) (userId p) (isHost p) (isReady p) (timeBank p)
    v (isEliminated p) (isBot p) (hasBidThisRound p) (lastHoldTime p).

Definition with_isEliminated (p : GameParticipant) (v : bool) : GameParticipant :=
  mkParticipant (p_id p) (gameId p) (userId p) (isHost p) (isReady p) (timeBank p)
    (tokensWon p) v (isBot p) (hasBidThisRound p) (lastHoldTime p).

Definition with_bidDetails (p : GameParticipant) (b : bool) (h : Q) : GameParticipant :=
  mkParticipant (p_id p) (gameId p) (userId p) (isHost p) (isReady p) (timeBank p)
    (tokensWon p) (isEliminated p) (isBot p) b h.

Definition with_status (g : Game) (v : GameStatus) : Game :=
  mkGame (g_id g) (createdById g) v (currentRound g) (totalRounds g)
    (startingTimeBank g) (isPublic g) (hasBots g) (maxHoldTimeLastRound g)
    (roundWinnerId g).

Definition with_createdById (g : Game) (v : Z) : Game :=
  mkGame (g_id g) v (status g) (currentRound g) (totalRounds g)
    (startingTimeBank g) (isPublic g) (hasBots g) (maxHoldTimeLastRound g)
    (roundWinnerId g).

Definition with_roundResults (g : Game) (w : option Z) (m : Q) (r : Z) : Game :=
  mkGame (g_id g) (createdById g) (status g) r (totalRounds g)
    (startingTimeBank g) (isPublic g) (hasBots g) m w.

(** ** MemStorage (server/storage.ts) *)

Definition Key : Type := (Z * Z)%type.

Definition key_eqb (a b : Key) : bool :=
  (fst a =? fst b) && (snd a =? snd b).

Definition participantKey (gameId userId : Z) : Key := (gameId, userId).

Record MemStorage := mkStorage {
  users : list (Z * User);
  games : list (Z * Game);
  gameParticipants : list (Key * GameParticipant);
  participantIdCounter : Z
}.

Definition set_games (s : MemStorage) (gs : list (Z * Game)) : MemStorage :=
  mkStorage (users s) gs (gameParticipants s) (participantIdCounter s).

Definition set_gameParticipants (s : MemStorage)
    (ps : list (Key * GameParticipant)) : MemStorage :=
  mkStorage (users s) (games s) ps (participantIdCounter s).

Definition getUser (s : MemStorage) (id : Z) : option User :=
  JsMap.get Z.eqb (users s) id.

Definition getGame (s : MemStorage) (id : Z) : option Game :=
  JsMap.get Z.eqb (games s) id.

(** The shape shared by every [update...] method on a game:
    [const game = this.games.get(id); if (game) this.games.set(id, {...})]. *)
Definition updateGame (s : MemStorage) (id : Z) (f : Game -> Game) : MemStorage :=
  match getGame s id with
  | Some game => set_games s (JsMap.set Z.eqb (games s) id (f game))
  | None => s
  end.

Definition updateGameStatus (s : MemStorage) (id : Z) (st : GameStatus) : MemStorage :=
  updateGame s id (fun game => with_status game st).

Definition getPublicGames (s : MemStorage) : list Game :=
  filter (fun game => isPublic game && status_eqb (status game) waiting)
         (JsMap.values (games s)).

Definition getParticipant (s : MemStorage) (gameId userId : Z) : option GameParticipant :=
  JsMap.get key_eqb (gameParticipants s) (participantKey gameId userId).

Definition getParticipantsByGame (s : MemStorage) (g : Z) : list GameParticipant :=
  filter (fun participant => gameId participant =? g)
         (JsMap.values (gameParticipants s)).

(** The fields of [InsertGameParticipant] that the callers pass. *)
Definition addParticipant (s : MemStorage)
    (gameId userId : Z) (isHost isReady : bool) (timeBank : Q) (isBot : bool)
    : MemStorage * GameParticipant :=
  let id := participantIdCounter s in
  let participant :=
    mkParticipant id gameId userId isHost isReady (Some timeBank) 0 false isBot false 0%Q in
  (mkStorage (users s) (games s)
     (JsMap.set key_eqb (gameParticipants s) (participantKey gameId userId) participant)
     (id + 1),
   participant).

(** The shape shared by every [update...] method on a participant. *)
Definition updateParticipant (s : MemStorage) (gameId userId : Z)
    (f : GameParticipant -> GameParticipant) : MemStorage :=
  match getParticipant s gameId userId with
  | Some participant =>
      set_gameParticipants s
        (JsMap.set key_eqb (gameParticipants s) (participantKey gameId userId) (f participant))
  | None => s
  end.

Definition updateParticipantReadyStatus (s : MemStorage) (gameId userId : Z) (isReady : bool) :=
  updateParticipant s gameId userId (fun p => with_isReady p isReady).

Definition updateParticipantHostStatus (s : MemStorage) (gameId userId : Z) (isHost : bool) :=
  updateParticipant s gameId userId (fun p => with_isHost p isHost).

Definition updateParticipantTimeBank (s : MemStorage) (gameId userId : Z) (timeBank : Q) :=
  updateParticipant s gameId userId (fun p => with_timeBank p timeBank).

Definition updateParticipantTokens (s : MemStorage) (gameId userId : Z) (tokens : Z) :=
  updateParticipant s gameId userId (fun p => with_tokensWon p tokens).

Definition eliminateParticipant (s : MemStorage) (gameId userId : Z) :=
  updateParticipant s gameId userId (fun p => with_isEliminated p true).

(** Modelled from the spec: [storage.updateParticipantBidDetails] is called
    by the handlers but is not among the methods of storage.ts.  Section 4.3
    has it "mark the participant's has-bid flag true and record the
    duration" and "reset every participant's has-bid flag and recorded
    duration"; it is given the shape of its sibling methods, keyed by
    (game id, user id). *)
Definition updateParticipantBidDetails (s : MemStorage) (gameId userId : Z)
    (hasBid : bool) (holdTime : Q) :=
  updateParticipant s gameId userId (fun p => with_bidDetails p hasBid holdTime).

(** Modelled from the spec: [storage.updateGameRoundResults] is not among the
    methods of storage.ts.  Section 3 names the "last-round summary fields
    (winner id, winning hold duration)" and section 4.3 has resolution
    "advance currentRound"; the method stores the three values it is
    given. *)
Definition updateGameRoundResults (s : MemStorage) (id : Z)
    (winnerId : option Z) (maxHold : Q) (round : Z) :=
  updateGame s id (fun game => with_roundResults game winnerId maxHold round).

(** Modelled from the spec: [storage.updateGameHost] is not among the methods
    of storage.ts.  Section 3: the host "must correspond to the game's
    creator id"; the method records the host as the game's creator id. *)
Definition updateGameHost (s : MemStorage) (id : Z) (userId : Z) :=
  updateGame s id (fun game => with_createdById game userId).

(** ** Messages and effects *)

(** The [type] tag of an incoming WebSocket message, after IDENTIFY. *)
Inductive MessageType :=
  | T_JOIN_GAME | T_PLAYER_READY | T_BUZZER_HOLD | T_BUZZER_RELEASE | T_OTHER.

(** The parsed JSON [data] as far as the dispatcher reads it.  [d_gameId = 0]
    stands for every falsy [data.gameId]; [d_holdTime = None] for a
    [data.holdTime] that is absent or not of type number. *)
Record ClientData := mkData {
  d_type : MessageType;
  d_gameId : Z;
  d_isReady : bool;
  d_holdTime : option Q
}.

Record Ranking := mkRanking {
  r_userId : Z;
  r_username : string;
  r_displayName : string;
  tokens : Z;
  timeRemaining : Q
}.

(** Outgoing [GameEvent]s. *)
Inductive GameEvent :=
  | ERROR (message : string)
  | JOIN_GAME (gameId userId : Z) (username displayName : string)
  | PLAYER_READY (gameId userId : Z) (isReady : bool)
  | GAME_START (gameId : Z)
  | ROUND_START (gameId roundNumber : Z)
  | BUZZER_HOLD (gameId userId : Z)
  | BUZZER_RELEASE (gameId userId : Z) (holdTime : Q)
  | ROUND_END (gameId roundNumber winnerId : Z) (winnerHoldTime : Q) (nextRound : Z)
  | GAME_END (gameId : Z) (rankings : list Ranking)
  | PLAYER_LEFT (gameId userId : Z)
  | GAME_STATE (gameId : Z) (game : Game) (players : list GameParticipant).

(** What a handler does besides updating the state, in program order:
    [Send] is [socket.send] on the connection that triggered the handler,
    [Broadcast] is a call of [broadcastToGame], [StartGameCountdown] starts
    the three-tick countdown interval, and [RoundStartTimer] is the
    three-second timeout that announces the next round. *)
Inductive Effect :=
  | Send (e : GameEvent)
  | Broadcast (gameId : Z) (e : GameEvent)
  | StartGameCountdown (gameId : Z)
  | RoundStartTimer (gameId roundNumber : Z).

Inductive ReadyState := CONNECTING | OPEN | CLOSING | CLOSED.

Record WebSocket := mkSocket {
  socketId : nat;
  readyState : ReadyState
}.

Definition isOpen (socket : WebSocket) : bool :=
  match readyState socket with OPEN => true | _ => false end.

(** The orchestrator's state: the store and the room table
    [gameClients : Map<gameId, Map<userId, WebSocket>>]. *)
Record ServerState := mkState {
  storage : MemStorage;
  gameClients : list (Z * list (Z * WebSocket))
}.

Definition isSome {A : Type} (o : option A) : bool :=
  match o with Some _ => true | None => false end.

(** ** Handlers (server/routes.ts) *)

Definition sendGameState (st : ServerState) (gid uid : Z) : list Effect :=
  match getGame (storage st) gid with
  | None => [Send (ERROR "Game not found")]
  | Some game =>
      let participants := getParticipantsByGame (storage st) gid in
      let validParticipants :=
        filter (fun p => negb (userId p =? 0) && (0 <? userId p))
               participants in
      [Send (GAME_STATE gid game validParticipants)]
  end.

(** [gameClients.get(gameId).set(userId, socket)], creating the room first
    when it is missing. *)
Definition joinRoom (clients : list (Z * list (Z * WebSocket)))
    (gid uid : Z) (socket : WebSocket) : list (Z * list (Z * WebSocket)) :=
  let clients1 :=
    if JsMap.has Z.eqb clients gid then clients
    else JsMap.set Z.eqb clients gid [] in
  match JsMap.get Z.eqb clients1 gid with
  | Some gameUsers =>
      JsMap.set Z.eqb clients1 gid (JsMap.set Z.eqb gameUsers uid socket)
  | None => clients1
  end.

(** The store part of [handleJoinGame], after the game was found and the
    join was not rejected; [None] is the "User not found" exit. *)
Definition joinStore (s : MemStorage) (game : Game) (gid uid : Z)
    : option MemStorage :=
  let isCreator := createdById game =? uid in
  match getParticipant s gid uid with
  | None =>
      match getUser s uid with
      | None => None
      | Some _ =>
          let currentHost := find isHost (getParticipantsByGame s gid) in
          let shouldBeHost := isCreator && negb (isSome currentHost) in
          let (s1, _) :=
            addParticipant s gid uid shouldBeHost shouldBeHost
              (startingTimeBank game) false in
          Some (if shouldBeHost then updateGameHost s1 gid uid else s1)
      end
  | Some participant =>
      if isCreator && negb (isHost participant) then
        match find isHost (getParticipantsByGame s gid) with
        | None =>
            let s1 := updateParticipantHostStatus s gid uid true in
            let s2 := updateGameHost s1 gid uid in
            match getParticipant s2 gid uid with
            | Some p' =>
                if negb (isReady p')
                then Some (updateParticipantReadyStatus s2 gid uid true)
                else Some s2
            | None => Some s2
            end
        | Some _ => Some s
        end
      else Some s
  end.

Definition handleJoinGame (st : ServerState) (gid uid : Z) (socket : WebSocket)
    : ServerState * list Effect :=
  let s := storage st in
  match getGame s gid with
  | None => (st, [Send (ERROR "Game not found")])
  | Some game =>
      if negb (status_eqb (status game) waiting)
         && negb (isSome (getParticipant s gid uid))
      then (st, [Send (ERROR "Game already started")])
      else
        match joinStore s game gid uid with
        | None => (st, [Send (ERROR "User not found")])
        | Some s' =>
            let st' := mkState s' (joinRoom (gameClients st) gid uid socket) in
            let user := getUser s' uid in
            (st',
             Broadcast gid
               (JOIN_GAME gid uid
                  (match user with Some u => username u | None => EmptyString end)
                  (match user with Some u => displayName u | None => EmptyString end))
             :: sendGameState st' gid uid)
        end
  end.

Definition handlePlayerReady (st : ServerState) (gid uid : Z) (ready : bool)
    : ServerState * list Effect :=
  let s1 := updateParticipantReadyStatus (storage st) gid uid ready in
  let st1 := mkState s1 (gameClients st) in
  let out := Broadcast gid (PLAYER_READY gid uid ready) in
  let participants := getParticipantsByGame s1 gid in
  match getGame s1 gid with
  | Some game =>
      if status_eqb (status game) waiting && (2 <=? length participants)%nat then
        if forallb (fun p => isReady p) participants
        then (st1, [out; StartGameCountdown gid])
        else (st1, [out])
      else (st1, [out])
  | None => (st1, [out])
  end.

Definition handleBuzzerHold (st : ServerState) (gid uid : Z)
    : ServerState * list Effect :=
  (st, [Broadcast gid (BUZZER_HOLD gid uid)]).

(** [startGame], run when the countdown interval reaches zero. *)
Definition startGame (st : ServerState) (gid : Z) : ServerState * list Effect :=
  match getGame (storage st) gid with
  | None => (st, [])
  | Some game =>
      if negb (status_eqb (status game) waiting) then (st, [])
      else
        (mkState (updateGameStatus (storage st) gid in_progress) (gameClients st),
         [Broadcast gid (GAME_START gid);
          Broadcast gid (ROUND_START gid 1)])
  end.

(** [a > b] on numbers. *)
Definition Qgt_bool (a b : Q) : bool := negb (Qle_bool a b).

(** The comparator handed to [rankings.sort]: tokens descending, then time
    remaining descending.  ([x || 0] is [x] on a rational.) *)
Definition compareRankings (a b : Ranking) : Q :=
  if negb (tokens b =? tokens a) then inject_Z (tokens b - tokens a)
  else (timeRemaining b - timeRemaining a)%Q.

(** [Array.prototype.sort] is a stable sort; it is run here as a stable
    insertion sort: an element goes in front of the first element it does
    not compare greater than. *)
Fixpoint insertRanking (x : Ranking) (l : list Ranking) : list Ranking :=
  match l with
  | [] => [x]
  | y :: l' =>
      if Qle_bool (compareRankings x y) 0 then x :: l else y :: insertRanking x l'
  end.

Definition sortRankings (l : list Ranking) : list Ranking :=
  fold_right insertRanking [] l.

(** [Math.min(...xs)]; [None] is the [Infinity] of an empty argument list. *)
Definition lowestTokens (ps : list GameParticipant) : option Z :=
  fold_right
    (fun p acc =>
       match acc with
       | None => Some (tokensWon p)
       | Some m => Some (Z.min (tokensWon p) m)
       end)
    None ps.

Definition isLowest (lowest : option Z) (p : GameParticipant) : bool :=
  match lowest with
  | Some m => tokensWon p =? m
  | None => false
  end.

Definition toRanking (s : MemStorage) (p : GameParticipant) : Ranking :=
  let user := getUser s (userId p) in
  mkRanking (userId p)
    (match user with Some u => username u | None => EmptyString end)
    (match user with Some u => displayName u | None => EmptyString end)
    (tokensWon p)
    (match timeBank p with None => 0%Q | Some t => t end).

Definition endGame (st : ServerState) (gid : Z) : ServerState * list Effect :=
  match getGame (storage st) gid with
  | None => (st, [])
  | Some _ =>
      let s1 := updateGameStatus (storage st) gid completed in
      let participants := getParticipantsByGame s1 gid in
      let lowest := lowestTokens participants in
      let s2 :=
        fold_left
          (fun s participant =>
             if isLowest lowest participant
             then eliminateParticipant s gid (userId participant)
             else s)
          participants s1 in
      let rankings := map (toRanking s2) participants in
      (mkState s2 (gameClients st),
       [Broadcast gid (GAME_END gid (sortRankings rankings))])
  end.

(** [activeBidders.reduce((prev, current) =>
       (prev.lastHoldTime > current.lastHoldTime) ? prev : current)],
    guarded by [activeBidders.length > 0]. *)
Definition reduceWinner (activeBidders : list GameParticipant) : option GameParticipant :=
  match activeBidders with
  | [] => None
  | first :: rest =>
      Some (fold_left
              (fun prev current =>
                 if Qgt_bool (lastHoldTime prev) (lastHoldTime current)
                 then prev else current)
              rest first)
  end.

Definition activeBidders (s : MemStorage) (gid : Z) : list GameParticipant :=
  filter (fun p => negb (isEliminated p) && hasBidThisRound p)
         (getParticipantsByGame s gid).

(** The store updates of [endCurrentRound] for a game that is in progress,
    given the participants it fetched and the winner it chose: the token
    award, the round results and the reset loop.  Both the award and the
    reset pass the row id ([roundWinner.id], [p.id]) where the store methods
    take a user id. *)
Definition resolveRound (s : MemStorage) (game : Game) (gid : Z)
    (participants : list GameParticipant) (roundWinner : option GameParticipant)
    : MemStorage :=
  let s1 :=
    match roundWinner with
    | Some w => updateParticipantTokens s gid (p_id w) (tokensWon w + 1)
    | None => s
    end in
  let s2 :=
    updateGameRoundResults s1 gid
      (option_map p_id roundWinner)
      (match roundWinner with Some w => lastHoldTime w | None => 0%Q end)
      (currentRound game + 1) in
  fold_left (fun acc p => updateParticipantBidDetails acc gid (p_id p) false 0%Q)
            participants s2.

Definition endCurrentRound (st : ServerState) (gid : Z) : ServerState * list Effect :=
  match getGame (storage st) gid with
  | None => (st, [])
  | Some game =>
      if negb (status_eqb (status game) in_progress) then (st, [])
      else
        let participants := getParticipantsByGame (storage st) gid in
        let roundWinner := reduceWinner (activeBidders (storage st) gid) in
        let maxHoldTimeThisRound :=
          match roundWinner with Some w => lastHoldTime w | None => 0%Q end in
        let st3 :=
          mkState (resolveRound (storage st) game gid participants roundWinner)
                  (gameClients st) in
        match getGame (storage st3) gid with
        | None => (st3, [])
        | Some game' =>
            let nextRoundNumber := currentRound game' in
            let isLastRoundCompleted := totalRounds game' <=? nextRoundNumber - 1 in
            let roundEnd :=
              Broadcast gid
                (ROUND_END gid (nextRoundNumber - 1)
                   (match roundWinner with Some w => p_id w | None => 0 end)
                   maxHoldTimeThisRound
                   (if isLastRoundCompleted then -1 else nextRoundNumber)) in
            if isLastRoundCompleted then
              let (st4, outs) := endGame st3 gid in
              (st4, roundEnd :: outs)
            else
              (st3, [roundEnd; RoundStartTimer gid nextRoundNumber])
        end
  end.

(** The two store writes of a valid release: the time bank, floored at zero,
    and the bid details. *)
Definition recordBid (s : MemStorage) (gid uid : Z) (participant : GameParticipant)
    (holdTime : Q) : MemStorage :=
  let s1 :=
    match timeBank participant with
    | Some tb =>
        let holdTimeSeconds := (holdTime / 1000)%Q in
        updateParticipantTimeBank s gid uid (Qmax 0 (tb - holdTimeSeconds))
    | None => s
    end in
  updateParticipantBidDetails s1 gid uid true holdTime.

Definition allActivePlayersHaveBid (s : MemStorage) (gid : Z) : bool :=
  let freshParticipants := getParticipantsByGame s gid in
  let activePlayers := filter (fun p => negb (isEliminated p)) freshParticipants in
  let playersWhoHaveBid := filter (fun p => hasBidThisRound p) freshParticipants in
  (0 <? length activePlayers)%nat
  && forallb (fun p => existsb (fun b => userId b =? userId p) playersWhoHaveBid)
             activePlayers.

Definition handleBuzzerRelease (st : ServerState) (gid uid : Z) (holdTime : Q)
    : ServerState * list Effect :=
  match getGame (storage st) gid with
  | None => (st, [])
  | Some game =>
      if negb (status_eqb (status game) in_progress) then (st, [])
      else
        match getParticipant (storage st) gid uid with
        | None => (st, [])
        | Some participant =>
            if isEliminated participant then (st, [])
            else if hasBidThisRound participant then (st, [])
            else
              let st1 :=
                mkState (recordBid (storage st) gid uid participant holdTime)
                        (gameClients st) in
              let out := Broadcast gid (BUZZER_RELEASE gid uid holdTime) in
              if allActivePlayersHaveBid (storage st1) gid then
                let (st2, outs) := endCurrentRound st1 gid in
                (st2, out :: outs)
              else (st1, [out])
        end
  end.

(** [handleEmptyGame], the check that [broadcastToGame] starts, without
    waiting for it, when a room has no open socket. *)
Definition handleEmptyGame (st : ServerState) (gid : Z) : ServerState :=
  match getGame (storage st) gid with
  | None => st
  | Some game =>
      let participants := getParticipantsByGame (storage st) gid in
      let roomIsEmpty :=
        match JsMap.get Z.eqb (gameClients st) gid with
        | Some room => (length room =? 0)%nat
        | None => false
        end in
      if (length participants <? 2)%nat
         || (status_eqb (status game) waiting && roomIsEmpty)
      then mkState (updateGameStatus (storage st) gid completed)
                   (JsMap.delete Z.eqb (gameClients st) gid)
      else st
  end.

(** One iteration of the loop of [cleanupGames]; [game] is the object that
    [getPublicGames] returned when the pass began. *)
Definition cleanupGame (st : ServerState) (game : Game) : ServerState :=
  let participants := getParticipantsByGame (storage st) (g_id game) in
  let gameClientMap :=
    match JsMap.get Z.eqb (gameClients st) (g_id game) with
    | Some room => room
    | None => []
    end in
  let activeClients := length (filter isOpen (JsMap.values gameClientMap)) in
  if (length participants <? 2)%nat
     || ((activeClients =? 0)%nat && status_eqb (status game) waiting)
  then mkState (updateGameStatus (storage st) (g_id game) completed)
               (if JsMap.has Z.eqb (gameClients st) (g_id game)
                then JsMap.delete Z.eqb (gameClients st) (g_id game)
                else gameClients st)
  else st.

Definition cleanupGames (st : ServerState) : ServerState :=
  let allGames := getPublicGames (storage st) in
  fold_left cleanupGame allGames st.

(** The [close] handler of a connection bound to [uid] whose last JOIN_GAME
    named [gid]. *)
Definition onClose (st : ServerState) (ws : WebSocket) (uid gid : Z)
    : ServerState * list Effect :=
  if negb (uid =? 0) && negb (gid =? 0) then
    match JsMap.get Z.eqb (gameClients st) gid with
    | Some gameUsers =>
        match JsMap.get Z.eqb gameUsers uid with
        | Some socket =>
            if (socketId socket =? socketId ws)%nat then
              let gameUsers' := JsMap.delete Z.eqb gameUsers uid in
              let clients :=
                if (length gameUsers' =? 0)%nat
                then JsMap.delete Z.eqb (gameClients st) gid
                else JsMap.set Z.eqb (gameClients st) gid gameUsers' in
              (mkState (storage st) clients, [Broadcast gid (PLAYER_LEFT gid uid)])
            else (st, [])
        | None => (st, [])
        end
    | None => (st, [])
    end
  else (st, []).

(** The [message] handler of a connection, after its IDENTIFY: [uid] is the
    user id the connection is bound to ([0]: not identified yet). *)
Definition onMessage (st : ServerState) (ws : WebSocket) (uid : Z) (data : ClientData)
    : ServerState * list Effect :=
  if uid =? 0 then (st, [Send (ERROR "Please identify first")])
  else
    let hasGame := negb (d_gameId data =? 0) in
    match d_type data, d_holdTime data with
    | T_JOIN_GAME, _ =>
        if hasGame then handleJoinGame st (d_gameId data) uid ws
        else (st, [Send (ERROR "Invalid or incomplete message")])
    | T_PLAYER_READY, _ =>
        if hasGame then handlePlayerReady st (d_gameId data) uid (d_isReady data)
        else (st, [Send (ERROR "Invalid or incomplete message")])
    | T_BUZZER_HOLD, _ =>
        if hasGame then handleBuzzerHold st (d_gameId data) uid
        else (st, [Send (ERROR "Invalid or incomplete message")])
    | T_BUZZER_RELEASE, Some holdTime =>
        if hasGame then handleBuzzerRelease st (d_gameId data) uid holdTime
        else (st, [Send (ERROR "Invalid or incomplete message")])
    | _, _ => (st, [Send (ERROR "Invalid or incomplete message")])
    end.

(** ** Runs of the server *)

(** What the server reacts to: a message or the close of an identified
    connection, the countdown reaching zero, the empty-room check, and the
    periodic cleanup pass. *)
Inductive Input :=
  | WsMessage (ws : WebSocket) (uid : Z) (data : ClientData)
  | WsClose (ws : WebSocket) (uid gid : Z)
  | CountdownElapsed (gid : Z)
  | EmptyGameCheck (gid : Z)
  | CleanupTick.

Definition step (st : ServerState) (i : Input) : ServerState * list Effect :=
  match i with
  | WsMessage ws uid data => onMessage st ws uid data
  | WsClose ws uid gid => onClose st ws uid gid
  | CountdownElapsed gid => startGame st gid
  | EmptyGameCheck gid => (handleEmptyGame st gid, [])
  | CleanupTick => (cleanupGames st, [])
  end.

Fixpoint run (st : ServerState) (inputs : list Input) : ServerState * list Effect :=
  match inputs with
  | [] => (st, [])
  | i :: rest =>
      let (st1, outs1) := step st i in
      let (st2, outs2) := run st1 rest in
      (st2, outs1 ++ outs2)
  end.

(** ** Predicates used in the statements *)

(** The invariant of the participant table: no key occurs twice and every
    row is stored under the key built from its own game id and user id. *)
Definition wf_storage (s : MemStorage) : Prop :=
  NoDup (JsMap.keys (gameParticipants s)) /\
  forall k p, In (k, p) (gameParticipants s) ->
              k = participantKey (gameId p) (userId p).

Definition sameIdentity (f : GameParticipant -> GameParticipant) : Prop :=
  forall p, gameId (f p) = gameId p /\ userId (f p) = userId p.

(** [evolves R G s s']: every row of [s] is still present in [s'], under the
    same key and related by [R]; every game of [s] is still present and
    related by [G]; the table invariant is kept. *)
Definition evolves (R : GameParticipant -> GameParticipant -> Prop)
    (G : Game -> Game -> Prop) (s s' : MemStorage) : Prop :=
  (forall g u p, getParticipant s g u = Some p ->
     exists p', getParticipant s' g u = Some p' /\ R p p') /\
  (forall g game, getGame s g = Some game ->
     exists game', getGame s' g = Some game' /\ G game game') /\
  (wf_storage s -> wf_storage s').

(** The (game id, round number) pairs of the ROUND_END broadcasts. *)
Definition roundEnds (outs : list Effect) : list (Z * Z) :=
  flat_map
    (fun e =>
       match e with
       | Broadcast _ (ROUND_END g n _ _ _) => [(g, n)]
       | _ => []
       end)
    outs.

(** [holdsOk ok i]: when [i] is a BUZZER_RELEASE carrying a hold time, the
    hold time satisfies [ok]. *)
Definition holdsOk (ok : Q -> Prop) (i : Input) : Prop :=
  match i with
  | WsMessage _ _ data =>
      match d_type data, d_holdTime data with
      | T_BUZZER_RELEASE, Some h => ok h
      | _, _ => True
      end
  | _ => True
  end.

(** [lastMaximum w l]: [w] occurs in [l], nothing before it holds longer and
    everything after it holds strictly shorter. *)
Definition lastMaximum (w : GameParticipant) (l : list GameParticipant) : Prop :=
  exists before after,
    l = before ++ w :: after /\
    (forall p, In p before -> (lastHoldTime p <= lastHoldTime w)%Q) /\
    (forall p, In p after -> (lastHoldTime p < lastHoldTime w)%Q).

(** [firstMaximum w l]: [w] occurs in [l], everything before it holds
    strictly shorter and nothing after it holds longer. *)
Definition firstMaximum (w : GameParticipant) (l : list GameParticipant) : Prop :=
  exists before after,
    l = before ++ w :: after /\
    (forall p, In p before -> (lastHoldTime p < lastHoldTime w)%Q) /\
    (forall p, In p after -> (lastHoldTime p <= lastHoldTime w)%Q).

(** The order of the final rankings: more tokens first, and among equal
    tokens at least as much time remaining first. *)
Definition ranksBefore (a b : Ranking) : Prop :=
  tokens a > tokens b \/
  (tokens a = tokens b /\ (timeRemaining b <= timeRemaining a)%Q).

(** A time bank that was a non-negative number is still a non-negative
    number, and no larger. *)
Definition timeBankShrinks (a b : GameParticipant) : Prop :=
  forall t, timeBank a = Some t -> (0 <= t)%Q ->
            exists t', timeBank b = Some t' /\ (0 <= t')%Q /\ (t' <= t)%Q.

Definition sameTimeBank (a b : GameParticipant) : Prop :=
  timeBank a = timeBank b.

Definition nonNegative (h : Q) : Prop := (0 <= h)%Q.

Definition sameTokens (a b : GameParticipant) : Prop :=
  tokensWon b = tokensWon a.

(** The participant rows of the pair (game id, user id). *)
Definition rowsOf (s : MemStorage) (g u : Z) : list GameParticipant :=
  filter (fun q => (gameId q =? g) && (userId q =? u))
         (JsMap.values (gameParticipants s)).

(** Everything of a row but its host and ready flags is the same. *)
Definition sameStanding (a b : GameParticipant) : Prop :=
  p_id b = p_id a /\ gameId b = gameId a /\ userId b = userId a /\
  timeBank b = timeBank a /\ tokensWon b = tokensWon a /\
  isEliminated b = isEliminated a /\ isBot b = isBot a /\
  hasBidThisRound b = hasBidThisRound a /\ lastHoldTime b = lastHoldTime a.

Definition staysEliminated (a b : GameParticipant) : Prop :=
  isEliminated a = true -> isEliminated b = true.

(** ** Example states *)

Module Examples.
Definition sock (n : nat) : WebSocket := mkSocket n OPEN.

Definition ann : User := mkUser 1 "ann" "Ann".
Definition bob : User := mkUser 2 "bob" "Bob".
Definition cat : User := mkUser 3 "cat" "Cat".

(** The store as POST /api/games leaves it when [cat] (user 3) creates
    game 1: three rounds, sixty seconds each, and the creator's row, the
    first participant row ever made (row id 1). *)
Definition lobby0 : ServerState :=
  mkState
    (mkStorage [(1, ann); (2, bob); (3, cat)]
       [(1, mkGame 1 3 waiting 0 3 60 true false 0 None)]
       [((1, 3), mkParticipant 1 1 3 true false (Some 60%Q) 0 false false false 0)]
       2)
    [].

Definition join (u : Z) : Input :=
  WsMessage (sock (Z.to_nat u)) u (mkData T_JOIN_GAME 1 false None).
Definition ready (u : Z) : Input :=
  WsMessage (sock (Z.to_nat u)) u (mkData T_PLAYER_READY 1 true None).
Definition release (u : Z) (h : Q) : Input :=
  WsMessage (sock (Z.to_nat u)) u (mkData T_BUZZER_RELEASE 1 false (Some h)).

(** Everybody joins and is ready, the countdown runs out. *)
Definition opening : list Input :=
  [join 3; join 1; join 2; ready 3; ready 1; ready 2; CountdownElapsed 1].

(** Game 1 in progress, nobody has bid yet.  The rows are
    (row 1, user 3), (row 2, user 1), (row 3, user 2). *)
Definition arena : ServerState := Eval vm_compute in fst (run lobby0 opening).

(** [arena] after user 3 released at 5000 ms. *)
Definition arenaOneBid : ServerState :=
  Eval vm_compute in fst (run arena [release 3 5000]).

(** A full first round: user 3 holds longest. *)
Definition round1 : list Input :=
  [release 3 5000; release 1 3000; release 2 1000].

(** A round in which users 3 and 1 hold equally long. *)
Definition tiedRound : list Input :=
  [release 3 3000; release 1 3000].

(** [arena] with users 3 and 1 having bid 3000 ms each and user 2 still
    holding. *)
Definition arenaTied : ServerState :=
  Eval vm_compute in fst (run arena tiedRound).

(** [arenaTied] once the bid of user 2 (1000 ms) is recorded as well: the
    state in which [endCurrentRound] is entered. *)
Definition arenaAllBid : ServerState :=
  Eval vm_compute in
    match getParticipant (storage arenaTied) 1 2 with
    | Some p =>
        mkState (recordBid (storage arenaTied) 1 2 p 1000) (gameClients arenaTied)
    | None => arenaTied
    end.

(** A game in progress all of whose participants are eliminated. *)
Definition allOut : ServerState :=
  mkState
    (mkStorage [(1, ann); (2, bob)]
       [(1, mkGame 1 1 in_progress 2 5 60 true false 0 None)]
       [((1, 1), mkParticipant 1 1 1 true true (Some 50%Q) 0 true false false 0);
        ((1, 2), mkParticipant 2 1 2 false true (Some 40%Q) 0 true false false 0)]
       3)
    [].

(** A game in progress that was created with a starting time bank of -5
    seconds; nobody has bid. *)
Definition overdrawn : ServerState :=
  mkState
    (mkStorage [(1, ann); (2, bob)]
       [(1, mkGame 1 1 in_progress 0 3 (-5) true false 0 None)]
       [((1, 1), mkParticipant 1 1 1 true true (Some (-5)%Q) 0 false false false 0);
        ((1, 2), mkParticipant 2 1 2 false true (Some (-5)%Q) 0 false false false 0)]
       3)
    [].

(** A lobby with one human host and one bot, the bot ready. *)
Definition botLobby : ServerState :=
  mkState
    (mkStorage [(1, ann); (2, mkUser 2 "bot_cautious" "Cautious Bot")]
       [(1, mkGame 1 1 waiting 0 3 60 true true 0 None)]
       [((1, 1), mkParticipant 1 1 1 true false (Some 60%Q) 0 false false false 0);
        ((1, 2), mkParticipant 2 1 2 false true (Some 60%Q) 0 false true false 0)]
       3)
    [].

(** A private lobby that only its creator ever joined; no connection. *)
Definition privateLobby : ServerState :=
  mkState
    (mkStorage [(1, ann)]
       [(1, mkGame 1 1 waiting 0 3 60 false false 0 None)]
       [((1, 1), mkParticipant 1 1 1 true false (Some 60%Q) 0 false false false 0)]
       2)
    [].
End Examples.

(** ** The writes a handler makes *)

(** The store writes that occur in the handlers, each with the guard under
    which the handler makes it; [gid] is the game the write belongs to. *)
Inductive prim (gid : Z) (s : MemStorage) : MemStorage -> Prop :=
  | prim_ready u v :
      prim gid s (updateParticipantReadyStatus s gid u v)
  | prim_host u :
      find isHost (getParticipantsByGame s gid) = None ->
      prim gid s (updateParticipantHostStatus s gid u true)
  | prim_time u tb :
      prim gid s (updateParticipantTimeBank s gid u tb)
  | prim_tokens u n :
      prim gid s (updateParticipantTokens s gid u n)
  | prim_elim u :
      prim gid s (eliminateParticipant s gid u)
  | prim_bid u b h :
      prim gid s (updateParticipantBidDetails s gid u b h)
  | prim_add u sh tb :
      getParticipant s gid u = None ->
      (sh = true -> find isHost (getParticipantsByGame s gid) = None) ->
      prim gid s (fst (addParticipant s gid u sh sh tb false))
  | prim_start game :
      getGame s gid = Some game -> status game = waiting ->
      prim gid s (updateGameStatus s gid in_progress)
  | prim_complete :
      prim gid s (updateGameStatus s gid completed)
  | prim_creator u :
      prim gid s (updateGameHost s gid u)
  | prim_round game w m :
      getGame s gid = Some game ->
      prim gid s (updateGameRoundResults s gid w m (currentRound game + 1)).

(** A sequence of such writes, on games that satisfy [allowed]. *)
Inductive writes (allowed : Z -> Prop) : MemStorage -> MemStorage -> Prop :=
  | writes_refl s : writes allowed s s
  | writes_step s s' s'' gid :
      allowed gid -> prim gid s s' -> writes allowed s' s'' ->
      writes allowed s s''.

Definition anyGame (gid : Z) : Prop := True.

(** The rows of a game that carry the host flag. *)
Definition hostsOf (s : MemStorage) (g : Z) : list GameParticipant :=
  filter (fun p => (gameId p =? g) && isHost p) (JsMap.values (gameParticipants s)).

(** The invariant of the games table. *)
Definition wf_games (s : MemStorage) : Prop :=
  NoDup (JsMap.keys (games s)) /\
  forall k game, In (k, game) (games s) -> k = g_id game.

(** The order of the lifecycle: waiting, then in progress, then completed. *)
Definition statusRank (st : GameStatus) : Z :=
  match st with waiting => 0 | in_progress => 1 | completed => 2 end.

(** What a run may do to a game record: the status moves forward only, the
    round counter never falls, and the settings stay. *)
Definition gameAdvances (a b : Game) : Prop :=
  g_id b = g_id a /\ totalRounds b = totalRounds a /\
  startingTimeBank b = startingTimeBank a /\ isPublic b = isPublic a /\
  hasBots b = hasBots a /\
  statusRank (status a) <= statusRank (status b) /\
  currentRound a <= currentRound b.

(** Row ids are below the counter and pairwise distinct. *)
Definition freshRowIds (s : MemStorage) : Prop :=
  (forall k p, In (k, p) (gameParticipants s) -> p_id p < participantIdCounter s) /\
  NoDup (map (fun kp => p_id (snd kp)) (gameParticipants s)).

(** No room of the room table is empty. *)
Definition roomsNonEmpty (st : ServerState) : Prop :=
  forall g room, In (g, room) (gameClients st) -> room <> [].

(** The round numbers of the ROUND_END broadcasts of one game. *)
Definition roundsOf (g : Z) (outs : list Effect) : list Z :=
  map snd (filter (fun gn => fst gn =? g) (roundEnds outs)).

(** [n] consecutive integers from [c]. *)
Fixpoint countFrom (c : Z) (n : nat) : list Z :=
  match n with
  | O => []
  | S n' => c :: countFrom (c + 1) n'
  end.

(** The condition under which the cleanup pass completes a game. *)
Definition sweepable (st : ServerState) (game : Game) : bool :=
  isPublic game && status_eqb (status game) waiting &&
  ((length (getParticipantsByGame (storage st) (g_id game)) <? 2)%nat
   || (length (filter isOpen
                 (JsMap.values
                    (match JsMap.get Z.eqb (gameClients st) (g_id game) with
                     | Some room => room
                     | None => []
                     end))) =? 0)%nat).

(** No row appears between [s] and [s']. *)
Definition keepsAbsent (s s' : MemStorage) : Prop :=
  forall g u, getParticipant s g u = None -> getParticipant s' g u = None.


(** The GAME_START and GAME_END broadcasts of game [g]. *)
Definition isGameStart (g : Z) (e : Effect) : bool :=
  match e with
  | Broadcast _ (GAME_START g') => g' =? g
  | _ => false
  end.

Definition isGameEnd (g : Z) (e : Effect) : bool :=
  match e with
  | Broadcast _ (GAME_END g' _) => g' =? g
  | _ => false
  end.

(** How many GAME_START (GAME_END) broadcasts game [g] can still get: one
    while it is waiting (not completed), none otherwise. *)
Definition startsLeft (s : MemStorage) (g : Z) : nat :=
  match getGame s g with
  | Some game => if status_eqb (status game) waiting then 1 else 0
  | None => 0
  end.

Definition endsLeft (s : MemStorage) (g : Z) : nat :=
  match getGame s g with
  | Some game => if status_eqb (status game) completed then 0 else 1
  | None => 0
  end.


(** User [u] has a row in game [g] that is not eliminated and has not bid in
    the current round. *)
Definition pending (s : MemStorage) (g u : Z) : Prop :=
  exists p, getParticipant s g u = Some p /\
            isEliminated p = false /\ hasBidThisRound p = false.

(** [i] is a BUZZER_RELEASE for game [g] on a connection identified as [u]. *)
Definition releaseFrom (g u : Z) (i : Input) : bool :=
  match i with
  | WsMessage _ uid data =>
      match d_type data with
      | T_BUZZER_RELEASE => (uid =? u) && (d_gameId data =? g)
      | _ => false
      end
  | _ => false
  end.


(** ** Bots (server/bots.ts) *)

(** [Math.random()] is an argument of the functions that call it: [random n]
    is the value of the [n]-th call made by one invocation, counted from 0.
    The language guarantees [0 <= random n < 1]; the theorems that need it
    assume it. *)
Definition unitInterval (random : nat -> Q) : Prop :=
  forall n, (0 <= random n /\ random n < 1)%Q.

Inductive BotProfile := aggressive | conservative | erratic.

Definition profile_eqb (a b : BotProfile) : bool :=
  match a, b with
  | aggressive, aggressive | conservative, conservative | erratic, erratic => true
  | _, _ => false
  end.

Record Bot := mkBot {
  b_id : Z;
  b_username : string;
  b_displayName : string;
  profile : BotProfile
}.

Record BotBehavior := mkBehavior {
  minTimePercentage : Q;
  maxTimePercentage : Q;
  aggressiveProbability : Q;
  adaptability : Q;
  minHoldTime : Q;
  maxHoldTime : Q
}.

Definition botBehaviors (p : BotProfile) : BotBehavior :=
  match p with
  | aggressive => mkBehavior (6 # 10) (95 # 100) (8 # 10) (3 # 10) 3000 10000
  | conservative => mkBehavior (2 # 10) (5 # 10) (2 # 10) (7 # 10) 1000 5000
  | erratic => mkBehavior (1 # 10) (9 # 10) (5 # 10) (1 # 10) 500 15000
  end.

Definition bots : list Bot :=
  [ mkBot (-1) "bot_aggressor" "Aggressor Bot" aggressive;
    mkBot (-2) "bot_cautious" "Cautious Bot" conservative;
    mkBot (-3) "bot_wildcard" "Wildcard Bot" erratic;
    mkBot (-4) "bot_terminator" "Terminator Bot" aggressive;
    mkBot (-5) "bot_tactician" "Tactician Bot" conservative;
    mkBot (-6) "bot_chaotic" "Chaotic Bot" erratic ].

Definition Qlt_bool (a b : Q) : bool := negb (Qle_bool b a).

(** [Math.floor(Math.random() * (max - min + 1)) + min] *)
Definition randomInRange (r : Q) (min max : Q) : Q :=
  (inject_Z (Qfloor (r * (max - min + 1))) + min)%Q.

(** [Math.floor(Math.random() * n)] as an array index. *)
Definition randomIndex (r : Q) (n : nat) : nat :=
  Z.to_nat (Qfloor (r * inject_Z (Z.of_nat n))).

(** [getRandomBot(profile?)]; [None] is [undefined], the value of an array
    read out of range. *)
Definition getRandomBot (random : nat -> Q) (wanted : option BotProfile) : option Bot :=
  let availableBots :=
    match wanted with
    | Some p => filter (fun bot => profile_eqb (profile bot) p) bots
    | None => bots
    end in
  nth_error availableBots (randomIndex (random 0%nat) (length availableBots)).

Fixpoint setAt {A : Type} (a : list A) (i : nat) (v : A) : list A :=
  match a, i with
  | [], _ => []
  | _ :: rest, O => v :: rest
  | x :: rest, S i' => x :: setAt rest i' v
  end.

(** [[a[i], a[j]] = [a[j], a[i]]] for indices inside the array: the two
    reads come first, then [a[i]] and [a[j]] are written in this order.
    (With [random] in the unit interval the shuffle never leaves the
    array; outside that case the model leaves the array as it is.) *)
Definition swap {A : Type} (a : list A) (i j : nat) : list A :=
  match nth_error a j, nth_error a i with
  | Some aj, Some ai => setAt (setAt a i aj) j ai
  | _, _ => a
  end.

(** The shuffle loop [for (let i = length - 1; i > 0; i--)], entered with
    loop variable [i]; [k] counts the calls of [Math.random()] so far. *)
Fixpoint shuffleFrom {A : Type} (random : nat -> Q) (k i : nat) (a : list A) : list A :=
  match i with
  | O => a
  | S i' =>
      let j := randomIndex (random k) (i + 1) in
      shuffleFrom random (S k) i' (swap a i j)
  end.

(** [a.slice(0, count)]: a negative [count] counts from the end. *)
Definition slice0 {A : Type} (a : list A) (count : Z) : list A :=
  let n := Z.of_nat (length a) in
  let stop := if count <? 0 then Z.max (n + count) 0 else Z.min count n in
  firstn (Z.to_nat stop) a.

(** [getRandomBots(count, profiles?)]; [profiles = None] when the argument
    is omitted. *)
Definition getRandomBots (random : nat -> Q) (count : Z)
    (profiles : option (list BotProfile)) : list Bot :=
  let availableBots := shuffleFrom random 0 (length bots - 1) bots in
  match profiles with
  | Some ps =>
      if (0 <? length ps)%nat then
        let filteredBots :=
          filter (fun bot => existsb (profile_eqb (profile bot)) ps) availableBots in
        slice0 filteredBots count
      else slice0 availableBots count
  | None => slice0 availableBots count
  end.

(** [determineBotHoldTime(botId, gameId, roundNumber, winningHoldTimeLastRound?)].
    The two closures over [gameId] are defined and never called, and
    [roundFactor] is computed and never read.  A last winning time of 0 is
    falsy, like a missing one. *)
Definition determineBotHoldTime (random : nat -> Q) (botId gameId roundNumber : Z)
    (winningHoldTimeLastRound : option Q) : Q :=
  match find (fun b => b_id b =? botId) bots with
  | None => 3000%Q
  | Some bot =>
      let behavior := botBehaviors (profile bot) in
      let baseHoldTime :=
        randomInRange (random 0%nat) (minHoldTime behavior) (maxHoldTime behavior) in
      let roundFactor := Qmin (inject_Z roundNumber / 10) 1 in
      let baseHoldTime :=
        match profile bot with
        | erratic =>
            if Qlt_bool (random 1%nat) (3 # 10)
            then randomInRange (random 2%nat)
                   (minHoldTime behavior * 2) (maxHoldTime behavior * 2)
            else randomInRange (random 2%nat)
                   (minHoldTime behavior / 2) (maxHoldTime behavior / 2)
        | aggressive =>
            if (10 <? roundNumber) && Qlt_bool (random 1%nat) (4 # 10)
            then (baseHoldTime * (15 # 10))%Q
            else baseHoldTime
        | conservative =>
            match winningHoldTimeLastRound with
            | Some w =>
                if negb (Qeq_bool w 0) && Qlt_bool (random 1%nat) (adaptability behavior)
                then (w * (1 + random 2%nat * (2 # 10)))%Q
                else baseHoldTime
            | None => baseHoldTime
            end
        end in
      Qmax (minHoldTime behavior) (Qmin (maxHoldTime behavior) baseHoldTime)
  end.


(** ** The rest of MemStorage: user ids, game ids and the audit tables

    [Store] adds to [MemStorage] the counters and the two tables that the
    WebSocket handlers never read.  [endedAt] of a round is kept as the flag
    [ended] (set or not); the other timestamps are left out, and so are the
    [password] and [email] of a user and the [code], [botCount] and
    [botProfiles] of a game, which no function modelled here reads. *)

Record GameRound := mkRound {
  round_id : Z;
  round_gameId : Z;
  roundNumber : Z;
  winnerId : option Z;
  ended : bool
}.

Record RoundBid := mkBid {
  bid_id : Z;
  roundId : Z;
  bid_userId : Z;
  bidTime : Q
}.

Record Store := mkStore {
  mem : MemStorage;
  gameRounds : list (Z * GameRound);
  roundBids : list (Z * RoundBid);
  userIdCounter : Z;
  gameIdCounter : Z;
  roundIdCounter : Z;
  bidIdCounter : Z
}.

Definition set_mem (s : Store) (m : MemStorage) : Store :=
  mkStore m (gameRounds s) (roundBids s) (userIdCounter s) (gameIdCounter s)
    (roundIdCounter s) (bidIdCounter s).

(** [new MemStorage()] *)
Definition emptyStore : Store :=
  mkStore (mkStorage [] [] [] 1) [] [] 1 1 1 1.

(** [createUser]: [const id = this.userIdCounter++; this.users.set(id, user)] *)
Definition createUser (s : Store) (name shown : string) : Store * User :=
  let id := userIdCounter s in
  let user := mkUser id name shown in
  (mkStore
     (mkStorage (JsMap.set Z.eqb (users (mem s)) id user) (games (mem s))
        (gameParticipants (mem s)) (participantIdCounter (mem s)))
     (gameRounds s) (roundBids s) (id + 1) (gameIdCounter s)
     (roundIdCounter s) (bidIdCounter s),
   user).

(** The fields of [InsertGame] that [createGame] reads; a field that may be
    missing is an [option]. *)
Record InsertGame := mkInsertGame {
  ig_createdById : Z;
  ig_currentRound : option Z;
  ig_totalRounds : option Z;
  ig_startingTimeBank : option Q;
  ig_isPublic : option bool;
  ig_hasBots : option bool
}.

(** [x || d] on an optional number: a missing value and 0 both give [d]. *)
Definition orZ (x : option Z) (d : Z) : Z :=
  match x with
  | Some v => if v =? 0 then d else v
  | None => d
  end.

Definition orQ (x : option Q) (d : Q) : Q :=
  match x with
  | Some v => if Qeq_bool v 0 then d else v
  | None => d
  end.

(** [createGame]: the status is always "waiting", whatever was passed. *)
Definition createGame (s : Store) (insertGame : InsertGame) : Store * Game :=
  let id := gameIdCounter s in
  let game :=
    mkGame id (ig_createdById insertGame) waiting
      (orZ (ig_currentRound insertGame) 0)
      (orZ (ig_totalRounds insertGame) 10)
      (orQ (ig_startingTimeBank insertGame) 600)
      (match ig_isPublic insertGame with Some b => b | None => true end)
      (match ig_hasBots insertGame with Some b => b | None => false end)
      0 None in
  (mkStore (set_games (mem s) (JsMap.set Z.eqb (games (mem s)) id game))
     (gameRounds s) (roundBids s) (userIdCounter s) (id + 1)
     (roundIdCounter s) (bidIdCounter s),
   game).

Definition createRound (s : Store) (gid number : Z) (winner : option Z)
    : Store * GameRound :=
  let id := roundIdCounter s in
  let round := mkRound id gid number winner false in
  (mkStore (mem s) (JsMap.set Z.eqb (gameRounds s) id round) (roundBids s)
     (userIdCounter s) (gameIdCounter s) (id + 1) (bidIdCounter s),
   round).

Definition getRound (s : Store) (id : Z) : option GameRound :=
  JsMap.get Z.eqb (gameRounds s) id.

(** [Array.prototype.sort] with the comparator
    [(a, b) => a.roundNumber - b.roundNumber]; the sort is stable. *)
Fixpoint insertRound (r : GameRound) (l : list GameRound) : list GameRound :=
  match l with
  | [] => [r]
  | x :: rest =>
      if roundNumber r <=? roundNumber x then r :: l else x :: insertRound r rest
  end.

Definition sortRounds (l : list GameRound) : list GameRound :=
  fold_right insertRound [] l.

Definition getGameRounds (s : Store) (gid : Z) : list GameRound :=
  sortRounds (filter (fun round => round_gameId round =? gid)
                     (JsMap.values (gameRounds s))).

Definition completeRound (s : Store) (id winner : Z) : Store :=
  match JsMap.get Z.eqb (gameRounds s) id with
  | Some round =>
      mkStore (mem s)
        (JsMap.set Z.eqb (gameRounds s) id
           (mkRound (round_id round) (round_gameId round) (roundNumber round)
              (Some winner) true))
        (roundBids s) (userIdCounter s) (gameIdCounter s)
        (roundIdCounter s) (bidIdCounter s)
  | None => s
  end.

Definition createBid (s : Store) (round user : Z) (time : Q) : Store * RoundBid :=
  let id := bidIdCounter s in
  let bid := mkBid id round user time in
  (mkStore (mem s) (gameRounds s) (JsMap.set Z.eqb (roundBids s) id bid)
     (userIdCounter s) (gameIdCounter s) (roundIdCounter s) (id + 1),
   bid).

Definition getBidsByRound (s : Store) (round : Z) : list RoundBid :=
  filter (fun bid => roundId bid =? round) (JsMap.values (roundBids s)).

Section Usernames.
(** [String.prototype.toLowerCase]; the functions below only compare its
    results, so it is left as a variable. *)
Variable toLowerCase : string -> string.

Definition getUserByUsername (s : Store) (name : string) : option User :=
  find (fun user => String.eqb (toLowerCase (username user)) (toLowerCase name))
       (JsMap.values (users (mem s))).

(** The handler of [POST /api/login]; [None] is the 400 answer to a missing
    or empty username. *)
Definition login (s : Store) (name : string) : Store * option User :=
  if String.eqb name EmptyString then (s, None)
  else
    match getUserByUsername s name with
    | None => let (s', newUser) := createUser s name name in (s', Some newUser)
    | Some user => (s, Some user)
    end.

(** [addBotsToGame(gameId, hostId, botCount, profiles)].  The participant
    object it inserts has no [isBot] property. *)
Definition addBotsToGame (random : nat -> Q) (s : Store) (gid hostId botCount : Z)
    (profiles : option (list BotProfile)) : Store :=
  match getGame (mem s) gid with
  | None => s
  | Some game =>
      fold_left
        (fun acc bot =>
           let (acc1, botUser) :=
             match getUserByUsername acc (b_username bot) with
             | Some user => (acc, user)
             | None => createUser acc (b_username bot) (b_displayName bot)
             end in
           set_mem acc1
             (fst (addParticipant (mem acc1) gid (u_id botUser) false true
                     (startingTimeBank game) false)))
        (getRandomBots random botCount profiles) s
  end.
End Usernames.

(** [bots.find(b => b.id === userId) !== undefined] *)
Definition isBotUser (uid : Z) : bool :=
  isSome (find (fun b => b_id b =? uid) bots).

(** The winning bid time of the previous round, as [processBotActions]
    looks it up. *)
Definition previousRoundWinningTime (s : Store) (game : Game) (gid : Z) : option Q :=
  if 1 <? currentRound game then
    match find (fun r => roundNumber r =? currentRound game - 1) (getGameRounds s gid) with
    | Some previousRound =>
        match winnerId previousRound with
        | Some w =>
            if w =? 0 then None
            else
              match find (fun b => bid_userId b =? w)
                         (getBidsByRound s (round_id previousRound)) with
              | Some winningBid => Some (bidTime winningBid)
              | None => None
              end
        | None => None
        end
    | None => None
    end
  else None.

(** One turn of the loop over [botParticipants]; [k] counts the calls of
    [determineBotHoldTime], and [randoms k] is the random source of the
    [k]-th call. *)
Definition botTurn (randoms : nat -> nat -> Q) (game : Game) (gid round : Z)
    (previous : option Q) (acc : Store * nat) (botParticipant : GameParticipant)
    : Store * nat :=
  let (s, k) := acc in
  if isEliminated botParticipant then (s, k)
  else
    match find (fun b => b_id b =? userId botParticipant) bots with
    | None => (s, k)
    | Some bot =>
        let holdTime :=
          determineBotHoldTime (randoms k) (userId botParticipant) gid
            (currentRound game) previous in
        let s1 := fst (createBid s round (userId botParticipant) holdTime) in
        let holdTimeSeconds := (holdTime / 1000)%Q in
        let s2 :=
          match timeBank botParticipant with
          | Some tb =>
              set_mem s1
                (updateParticipantTimeBank (mem s1) gid (userId botParticipant)
                   (Qmax 0 (tb - holdTimeSeconds)))
          | None => s1
          end in
        (s2, S k)
    end.

(** [processBotActions(gameId, roundId)] *)
Definition processBotActions (randoms : nat -> nat -> Q) (s : Store) (gid round : Z)
    : Store :=
  match getGame (mem s) gid with
  | None => s
  | Some game =>
      if negb (status_eqb (status game) in_progress) then s
      else
        let participants := getParticipantsByGame (mem s) gid in
        if (length participants =? 0)%nat then s
        else
          let botParticipants :=
            filter (fun p => isBotUser (userId p)) participants in
          if (length botParticipants =? 0)%nat then s
          else
            let previous := previousRoundWinningTime s game gid in
            fst (fold_left (botTurn randoms game gid round previous)
                           botParticipants (s, 0%nat))
  end.


(** The user table is keyed by user id, and every id is below the counter. *)
Definition users_wf (s : Store) : Prop :=
  NoDup (JsMap.keys (users (mem s))) /\
  forall k user, In (k, user) (users (mem s)) ->
                 k = u_id user /\ u_id user < userIdCounter s.

(** No two users have usernames that agree up to case. *)
Definition uniqueNames (toLowerCase : string -> string) (s : Store) : Prop :=
  NoDup (map (fun user => toLowerCase (username user))
             (JsMap.values (users (mem s)))).

(** User ids are positive, as they are when they come from [createUser] on
    a store that started from [emptyStore]. *)
Definition positiveUserIds (s : Store) : Prop :=
  0 < userIdCounter s /\
  forall k user, In (k, user) (users (mem s)) -> 0 < u_id user.

(** [b] is [a] up to the time bank, and the time bank of [b] is that of [a]
    or a number that is not negative. *)
Definition onlyTimeBankMoves (a b : GameParticipant) : Prop :=
  p_id b = p_id a /\ gameId b = gameId a /\ userId b = userId a /\
  isHost b = isHost a /\ isReady b = isReady a /\
  tokensWon b = tokensWon a /\ isEliminated b = isEliminated a /\
  isBot b = isBot a /\ hasBidThisRound b = hasBidThisRound a /\
  lastHoldTime b = lastHoldTime a /\
  (timeBank b = timeBank a \/ exists v, timeBank b = Some v /\ (0 <= v)%Q).


(** [r] is the ranking entry of participant [p]: the participant's user id,
    tokens won and remaining time bank (0 when the time bank is null), under
    the names of the user record, or empty names when there is none. *)
Definition ranksParticipant (s : MemStorage) (r : Ranking) (p : GameParticipant) : Prop :=
  r_userId r = userId p /\ tokens r = tokensWon p /\
  timeRemaining r = match timeBank p with Some t => t | None => 0%Q end /\
  match getUser s (userId p) with
  | Some user => r_username r = username user /\ r_displayName r = displayName user
  | None => r_username r = EmptyString /\ r_displayName r = EmptyString
  end.

(** What every code path that inserts a participant row guarantees: the row
    does not carry the bot flag, and a row is eliminated only in a game that
    is completed ([endGame] completes the game before it eliminates). *)
Definition producible (s : MemStorage) : Prop :=
  forall g u p,
    getParticipant s g u = Some p ->
    isBot p = false /\
    (isEliminated p = true ->
     exists game, getGame s g = Some game /\ status game = completed).




(** * Properties *)

(** ** Facts about insertion-ordered maps *)

Module JsMapFacts.
Section Facts.
Context {K V : Type}.
Variable eqb : K -> K -> bool.
Hypothesis eqb_eq : forall a b, eqb a b = true <-> a = b.

Lemma eqb_refl : forall a, eqb a a = true.
Proof. intro a. apply eqb_eq. reflexivity. Qed.

Lemma eqb_neq : forall a b, a <> b -> eqb a b = false.
Proof.
  intros a b H. destruct (eqb a b) eqn:E; [|reflexivity].
  apply eqb_eq in E. contradiction.
Qed.

Lemma get_set_same (m : list (K * V)) k v :
  JsMap.get eqb (JsMap.set eqb m k v) k = Some v.
Proof.
  induction m as [|[k' v'] m IH]; simpl.
  - rewrite eqb_refl. reflexivity.
  - destruct (eqb k' k) eqn:E; simpl; rewrite E; auto.
Qed.

Lemma get_set_other (m : list (K * V)) k v k' :
  k <> k' -> JsMap.get eqb (JsMap.set eqb m k v) k' = JsMap.get eqb m k'.
Proof.
  intros Hne. induction m as [|[k0 v0] m IH]; simpl.
  - rewrite eqb_neq by assumption. reflexivity.
  - destruct (eqb k0 k) eqn:E; simpl.
    + apply eqb_eq in E. subst k0. rewrite eqb_neq by assumption. reflexivity.
    + destruct (eqb k0 k'); auto.
Qed.

Lemma get_In (m : list (K * V)) k v :
  JsMap.get eqb m k = Some v -> In (k, v) m.
Proof.
  induction m as [|[k0 v0] m IH]; simpl; [discriminate|].
  destruct (eqb k0 k) eqn:E.
  - intros H. injection H as <-. apply eqb_eq in E. subst. now left.
  - intros H. right. auto.
Qed.

Lemma get_None_notin (m : list (K * V)) k :
  JsMap.get eqb m k = None -> ~ In k (JsMap.keys m).
Proof.
  induction m as [|[k0 v0] m IH]; simpl; [tauto|].
  destruct (eqb k0 k) eqn:E; [discriminate|].
  intros H [Hk|Hk].
  - subst. rewrite eqb_refl in E. discriminate.
  - exact (IH H Hk).
Qed.

Lemma In_get (m : list (K * V)) k v :
  NoDup (JsMap.keys m) -> In (k, v) m -> JsMap.get eqb m k = Some v.
Proof.
  induction m as [|[k0 v0] m IH]; simpl; [tauto|].
  intros Hnd [Hin|Hin].
  - injection Hin as -> ->. rewrite eqb_refl. reflexivity.
  - inversion Hnd as [|? ? Hnotin Hnd']; subst.
    destruct (eqb k0 k) eqn:E.
    + apply eqb_eq in E. subst k0. exfalso. apply Hnotin.
      change k with (fst (k, v)). apply in_map. assumption.
    + auto.
Qed.

Lemma keys_set_present (m : list (K * V)) k v v0 :
  JsMap.get eqb m k = Some v0 -> JsMap.keys (JsMap.set eqb m k v) = JsMap.keys m.
Proof.
  induction m as [|[k0 v1] m IH]; simpl; [discriminate|].
  destruct (eqb k0 k) eqn:E; simpl; [reflexivity|].
  intros H. f_equal. auto.
Qed.

Lemma keys_set_absent (m : list (K * V)) k v :
  JsMap.get eqb m k = None ->
  JsMap.keys (JsMap.set eqb m k v) = JsMap.keys m ++ [k].
Proof.
  induction m as [|[k0 v1] m IH]; simpl; [reflexivity|].
  destruct (eqb k0 k) eqn:E; simpl; [discriminate|].
  intros H. f_equal. auto.
Qed.

Lemma In_set (m : list (K * V)) k v k' v' :
  In (k', v') (JsMap.set eqb m k v) -> (k' = k /\ v' = v) \/ In (k', v') m.
Proof.
  induction m as [|[k0 v0] m IH]; simpl.
  - intros [H|[]]. injection H as <- <-. auto.
  - destruct (eqb k0 k) eqn:E; simpl.
    + intros [H|H]; [|auto]. injection H as <- <-.
      apply eqb_eq in E. auto.
    + intros [H|H]; [auto|]. destruct (IH H); auto.
Qed.

Lemma NoDup_keys_set (m : list (K * V)) k v :
  NoDup (JsMap.keys m) -> NoDup (JsMap.keys (JsMap.set eqb m k v)).
Proof.
  intros Hnd. destruct (JsMap.get eqb m k) eqn:E.
  - erewrite keys_set_present by eassumption. assumption.
  - rewrite keys_set_absent by assumption.
    apply NoDup_app; [assumption | repeat constructor; simpl; tauto |].
    intros x Hx [Hk|[]]. subst x. exact (get_None_notin _ _ E Hx).
Qed.
End Facts.
End JsMapFacts.

Lemma key_eqb_eq (a b : Key) : key_eqb a b = true <-> a = b.
Proof.
  destruct a as [a1 a2], b as [b1 b2]. unfold key_eqb. simpl.
  rewrite andb_true_iff, !Z.eqb_eq. split.
  - intros [-> ->]. reflexivity.
  - intros H. injection H as -> ->. auto.
Qed.

Lemma status_eqb_eq (a b : GameStatus) : status_eqb a b = true <-> a = b.
Proof. destruct a, b; simpl; split; intro H; try reflexivity; discriminate. Qed.

(** ** Reads after writes on the store *)

Lemma getGame_updateGame s id f id' :
  getGame (updateGame s id f) id' =
  if id =? id' then option_map f (getGame s id') else getGame s id'.
Proof.
  unfold updateGame. destruct (getGame s id) eqn:E.
  - unfold getGame, set_games in *. simpl. destruct (Z.eqb_spec id id') as [->|Hne].
    + rewrite JsMapFacts.get_set_same by apply Z.eqb_eq. rewrite E. reflexivity.
    + apply JsMapFacts.get_set_other; [apply Z.eqb_eq | assumption].
  - destruct (Z.eqb_spec id id') as [->|Hne]; [rewrite E|]; reflexivity.
Qed.

Lemma getGame_updateParticipant s g u f id :
  getGame (updateParticipant s g u f) id = getGame s id.
Proof. unfold updateParticipant. destruct (getParticipant s g u); reflexivity. Qed.

Lemma getUser_updateParticipant s g u f id :
  getUser (updateParticipant s g u f) id = getUser s id.
Proof. unfold updateParticipant. destruct (getParticipant s g u); reflexivity. Qed.

Lemma getUser_updateGame s g f id :
  getUser (updateGame s g f) id = getUser s id.
Proof. unfold updateGame. destruct (getGame s g); reflexivity. Qed.

Lemma gameParticipants_updateGame s id f :
  gameParticipants (updateGame s id f) = gameParticipants s.
Proof. unfold updateGame. destruct (getGame s id); reflexivity. Qed.

Lemma getParticipant_updateGame s id f g u :
  getParticipant (updateGame s id f) g u = getParticipant s g u.
Proof. unfold getParticipant. rewrite gameParticipants_updateGame. reflexivity. Qed.

Lemma getParticipantsByGame_updateGame s id f g :
  getParticipantsByGame (updateGame s id f) g = getParticipantsByGame s g.
Proof. unfold getParticipantsByGame. rewrite gameParticipants_updateGame. reflexivity. Qed.

Lemma getParticipant_updateParticipant s g u f g' u' :
  getParticipant (updateParticipant s g u f) g' u' =
  if key_eqb (g, u) (g', u') then option_map f (getParticipant s g' u')
  else getParticipant s g' u'.
Proof.
  unfold updateParticipant. destruct (getParticipant s g u) eqn:E.
  - unfold getParticipant, set_gameParticipants, participantKey in *. simpl.
    destruct (key_eqb (g, u) (g', u')) eqn:K.
    + apply key_eqb_eq in K. injection K as <- <-.
      rewrite JsMapFacts.get_set_same by apply key_eqb_eq. rewrite E. reflexivity.
    + apply JsMapFacts.get_set_other; [apply key_eqb_eq|].
      intros H. rewrite <- key_eqb_eq in H. congruence.
  - destruct (key_eqb (g, u) (g', u')) eqn:K; [|reflexivity].
    apply key_eqb_eq in K. injection K as <- <-. rewrite E. reflexivity.
Qed.

Lemma updateGame_wf s id f : wf_storage s -> wf_storage (updateGame s id f).
Proof. unfold wf_storage. rewrite gameParticipants_updateGame. tauto. Qed.

Lemma updateParticipant_wf s g u f :
  sameIdentity f -> wf_storage s -> wf_storage (updateParticipant s g u f).
Proof.
  intros Hf [Hnd Hkey]. unfold updateParticipant.
  destruct (getParticipant s g u) as [p0|] eqn:E; [|split; assumption].
  unfold getParticipant in E. split; simpl.
  - apply JsMapFacts.NoDup_keys_set; [apply key_eqb_eq | assumption].
  - intros k p Hin. apply (JsMapFacts.In_set _ key_eqb_eq) in Hin.
    destruct Hin as [[-> ->]|Hin]; [|auto].
    apply JsMapFacts.get_In in E; [|apply key_eqb_eq].
    apply Hkey in E. destruct (Hf p0) as [-> ->]. exact E.
Qed.

Lemma addParticipant_wf s g u h r t b :
  wf_storage s -> wf_storage (fst (addParticipant s g u h r t b)).
Proof.
  intros [Hnd Hkey]. split; simpl.
  - apply JsMapFacts.NoDup_keys_set; [apply key_eqb_eq | assumption].
  - intros k p Hin. apply (JsMapFacts.In_set _ key_eqb_eq) in Hin.
    destruct Hin as [[-> ->]|Hin]; [reflexivity|auto].
Qed.

(** In a well-formed table the rows of a game are exactly the rows found
    under the keys of that game. *)
Lemma getParticipant_in_game s g u p :
  wf_storage s -> getParticipant s g u = Some p ->
  In p (getParticipantsByGame s g) /\ gameId p = g /\ userId p = u.
Proof.
  intros [_ Hkey] E. unfold getParticipant in E.
  apply JsMapFacts.get_In in E; [|apply key_eqb_eq].
  pose proof (Hkey _ _ E) as K. unfold participantKey in K.
  injection K as Hg Hu. repeat split; auto.
  unfold getParticipantsByGame. apply filter_In. split.
  - unfold JsMap.values. change p with (snd (participantKey g u, p)).
    apply in_map. assumption.
  - apply Z.eqb_eq. auto.
Qed.

Lemma in_game_getParticipant s g p :
  wf_storage s -> In p (getParticipantsByGame s g) ->
  getParticipant s g (userId p) = Some p /\ gameId p = g.
Proof.
  intros [Hnd Hkey] Hin. unfold getParticipantsByGame in Hin.
  apply filter_In in Hin. destruct Hin as [Hin Hg]. apply Z.eqb_eq in Hg.
  unfold JsMap.values in Hin. apply in_map_iff in Hin.
  destruct Hin as [[k p'] [Hp Hin]]. simpl in Hp. subst p'.
  pose proof (Hkey _ _ Hin) as K. subst k. split; [|assumption].
  unfold getParticipant. rewrite <- Hg.
  apply JsMapFacts.In_get; [apply key_eqb_eq | assumption | assumption].
Qed.

(** ** How the handlers move the store *)

Section Evolution.
Variable R : GameParticipant -> GameParticipant -> Prop.
Variable G : Game -> Game -> Prop.
Variable okHold : Q -> Prop.

Hypothesis R_refl : forall p, R p p.
Hypothesis R_trans : forall a b c, R a b -> R b c -> R a c.
Hypothesis G_refl : forall g, G g g.
Hypothesis G_trans : forall a b c, G a b -> G b c -> G a c.

Hypothesis R_ready : forall p v, R p (with_isReady p v).
Hypothesis R_host : forall p v, R p (with_isHost p v).
Hypothesis R_tokens : forall p v, R p (with_tokensWon p v).
Hypothesis R_elim : forall p, R p (with_isEliminated p true).
Hypothesis R_bid : forall p b h, R p (with_bidDetails p b h).
Hypothesis R_time : forall p tb h,
  timeBank p = Some tb -> okHold h ->
  R p (with_timeBank p (Qmax 0 (tb - h / 1000))).
Hypothesis G_status : forall g v, G g (with_status g v).
Hypothesis G_creator : forall g v, G g (with_createdById g v).
Hypothesis G_round : forall g w m,
  G g (with_roundResults g w m (currentRound g + 1)).

Lemma evolves_refl s : evolves R G s s.
Proof. split; [|split]; eauto. Qed.

Lemma evolves_trans s1 s2 s3 :
  evolves R G s1 s2 -> evolves R G s2 s3 -> evolves R G s1 s3.
Proof.
  intros (P1 & G1 & W1) (P2 & G2 & W2). split; [|split].
  - intros g u p Hp. destruct (P1 _ _ _ Hp) as (p' & Hp' & HR).
    destruct (P2 _ _ _ Hp') as (p'' & Hp'' & HR'). eauto.
  - intros g game Hg. destruct (G1 _ _ Hg) as (g' & Hg' & HG).
    destruct (G2 _ _ Hg') as (g'' & Hg'' & HG'). eauto.
  - auto.
Qed.

Lemma updateParticipant_evolves s g u f :
  sameIdentity f ->
  (forall p, getParticipant s g u = Some p -> R p (f p)) ->
  evolves R G s (updateParticipant s g u f).
Proof.
  intros Hid Hf. split; [|split].
  - intros g' u' p Hp. rewrite getParticipant_updateParticipant.
    destruct (key_eqb (g, u) (g', u')) eqn:K.
    + apply key_eqb_eq in K. injection K as <- <-. rewrite Hp. simpl. eauto.
    + eauto.
  - intros id game Hg. rewrite getGame_updateParticipant. eauto.
  - apply updateParticipant_wf. assumption.
Qed.

Lemma updateGame_evolves s id f :
  (forall game, getGame s id = Some game -> G game (f game)) ->
  evolves R G s (updateGame s id f).
Proof.
  intros Hf. split; [|split].
  - intros g u p Hp. rewrite getParticipant_updateGame. eauto.
  - intros id' game Hg. rewrite getGame_updateGame.
    destruct (Z.eqb_spec id id') as [->|Hne]; [rewrite Hg; simpl|]; eauto.
  - apply updateGame_wf.
Qed.

Lemma addParticipant_evolves s g u h r t b :
  getParticipant s g u = None ->
  evolves R G s (fst (addParticipant s g u h r t b)).
Proof.
  intros Hnone. split; [|split].
  - intros g' u' p Hp. exists p. split; [|apply R_refl].
    unfold getParticipant, participantKey in *. simpl.
    rewrite JsMapFacts.get_set_other; [assumption | apply key_eqb_eq |].
    intros K. injection K as <- <-. congruence.
  - intros id game Hg. exists game. split; [exact Hg | apply G_refl].
  - apply addParticipant_wf.
Qed.

Lemma fold_left_evolves {A : Type} (f : MemStorage -> A -> MemStorage) l :
  (forall s a, evolves R G s (f s a)) ->
  forall s, evolves R G s (fold_left f l s).
Proof.
  intros Hf. induction l as [|a l IH]; intros s; simpl.
  - apply evolves_refl.
  - eapply evolves_trans; [apply Hf | apply IH].
Qed.

Lemma sameIdentity_ready v : sameIdentity (fun p => with_isReady p v).
Proof. intro p. split; reflexivity. Qed.
Lemma sameIdentity_host v : sameIdentity (fun p => with_isHost p v).
Proof. intro p. split; reflexivity. Qed.
Lemma sameIdentity_time v : sameIdentity (fun p => with_timeBank p v).
Proof. intro p. split; reflexivity. Qed.
Lemma sameIdentity_tokens v : sameIdentity (fun p => with_tokensWon p v).
Proof. intro p. split; reflexivity. Qed.
Lemma sameIdentity_elim v : sameIdentity (fun p => with_isEliminated p v).
Proof. intro p. split; reflexivity. Qed.
Lemma sameIdentity_bid b h : sameIdentity (fun p => with_bidDetails p b h).
Proof. intro p. split; reflexivity. Qed.

Lemma joinStore_evolves s game g u s' :
  joinStore s game g u = Some s' -> evolves R G s s'.
Proof.
  unfold joinStore. destruct (getParticipant s g u) as [p|] eqn:Ep.
  - destruct (createdById game =? u); simpl.
    + destruct (isHost p); simpl.
      * intros H. injection H as <-. apply evolves_refl.
      * destruct (find isHost (getParticipantsByGame s g)).
        { intros H. injection H as <-. apply evolves_refl. }
        assert (E2 : evolves R G s
                  (updateGameHost (updateParticipantHostStatus s g u true) g u)).
        { eapply evolves_trans.
          - apply updateParticipant_evolves; [apply sameIdentity_host | intros; cbv beta; auto].
          - apply updateGame_evolves; intros; cbv beta; auto. }
        destruct (getParticipant (updateGameHost _ g u) g u) as [p'|];
          [destruct (negb (isReady p'))|]; intros H; injection H as <-;
          try exact E2.
        eapply evolves_trans; [exact E2|].
        apply updateParticipant_evolves; [apply sameIdentity_ready | intros; cbv beta; auto].
    + intros H. injection H as <-. apply evolves_refl.
  - destruct (getUser s u); [|discriminate].
    set (sh := (createdById game =? u)
               && negb (isSome (find isHost (getParticipantsByGame s g)))).
    pose proof (addParticipant_evolves s g u sh sh (startingTimeBank game) false Ep)
      as Ea.
    destruct (addParticipant s g u sh sh (startingTimeBank game) false)
      as [s1 p1]. simpl in Ea.
    destruct sh; intros H; injection H as <-; [|exact Ea].
    eapply evolves_trans; [exact Ea|]. apply updateGame_evolves; intros; cbv beta; auto.
Qed.

Lemma handleJoinGame_evolves st g u ws :
  evolves R G (storage st) (storage (fst (handleJoinGame st g u ws))).
Proof.
  unfold handleJoinGame. destruct (getGame (storage st) g) as [game|];
    [|apply evolves_refl].
  destruct (negb (status_eqb (status game) waiting)
            && negb (isSome (getParticipant (storage st) g u)));
    [apply evolves_refl|].
  destruct (joinStore (storage st) game g u) as [s'|] eqn:J;
    [|apply evolves_refl].
  simpl. eapply joinStore_evolves. eassumption.
Qed.

Lemma handlePlayerReady_evolves st g u r :
  evolves R G (storage st) (storage (fst (handlePlayerReady st g u r))).
Proof.
  assert (E : evolves R G (storage st)
                (updateParticipantReadyStatus (storage st) g u r)).
  { apply updateParticipant_evolves; [apply sameIdentity_ready | intros; cbv beta; auto]. }
  unfold handlePlayerReady.
  destruct (getGame _ g) as [game|]; [|exact E].
  destruct (status_eqb (status game) waiting && _); [|exact E].
  destruct (forallb _ _); exact E.
Qed.

Lemma startGame_evolves st g :
  evolves R G (storage st) (storage (fst (startGame st g))).
Proof.
  unfold startGame. destruct (getGame (storage st) g) as [game|];
    [|apply evolves_refl].
  destruct (negb (status_eqb (status game) waiting)); [apply evolves_refl|].
  simpl. apply updateGame_evolves; intros; cbv beta; auto.
Qed.

Lemma endGame_evolves st g :
  evolves R G (storage st) (storage (fst (endGame st g))).
Proof.
  unfold endGame. destruct (getGame (storage st) g) as [game|];
    [|apply evolves_refl].
  simpl. eapply evolves_trans with (s2 := updateGameStatus (storage st) g completed);
    [apply updateGame_evolves; intros; cbv beta; auto|].
  apply fold_left_evolves. intros s p.
  destruct (isLowest _ p); [|apply evolves_refl].
  apply updateParticipant_evolves; [apply sameIdentity_elim | intros; cbv beta; auto].
Qed.

Lemma resolveRound_evolves s game g ps w :
  getGame s g = Some game -> evolves R G s (resolveRound s game g ps w).
Proof.
  intros Hg. unfold resolveRound.
  set (s1 := match w with
             | Some w0 => updateParticipantTokens s g (p_id w0) (tokensWon w0 + 1)
             | None => s
             end).
  assert (E1 : evolves R G s s1).
  { subst s1. destruct w; [|apply evolves_refl].
    apply updateParticipant_evolves; [apply sameIdentity_tokens | intros; cbv beta; auto]. }
  assert (Hg1 : getGame s1 g = Some game).
  { subst s1. destruct w; [|assumption].
    unfold updateParticipantTokens. rewrite getGame_updateParticipant. assumption. }
  eapply evolves_trans; [exact E1|].
  eapply evolves_trans with (s2 := updateGameRoundResults s1 g _ _ _).
  - unfold updateGameRoundResults. apply updateGame_evolves. intros game0 H0.
    rewrite Hg1 in H0. injection H0 as <-. apply G_round.
  - apply fold_left_evolves. intros s0 p.
    apply updateParticipant_evolves; [apply sameIdentity_bid | intros; cbv beta; auto].
Qed.

Lemma endCurrentRound_evolves st g :
  evolves R G (storage st) (storage (fst (endCurrentRound st g))).
Proof.
  unfold endCurrentRound. destruct (getGame (storage st) g) as [game|] eqn:Hg;
    [|apply evolves_refl].
  destruct (negb (status_eqb (status game) in_progress)); [apply evolves_refl|].
  cbv zeta.
  set (s3 := resolveRound (storage st) game g _ _).
  assert (E : evolves R G (storage st) s3) by (apply resolveRound_evolves; exact Hg).
  cbn [storage].
  destruct (getGame s3 g) as [game'|]; [|exact E].
  destruct (totalRounds game' <=? currentRound game' - 1); [|exact E].
  pose proof (endGame_evolves (mkState s3 (gameClients st)) g) as E'.
  destruct (endGame _ g) as [st4 outs]. simpl in *.
  eapply evolves_trans; eassumption.
Qed.

Lemma recordBid_evolves s g u p h :
  getParticipant s g u = Some p -> okHold h ->
  evolves R G s (recordBid s g u p h).
Proof.
  intros Hp Hh. unfold recordBid.
  eapply evolves_trans with
    (s2 := match timeBank p with
           | Some tb => updateParticipantTimeBank s g u (Qmax 0 (tb - h / 1000))
           | None => s
           end).
  - destruct (timeBank p) as [tb|] eqn:T; [|apply evolves_refl].
    apply updateParticipant_evolves; [apply sameIdentity_time|].
    intros p0 H0. rewrite Hp in H0. injection H0 as <-. auto.
  - apply updateParticipant_evolves; [apply sameIdentity_bid | intros; cbv beta; auto].
Qed.

Lemma handleBuzzerRelease_evolves st g u h :
  okHold h ->
  evolves R G (storage st) (storage (fst (handleBuzzerRelease st g u h))).
Proof.
  intros Hh. unfold handleBuzzerRelease.
  destruct (getGame (storage st) g) as [game|]; [|apply evolves_refl].
  destruct (negb (status_eqb (status game) in_progress)); [apply evolves_refl|].
  destruct (getParticipant (storage st) g u) as [p|] eqn:Hp; [|apply evolves_refl].
  destruct (isEliminated p); [apply evolves_refl|].
  destruct (hasBidThisRound p); [apply evolves_refl|].
  pose proof (recordBid_evolves _ _ _ _ _ Hp Hh) as E. simpl.
  destruct (allActivePlayersHaveBid _ g); [|exact E].
  pose proof (endCurrentRound_evolves
                (mkState (recordBid (storage st) g u p h) (gameClients st)) g)
    as E'.
  destruct (endCurrentRound _ g) as [st2 outs]. simpl in *.
  eapply evolves_trans; eassumption.
Qed.

Lemma handleEmptyGame_evolves st g :
  evolves R G (storage st) (storage (handleEmptyGame st g)).
Proof.
  unfold handleEmptyGame. destruct (getGame (storage st) g) as [game|];
    [|apply evolves_refl].
  destruct (_ || _); [|apply evolves_refl].
  simpl. apply updateGame_evolves; intros; cbv beta; auto.
Qed.

Lemma cleanupGame_evolves st game :
  evolves R G (storage st) (storage (cleanupGame st game)).
Proof.
  unfold cleanupGame. destruct (_ || _); [|apply evolves_refl].
  simpl. apply updateGame_evolves; intros; cbv beta; auto.
Qed.

Lemma cleanupGames_evolves st :
  evolves R G (storage st) (storage (cleanupGames st)).
Proof.
  unfold cleanupGames. generalize (getPublicGames (storage st)) as l.
  intros l. revert st. induction l as [|game l IH]; intros st; simpl.
  - apply evolves_refl.
  - eapply evolves_trans; [apply cleanupGame_evolves | apply IH].
Qed.

Lemma onClose_evolves st ws u g :
  evolves R G (storage st) (storage (fst (onClose st ws u g))).
Proof.
  unfold onClose. destruct (_ && _); [|apply evolves_refl].
  destruct (JsMap.get Z.eqb (gameClients st) g) as [room|]; [|apply evolves_refl].
  destruct (JsMap.get Z.eqb room u) as [socket|]; [|apply evolves_refl].
  destruct (_ =? _)%nat; apply evolves_refl.
Qed.

Lemma step_evolves st i :
  holdsOk okHold i -> evolves R G (storage st) (storage (fst (step st i))).
Proof.
  destruct i as [ws u data| ws u g | g | g |]; simpl; intros Hok.
  - unfold onMessage. destruct (u =? 0); [apply evolves_refl|].
    destruct (d_type data), (d_holdTime data) as [h|];
      destruct (negb (d_gameId data =? 0));
      try apply evolves_refl;
      try apply handleJoinGame_evolves;
      try apply handlePlayerReady_evolves.
    apply handleBuzzerRelease_evolves. exact Hok.
  - apply onClose_evolves.
  - apply startGame_evolves.
  - apply handleEmptyGame_evolves.
  - apply cleanupGames_evolves.
Qed.

Lemma run_evolves inputs : forall st,
  Forall (holdsOk okHold) inputs ->
  evolves R G (storage st) (storage (fst (run st inputs))).
Proof.
  induction inputs as [|i rest IH]; intros st Hok; simpl.
  - apply evolves_refl.
  - inversion Hok as [|? ? Hi Hrest]; subst.
    pose proof (step_evolves st i Hi) as E1.
    destruct (step st i) as [st1 outs1]. simpl in E1.
    pose proof (IH st1 Hrest) as E2.
    destruct (run st1 rest) as [st2 outs2]. simpl in *.
    eapply evolves_trans; eassumption.
Qed.
End Evolution.

(** The table invariant is kept by every input. *)
Lemma run_wf st inputs :
  wf_storage (storage st) -> wf_storage (storage (fst (run st inputs))).
Proof.
  apply (run_evolves (fun _ _ => True) (fun _ _ => True) (fun _ => True));
    auto.
  apply Forall_forall. intros i _. destruct i as [ws u d| | | |]; simpl; auto.
  destruct (d_type d), (d_holdTime d); exact I.
Qed.

Lemma recordBid_wf s g u p h :
  getParticipant s g u = Some p -> wf_storage s -> wf_storage (recordBid s g u p h).
Proof.
  intros Hp.
  apply (recordBid_evolves (fun _ _ => True) (fun _ _ => True) (fun _ => True));
    auto.
Qed.

(** ** Releases that are dropped *)

(** C10: a BUZZER_RELEASE for a game that does not exist or is not in
    progress, or from a sender who has no participant row in the game or is
    eliminated, leaves the whole state as it was and performs no effect: no
    ERROR is sent and nothing is broadcast.  The same holds one level up, in
    the message dispatcher, for a message that names a game and carries a
    numeric hold time. *)
Theorem C10_rejected_release_is_silent st gid uid holdTime :
  getGame (storage st) gid = None \/
  (exists game, getGame (storage st) gid = Some game /\ status game <> in_progress) \/
  getParticipant (storage st) gid uid = None \/
  (exists p, getParticipant (storage st) gid uid = Some p /\ isEliminated p = true) ->
  handleBuzzerRelease st gid uid holdTime = (st, []) /\
  (forall ws r, uid <> 0 -> gid <> 0 ->
     onMessage st ws uid (mkData T_BUZZER_RELEASE gid r (Some holdTime)) = (st, [])).
Proof.
  intros H.
  assert (E : handleBuzzerRelease st gid uid holdTime = (st, [])).
  { unfold handleBuzzerRelease.
    destruct (getGame (storage st) gid) as [game|] eqn:Hg; [|reflexivity].
    destruct (status_eqb (status game) in_progress) eqn:Hs; [|reflexivity].
    simpl. apply status_eqb_eq in Hs.
    destruct (getParticipant (storage st) gid uid) as [p|] eqn:Hp; [|reflexivity].
    destruct (isEliminated p) eqn:He; [reflexivity|].
    destruct H as [H|[(game' & H & Hn)|[H|(p' & H & He')]]]; try discriminate.
    - injection H as <-. contradiction.
    - injection H as <-. congruence. }
  split; [exact E|].
  intros ws r Hu Hgid. unfold onMessage. simpl.
  apply Z.eqb_neq in Hu, Hgid. rewrite Hu, Hgid. simpl. exact E.
Qed.

Lemma C10_rejected_release_is_silent_witness :
  handleBuzzerRelease Examples.lobby0 1 3 5000 = (Examples.lobby0, []) /\
  (forall ws r, 3 <> 0 -> 1 <> 0 ->
     onMessage Examples.lobby0 ws 3 (mkData T_BUZZER_RELEASE 1 r (Some 5000%Q))
     = (Examples.lobby0, [])).
Proof.
  apply (C10_rejected_release_is_silent Examples.lobby0 1 3 5000).
  right. left. exists (mkGame 1 3 waiting 0 3 60 true false 0 None).
  split; [reflexivity | discriminate].
Defined.

(** C8: when the sender's row already has [hasBidThisRound] set, a further
    BUZZER_RELEASE is dropped without a trace: the state (game, time bank,
    tokens, bid flag, recorded hold time, and with them what decides round
    resolution) is unchanged and no effect is performed, so no ERROR is
    sent.  The same holds in the message dispatcher for a message that names
    a game and carries a numeric hold time. *)
Theorem C8_duplicate_release_is_dropped st gid uid holdTime p :
  getParticipant (storage st) gid uid = Some p ->
  hasBidThisRound p = true ->
  handleBuzzerRelease st gid uid holdTime = (st, []) /\
  (forall ws r, uid <> 0 -> gid <> 0 ->
     onMessage st ws uid (mkData T_BUZZER_RELEASE gid r (Some holdTime)) = (st, [])).
Proof.
  intros Hp Hb.
  assert (E : handleBuzzerRelease st gid uid holdTime = (st, [])).
  { unfold handleBuzzerRelease.
    destruct (getGame (storage st) gid) as [game|]; [|reflexivity].
    destruct (negb (status_eqb (status game) in_progress)); [reflexivity|].
    rewrite Hp, Hb. destruct (isEliminated p); reflexivity. }
  split; [exact E|].
  intros ws r Hu Hgid. unfold onMessage. simpl.
  apply Z.eqb_neq in Hu, Hgid. rewrite Hu, Hgid. simpl. exact E.
Qed.

Lemma C8_duplicate_release_is_dropped_witness :
  handleBuzzerRelease Examples.arenaOneBid 1 3 7000 = (Examples.arenaOneBid, []) /\
  (forall ws r, 3 <> 0 -> 1 <> 0 ->
     onMessage Examples.arenaOneBid ws 3 (mkData T_BUZZER_RELEASE 1 r (Some 7000%Q))
     = (Examples.arenaOneBid, [])).
Proof.
  apply (C8_duplicate_release_is_dropped Examples.arenaOneBid 1 3 7000
           (mkParticipant 1 1 3 true true (Some (55000 # 1000)) 0 false false true 5000));
    reflexivity.
Defined.

(** ** The time bank *)

Lemma key_eqb_refl k : key_eqb k k = true.
Proof. apply key_eqb_eq. reflexivity. Qed.

Lemma getParticipant_recordBid s g u p h :
  getParticipant s g u = Some p ->
  getParticipant (recordBid s g u p h) g u =
  Some (with_bidDetails
          (match timeBank p with
           | Some tb => with_timeBank p (Qmax 0 (tb - h / 1000))
           | None => p
           end) true h).
Proof.
  intros Hp. unfold recordBid, updateParticipantBidDetails, updateParticipantTimeBank.
  rewrite getParticipant_updateParticipant, key_eqb_refl.
  destruct (timeBank p).
  - rewrite getParticipant_updateParticipant, key_eqb_refl, Hp. reflexivity.
  - rewrite Hp. reflexivity.
Qed.

(** What [handleBuzzerRelease] does once the release passed its guards. *)
Lemma handleBuzzerRelease_valid st g u h game p :
  getGame (storage st) g = Some game -> status game = in_progress ->
  getParticipant (storage st) g u = Some p ->
  isEliminated p = false -> hasBidThisRound p = false ->
  handleBuzzerRelease st g u h =
  let st1 := mkState (recordBid (storage st) g u p h) (gameClients st) in
  if allActivePlayersHaveBid (storage st1) g
  then (fst (endCurrentRound st1 g),
        Broadcast g (BUZZER_RELEASE g u h) :: snd (endCurrentRound st1 g))
  else (st1, [Broadcast g (BUZZER_RELEASE g u h)]).
Proof.
  intros Hg Hs Hp He Hb. unfold handleBuzzerRelease.
  rewrite Hg, Hs, Hp, He, Hb. simpl.
  destruct (allActivePlayersHaveBid _ g); [|reflexivity].
  destruct (endCurrentRound _ g). reflexivity.
Qed.

Lemma floor_at_zero_bounds (tb h : Q) :
  (0 <= Qmax 0 (tb - h / 1000))%Q /\
  ((0 <= h)%Q -> (0 <= tb)%Q -> (Qmax 0 (tb - h / 1000) <= tb)%Q).
Proof.
  split.
  - apply Q.le_max_l.
  - intros Hh Ht. apply Q.max_lub; [assumption|].
    assert (0 <= h / 1000)%Q.
    { apply Qle_shift_div_l; [reflexivity|]. lra. }
    lra.
Qed.

Lemma timeBankShrinks_refl p : timeBankShrinks p p.
Proof. intros t Ht H0. exists t. repeat split; auto. apply Qle_refl. Qed.

Lemma timeBankShrinks_same a b :
  timeBank b = timeBank a -> timeBankShrinks a b.
Proof. intros E t Ht H0. rewrite E. exists t. repeat split; auto. apply Qle_refl. Qed.

Lemma timeBankShrinks_trans a b c :
  timeBankShrinks a b -> timeBankShrinks b c -> timeBankShrinks a c.
Proof.
  intros Hab Hbc t Ht H0. destruct (Hab t Ht H0) as (t' & Ht' & H0' & Hle).
  destruct (Hbc t' Ht' H0') as (t'' & Ht'' & H0'' & Hle').
  exists t''. repeat split; auto. eapply Qle_trans; eassumption.
Qed.

(** C4 (as the code has it): a valid BUZZER_RELEASE with hold duration [h]
    sets a time bank that is a number to [max(0, previous - h/1000)]; the
    new value is never negative, and it is at most the previous value when
    [h] and the previous value are not negative.  Over every sequence of
    inputs whose releases carry non-negative hold durations, a time bank
    that is not negative stays a non-negative number and never grows. *)
Theorem C4_time_bank_floor_and_monotone st gid uid p tb :
  getParticipant (storage st) gid uid = Some p ->
  timeBank p = Some tb ->
  (forall game h,
     getGame (storage st) gid = Some game -> status game = in_progress ->
     isEliminated p = false -> hasBidThisRound p = false ->
     exists p',
       getParticipant (storage (fst (handleBuzzerRelease st gid uid h))) gid uid
         = Some p' /\
       timeBank p' = Some (Qmax 0 (tb - h / 1000)) /\
       (0 <= Qmax 0 (tb - h / 1000))%Q /\
       (nonNegative h -> (0 <= tb)%Q -> (Qmax 0 (tb - h / 1000) <= tb)%Q)) /\
  ((0 <= tb)%Q ->
   forall inputs, Forall (holdsOk nonNegative) inputs ->
     exists p' tb',
       getParticipant (storage (fst (run st inputs))) gid uid = Some p' /\
       timeBank p' = Some tb' /\ (0 <= tb')%Q /\ (tb' <= tb)%Q).
Proof.
  intros Hp Ht. split.
  - intros game h Hg Hs He Hb.
    rewrite (handleBuzzerRelease_valid st gid uid h game p Hg Hs Hp He Hb).
    pose proof (getParticipant_recordBid _ _ _ _ h Hp) as Hrec.
    rewrite Ht in Hrec. cbv zeta.
    set (st1 := mkState (recordBid (storage st) gid uid p h) (gameClients st)).
    destruct (floor_at_zero_bounds tb h) as [B1 B2].
    destruct (allActivePlayersHaveBid (storage st1) gid).
    + assert (E : evolves sameTimeBank (fun _ _ => True) (storage st1)
                    (storage (fst (endCurrentRound st1 gid)))).
      { apply endCurrentRound_evolves; unfold sameTimeBank; intros;
          first [exact I | reflexivity | congruence]. }
      destruct E as (EP & _ & _).
      destruct (EP gid uid _ Hrec) as (p' & Hp' & Hsame).
      exists p'. simpl. split; [exact Hp'|]. split; [|split; assumption].
      rewrite <- Hsame. reflexivity.
    + eexists. simpl. split; [exact Hrec|]. split; [reflexivity|]. split; assumption.
  - intros H0 inputs Hok.
    assert (E : evolves timeBankShrinks (fun _ _ => True) (storage st)
                  (storage (fst (run st inputs)))).
    { apply run_evolves with (okHold := nonNegative);
        first [ exact timeBankShrinks_refl | exact timeBankShrinks_trans
              | exact Hok | (intros; exact I)
              | (intros; apply timeBankShrinks_same; reflexivity) | idtac ].
      intros q t h Hq Hh t0 Ht0 H00. rewrite Hq in Ht0. injection Ht0 as <-.
      destruct (floor_at_zero_bounds t h) as [B1 B2].
      exists (Qmax 0 (t - h / 1000)). repeat split; auto. }
    destruct E as (EP & _ & _).
    destruct (EP gid uid p Hp) as (p' & Hp' & Hshr).
    destruct (Hshr tb Ht H0) as (tb' & Ht' & H0' & Hle).
      exists p', tb'. auto.
Qed.

Lemma C4_time_bank_floor_and_monotone_witness :
  exists p' tb',
    getParticipant (storage (fst (run Examples.arena Examples.round1))) 1 3 = Some p' /\
    timeBank p' = Some tb' /\ (0 <= tb')%Q /\ (tb' <= 60)%Q.
Proof.
  apply (proj2 (C4_time_bank_floor_and_monotone Examples.arena 1 3
                  (mkParticipant 1 1 3 true true (Some 60%Q) 0 false false false 0)
                  60%Q eq_refl eq_refl)).
  - discriminate.
  - repeat constructor; discriminate.
Defined.

(** C4 as stated fails: the dispatcher accepts every number as a hold time,
    and a release with a hold time of -5000 ms raises the time bank of
    user 3 from 60 to 65 seconds.  And where a game was created with a
    negative starting time bank, the time bank is negative to begin with and
    a release with a hold time of 0 raises it to 0. *)
Lemma C4_counterexample :
  (exists p p' tb',
     getParticipant (storage Examples.arena) 1 3 = Some p /\
     timeBank p = Some 60%Q /\
     getParticipant
       (storage (fst (onMessage Examples.arena (Examples.sock 3) 3
                        (mkData T_BUZZER_RELEASE 1 false (Some (-5000)%Q))))) 1 3
       = Some p' /\
     timeBank p' = Some tb' /\ (60 < tb')%Q) /\
  (exists p p' tb tb',
     getParticipant (storage Examples.overdrawn) 1 1 = Some p /\
     timeBank p = Some tb /\ (tb < 0)%Q /\
     getParticipant
       (storage (fst (onMessage Examples.overdrawn (Examples.sock 1) 1
                        (mkData T_BUZZER_RELEASE 1 false (Some 0%Q))))) 1 1
       = Some p' /\
     timeBank p' = Some tb' /\ (tb < tb')%Q).
Proof.
  split.
  - do 3 eexists. split; [reflexivity|]. split; [reflexivity|].
    split; [vm_compute; reflexivity|]. split; [reflexivity|]. reflexivity.
  - do 4 eexists. split; [reflexivity|]. split; [reflexivity|].
    split; [reflexivity|].
    split; [vm_compute; reflexivity|]. split; [reflexivity|]. reflexivity.
Qed.

(** ** Choosing the round winner *)

Lemma Qgt_bool_true a b : Qgt_bool a b = true -> (b < a)%Q.
Proof.
  unfold Qgt_bool. intros H. apply negb_true_iff in H.
  apply Qnot_le_lt. intros Hle. apply Qle_bool_iff in Hle. congruence.
Qed.

Lemma Qgt_bool_false a b : Qgt_bool a b = false -> (a <= b)%Q.
Proof.
  unfold Qgt_bool. intros H. apply negb_false_iff in H.
  apply Qle_bool_iff. assumption.
Qed.

Lemma reduce_lastMaximum rest : forall done acc,
  lastMaximum acc done ->
  lastMaximum
    (fold_left
       (fun prev current =>
          if Qgt_bool (lastHoldTime prev) (lastHoldTime current)
          then prev else current)
       rest acc)
    (done ++ rest).
Proof.
  induction rest as [|cur rest IH]; intros done acc Hacc; simpl.
  - rewrite app_nil_r. assumption.
  - replace (done ++ cur :: rest) with ((done ++ [cur]) ++ rest)
      by (rewrite <- app_assoc; reflexivity).
    apply IH. destruct Hacc as (before & after & -> & Hb & Ha).
    destruct (Qgt_bool (lastHoldTime acc) (lastHoldTime cur)) eqn:E.
    + apply Qgt_bool_true in E. exists before, (after ++ [cur]).
      split; [rewrite <- app_assoc; reflexivity|]. split; [assumption|].
      intros q Hq. apply in_app_or in Hq. destruct Hq as [Hq|[<-|[]]]; auto.
    + apply Qgt_bool_false in E. exists (before ++ acc :: after), [].
      split; [reflexivity|]. split; [|intros q []].
      intros q Hq. apply in_app_or in Hq. destruct Hq as [Hq|[<-|Hq]].
      * eapply Qle_trans; [apply Hb; assumption | assumption].
      * assumption.
      * eapply Qle_trans; [apply Qlt_le_weak, Ha; assumption | assumption].
Qed.

Lemma reduceWinner_lastMaximum l w :
  reduceWinner l = Some w -> lastMaximum w l.
Proof.
  destruct l as [|first rest]; simpl; [discriminate|].
  intros H. injection H as <-.
  apply (reduce_lastMaximum rest [first] first).
  exists [], []. split; [reflexivity|]. split; intros q [].
Qed.

Lemma reduceWinner_some l : l <> [] -> exists w, reduceWinner l = Some w.
Proof. destruct l; [congruence|]. intros _. simpl. eauto. Qed.

(** ** The store and the effects of a round resolution *)

Lemma getGame_fold_participants {A : Type} (f : A -> Z) g b h (l : list A) :
  forall s id,
    getGame (fold_left (fun acc p => updateParticipantBidDetails acc g (f p) b h) l s) id
    = getGame s id.
Proof.
  induction l as [|a l IH]; intros s id; simpl; [reflexivity|].
  rewrite IH. apply getGame_updateParticipant.
Qed.

Lemma getGame_resolveRound s game g ps w :
  getGame s g = Some game ->
  getGame (resolveRound s game g ps w) g =
  Some (with_roundResults game
          (option_map p_id w)
          (match w with
           | Some w0 => lastHoldTime w0
           | None => 0%Q
           end)
          (currentRound game + 1)).
Proof.
  intros Hg. unfold resolveRound. rewrite getGame_fold_participants.
  unfold updateGameRoundResults. rewrite getGame_updateGame, Z.eqb_refl.
  destruct w as [w|];
    [unfold updateParticipantTokens; rewrite getGame_updateParticipant|];
    rewrite Hg; reflexivity.
Qed.

Lemma getGame_endGame st g id game :
  getGame (storage st) id = Some game ->
  exists game', getGame (storage (fst (endGame st g))) id = Some game' /\
                currentRound game' = currentRound game.
Proof.
  intros Hg.
  assert (E : evolves (fun _ _ => True) (fun a b => currentRound b = currentRound a)
                (storage st) (storage (fst (endGame st g)))).
  { apply endGame_evolves; intros; first [exact I | reflexivity | congruence]. }
  destruct E as (_ & EG & _). apply EG. assumption.
Qed.

(** The ROUND_END broadcast of a resolution, and the round counter after
    it. *)
Lemma endCurrentRound_resolves st g game :
  getGame (storage st) g = Some game -> status game = in_progress ->
  exists nextRound rest game',
    snd (endCurrentRound st g) =
      Broadcast g
        (ROUND_END g (currentRound game)
           (match reduceWinner (activeBidders (storage st) g) with
            | Some w => p_id w
            | None => 0
            end)
           (match reduceWinner (activeBidders (storage st) g) with
            | Some w => lastHoldTime w
            | None => 0%Q
            end)
           nextRound)
      :: rest /\
    roundEnds rest = [] /\
    getGame (storage (fst (endCurrentRound st g))) g = Some game' /\
    currentRound game' = currentRound game + 1.
Proof.
  intros Hg Hs. unfold endCurrentRound. rewrite Hg, Hs. simpl.
  rewrite (getGame_resolveRound _ _ _ _ _ Hg). simpl.
  replace (currentRound game + 1 - 1) with (currentRound game) by lia.
  destruct (totalRounds game <=? currentRound game) eqn:L.
  - set (st3 := mkState (resolveRound (storage st) game g _ _) (gameClients st)).
    pose proof (getGame_endGame st3 g g _ (getGame_resolveRound _ _ _ _ _ Hg))
      as (game' & Hg' & Hr).
    assert (Ho : roundEnds (snd (endGame st3 g)) = []).
    { unfold endGame. destruct (getGame (storage st3) g); reflexivity. }
    destruct (endGame st3 g) as [st4 outs]. simpl in *.
    exists (-1), outs, game'. split; [reflexivity|]. split; [exact Ho|].
    split; assumption.
  - eexists _, [RoundStartTimer g _], _. split; [reflexivity|].
    split; [reflexivity|]. split.
    + cbn [fst storage]. apply (getGame_resolveRound _ _ _ _ _ Hg).
    + reflexivity.
Qed.

(** C5 (as the code has it): among the bidders of a round that is resolved,
    [endCurrentRound] selects the last participant of the bidder list who
    holds the maximal recorded duration: nothing before the winner holds
    longer, and everything after the winner holds strictly shorter.  The
    ROUND_END broadcast names that participant's row and hold time. *)
Theorem C5_tie_goes_to_last_maximum st gid game :
  getGame (storage st) gid = Some game -> status game = in_progress ->
  activeBidders (storage st) gid <> [] ->
  exists w nextRound rest,
    reduceWinner (activeBidders (storage st) gid) = Some w /\
    lastMaximum w (activeBidders (storage st) gid) /\
    snd (endCurrentRound st gid) =
      Broadcast gid
        (ROUND_END gid (currentRound game) (p_id w) (lastHoldTime w) nextRound)
      :: rest.
Proof.
  intros Hg Hs Hne.
  destruct (reduceWinner_some _ Hne) as (w & Hw).
  destruct (endCurrentRound_resolves st gid game Hg Hs)
    as (nextRound & rest & game' & Hout & _).
  rewrite Hw in Hout.
  exists w, nextRound, rest. split; [assumption|]. split; [|assumption].
  apply reduceWinner_lastMaximum. assumption.
Qed.

Lemma C5_tie_goes_to_last_maximum_witness :
  exists w nextRound rest,
    reduceWinner (activeBidders (storage Examples.arenaAllBid) 1) = Some w /\
    lastMaximum w (activeBidders (storage Examples.arenaAllBid) 1) /\
    snd (endCurrentRound Examples.arenaAllBid 1) =
      Broadcast 1 (ROUND_END 1 0 (p_id w) (lastHoldTime w) nextRound) :: rest.
Proof.
  apply (C5_tie_goes_to_last_maximum Examples.arenaAllBid 1
           (mkGame 1 3 in_progress 0 3 60 true false 0 None)).
  - reflexivity.
  - reflexivity.
  - discriminate.
Defined.

(** C5 as stated fails: rows 1 and 2 both hold 3000 ms, the maximum; row 1
    is the first of them in the bidder list, and [endCurrentRound] selects
    row 2. *)
Lemma C5_counterexample :
  exists first w,
    firstMaximum first (activeBidders (storage Examples.arenaAllBid) 1) /\
    p_id first = 1 /\
    reduceWinner (activeBidders (storage Examples.arenaAllBid) 1) = Some w /\
    p_id w = 2 /\
    snd (endCurrentRound Examples.arenaAllBid 1) =
      [Broadcast 1 (ROUND_END 1 0 2 3000 1); RoundStartTimer 1 1].
Proof.
  eexists _, _. split; [|split; [|split; [reflexivity|split; reflexivity]]].
  - exists []. eexists. split; [reflexivity|].
    split; [intros q []|].
    intros q [<-|[<-|[]]]; intro H; discriminate H.
  - reflexivity.
Qed.

(** ** When a release resolves the round *)

Lemma length_pos_exists {A : Type} (l : list A) :
  (0 <? length l)%nat = true <-> exists x, In x l.
Proof.
  destruct l as [|a l]; simpl; split.
  - discriminate.
  - intros [x []].
  - intros _. exists a. now left.
  - reflexivity.
Qed.

Lemma allActivePlayersHaveBid_spec s g :
  wf_storage s ->
  allActivePlayersHaveBid s g = true <->
  (exists p, In p (getParticipantsByGame s g) /\ isEliminated p = false) /\
  (forall p, In p (getParticipantsByGame s g) ->
             isEliminated p = false -> hasBidThisRound p = true).
Proof.
  intros Hwf. unfold allActivePlayersHaveBid.
  rewrite andb_true_iff, length_pos_exists, forallb_forall. split.
  - intros [[x Hx] Hall]. split.
    + apply filter_In in Hx. destruct Hx as [Hx He].
      apply negb_true_iff in He. eauto.
    + intros p Hp He.
      assert (Hin : In p (filter (fun p => negb (isEliminated p))
                            (getParticipantsByGame s g))).
      { apply filter_In. rewrite He. auto. }
      apply Hall in Hin. apply existsb_exists in Hin.
      destruct Hin as (b & Hb & Hu). apply filter_In in Hb.
      destruct Hb as [Hb Hbid]. apply Z.eqb_eq in Hu.
      destruct (in_game_getParticipant s g b Hwf Hb) as [Gb _].
      destruct (in_game_getParticipant s g p Hwf Hp) as [Gp _].
      rewrite Hu, Gp in Gb. injection Gb as ->. assumption.
  - intros [(x & Hx & He) Hall]. split.
    + exists x. apply filter_In. rewrite He. auto.
    + intros p Hp. apply filter_In in Hp. destruct Hp as [Hp Hne].
      apply negb_true_iff in Hne. apply existsb_exists. exists p. split.
      * apply filter_In. auto.
      * apply Z.eqb_refl.
Qed.

Lemma getGame_recordBid s g u p h id :
  getGame (recordBid s g u p h) id = getGame s id.
Proof.
  unfold recordBid, updateParticipantBidDetails, updateParticipantTimeBank.
  rewrite getGame_updateParticipant.
  destruct (timeBank p); [apply getGame_updateParticipant | reflexivity].
Qed.

Lemma reduceWinner_none l : reduceWinner l = None <-> l = [].
Proof. destruct l; simpl; split; intro H; try reflexivity; discriminate. Qed.

Lemma holdsOk_always i : holdsOk (fun _ => True) i.
Proof.
  destruct i as [ws u d| | | |]; simpl; auto.
  destruct (d_type d), (d_holdTime d); exact I.
Qed.

(** Every input emits at most one ROUND_END; it carries the round number
    the game had, and the game then has the next one. *)
Lemma step_roundEnds st i :
  roundEnds (snd (step st i)) = [] \/
  exists g game game',
    getGame (storage st) g = Some game /\
    getGame (storage (fst (step st i))) g = Some game' /\
    currentRound game' = currentRound game + 1 /\
    roundEnds (snd (step st i)) = [(g, currentRound game)].
Proof.
  destruct i as [ws u data| ws u g | g | g |]; simpl.
  - unfold onMessage. destruct (u =? 0); [left; reflexivity|].
    destruct (d_type data), (d_holdTime data) as [h|];
      destruct (negb (d_gameId data =? 0)); try (left; reflexivity).
    1,2: (left; unfold handleJoinGame, sendGameState;
          destruct (getGame (storage st) (d_gameId data)); [|reflexivity];
          destruct (_ && _); [reflexivity|];
          destruct (joinStore _ _ _ _); [|reflexivity]; simpl;
          destruct (getGame _ _); reflexivity).
    1,2: (left; unfold handlePlayerReady;
          destruct (getGame _ _); [|reflexivity];
          destruct (_ && _); [|reflexivity];
          destruct (forallb _ _); reflexivity).
    set (g := d_gameId data). unfold handleBuzzerRelease.
    destruct (getGame (storage st) g) as [game|] eqn:Hg; [|left; reflexivity].
    destruct (status_eqb (status game) in_progress) eqn:Hs; [|left; reflexivity].
    apply status_eqb_eq in Hs. simpl.
    destruct (getParticipant (storage st) g u) as [p|] eqn:Hp; [|left; reflexivity].
    destruct (isEliminated p) eqn:He; [left; reflexivity|].
    destruct (hasBidThisRound p) eqn:Hb; [left; reflexivity|].
    destruct (allActivePlayersHaveBid _ g); [|left; reflexivity].
    set (st1 := mkState (recordBid (storage st) g u p h) (gameClients st)).
    assert (Hg1 : getGame (storage st1) g = Some game).
    { simpl. rewrite getGame_recordBid. assumption. }
    destruct (endCurrentRound_resolves st1 g game Hg1 Hs)
      as (nextRound & rest & game' & Hout & Hrest & Hg' & Hr).
    destruct (endCurrentRound st1 g) as [st2 outs]. simpl in *.
    right. exists g, game, game'. repeat split; auto.
    rewrite Hout. simpl. rewrite Hrest. reflexivity.
  - left. unfold onClose. destruct (_ && _); [|reflexivity].
    destruct (JsMap.get Z.eqb (gameClients st) g) as [room|]; [|reflexivity].
    destruct (JsMap.get Z.eqb room u) as [socket|]; [|reflexivity].
    destruct (_ =? _)%nat; reflexivity.
  - left. unfold startGame. destruct (getGame _ _) as [game|]; [|reflexivity].
    destruct (negb _); reflexivity.
  - left. reflexivity.
  - left. reflexivity.
Qed.

Lemma roundEnds_app a b : roundEnds (a ++ b) = roundEnds a ++ roundEnds b.
Proof. unfold roundEnds. apply flat_map_app. Qed.

Lemma step_rounds_monotone st i g game :
  getGame (storage st) g = Some game ->
  exists game', getGame (storage (fst (step st i))) g = Some game' /\
                currentRound game <= currentRound game'.
Proof.
  assert (E : evolves (fun _ _ => True) (fun a b => currentRound a <= currentRound b)
                (storage st) (storage (fst (step st i)))).
  { apply step_evolves with (okHold := fun _ => True);
      first [ apply holdsOk_always | (intros; exact I)
            | (intros; simpl; lia) | idtac ]. }
  destruct E as (_ & EG & _). apply EG.
Qed.

(** A round number announced during a run is never below the round number
    the game had when the run began. *)
Lemma run_roundEnds_lower inputs : forall st g n game,
  In (g, n) (roundEnds (snd (run st inputs))) ->
  getGame (storage st) g = Some game -> currentRound game <= n.
Proof.
  induction inputs as [|i rest IH]; intros st g n game Hin Hg; simpl in Hin.
  - contradiction.
  - destruct (step_roundEnds st i) as [Hnil|(g0 & game0 & game0' & H0 & H0' & Hr & Hone)];
      destruct (step_rounds_monotone st i g game Hg) as (game1 & Hg1 & Hle);
      destruct (step st i) as [st1 outs1]; simpl in *;
      specialize (IH st1 g n game1);
      destruct (run st1 rest) as [st2 outs2]; simpl in *;
      rewrite roundEnds_app in Hin; apply in_app_or in Hin.
    + rewrite Hnil in Hin. destruct Hin as [[]|Hin]. specialize (IH Hin Hg1). lia.
    + rewrite Hone in Hin. destruct Hin as [[Heq|[]]|Hin].
      * injection Heq as <- <-. rewrite Hg in H0. injection H0 as <-. lia.
      * specialize (IH Hin Hg1). lia.
Qed.

Lemma run_roundEnds_NoDup inputs : forall st,
  NoDup (roundEnds (snd (run st inputs))).
Proof.
  induction inputs as [|i rest IH]; intros st; simpl.
  - constructor.
  - destruct (step_roundEnds st i) as [Hnil|(g0 & game0 & game0' & H0 & H0' & Hr & Hone)];
      pose proof (run_roundEnds_lower rest (fst (step st i))) as Hlow;
      destruct (step st i) as [st1 outs1]; simpl in *;
      specialize (IH st1);
      destruct (run st1 rest) as [st2 outs2]; simpl in *;
      rewrite roundEnds_app.
    + rewrite Hnil. exact IH.
    + rewrite Hone. simpl. constructor; [|exact IH].
      intros Hin. specialize (Hlow g0 (currentRound game0) game0' Hin H0'). lia.
Qed.

Lemma endCurrentRound_state st g game :
  getGame (storage st) g = Some game -> status game = in_progress ->
  fst (endCurrentRound st g) =
  let st3 :=
    mkState
      (resolveRound (storage st) game g (getParticipantsByGame (storage st) g)
         (reduceWinner (activeBidders (storage st) g)))
      (gameClients st) in
  if totalRounds game <=? currentRound game then fst (endGame st3 g) else st3.
Proof.
  intros Hg Hs. unfold endCurrentRound. rewrite Hg, Hs. simpl.
  rewrite (getGame_resolveRound _ _ _ _ _ Hg). simpl.
  replace (currentRound game + 1 - 1) with (currentRound game) by lia.
  destruct (totalRounds game <=? currentRound game); [|reflexivity].
  destruct (endGame _ g). reflexivity.
Qed.

(** A resolution without bidders awards nothing. *)
Lemma endCurrentRound_no_bidders st g game :
  getGame (storage st) g = Some game -> status game = in_progress ->
  activeBidders (storage st) g = [] ->
  evolves sameTokens (fun _ _ => True)
    (storage st) (storage (fst (endCurrentRound st g))).
Proof.
  intros Hg Hs Hnil.
  assert (Hrefl : forall p, sameTokens p p) by (intro; reflexivity).
  assert (Htrans : forall a b c, sameTokens a b -> sameTokens b c -> sameTokens a c)
    by (unfold sameTokens; intros; congruence).
  assert (E3 : evolves sameTokens (fun _ _ => True)
                 (storage st)
                 (resolveRound (storage st) game g
                    (getParticipantsByGame (storage st) g)
                    (reduceWinner (activeBidders (storage st) g)))).
  { unfold resolveRound. rewrite Hnil. simpl.
    eapply evolves_trans with (s2 := updateGameRoundResults (storage st) g _ _ _);
      auto.
    - apply updateGame_evolves; auto.
    - apply fold_left_evolves; auto. intros s p.
      apply updateParticipant_evolves; auto.
      + intro q. split; reflexivity.
      + intros; reflexivity. }
  rewrite (endCurrentRound_state st g game Hg Hs). cbv zeta.
  set (st3 := mkState (resolveRound (storage st) game g _ _) (gameClients st)).
  destruct (totalRounds game <=? currentRound game); [|exact E3].
  assert (E4 : evolves sameTokens (fun _ _ => True)
                 (storage st3) (storage (fst (endGame st3 g)))).
  { apply endGame_evolves; auto; intros; reflexivity. }
  eapply evolves_trans with (s2 := storage st3); auto.
Qed.

(** C2 (as the code has it), for a store whose participant table is well
    formed.
    (a) A BUZZER_RELEASE that passes the guards (game in progress, sender a
    non-eliminated participant who has not bid) broadcasts ROUND_END for the
    current round if and only if, once the bid is recorded, every
    non-eliminated participant has [hasBidThisRound] set; the round counter
    is then one higher.
    (b) When every participant of the game is eliminated, no
    BUZZER_RELEASE resolves anything: the state is unchanged and nothing is
    emitted.
    (c) [endCurrentRound] itself, entered with no active bidder, leaves
    every participant's tokens as they were and advances the round counter
    by one.
    (d) Over every sequence of inputs, no (game, round number) pair is
    announced by two ROUND_END broadcasts. *)
Theorem C2_round_resolution st gid :
  wf_storage (storage st) ->
  (forall uid h game p,
     getGame (storage st) gid = Some game -> status game = in_progress ->
     getParticipant (storage st) gid uid = Some p ->
     isEliminated p = false -> hasBidThisRound p = false ->
     (In (gid, currentRound game)
         (roundEnds (snd (handleBuzzerRelease st gid uid h))) <->
      forall q, In q (getParticipantsByGame (recordBid (storage st) gid uid p h) gid) ->
                isEliminated q = false -> hasBidThisRound q = true) /\
     (In (gid, currentRound game)
         (roundEnds (snd (handleBuzzerRelease st gid uid h))) ->
      exists game',
        getGame (storage (fst (handleBuzzerRelease st gid uid h))) gid = Some game' /\
        currentRound game' = currentRound game + 1)) /\
  ((forall q, In q (getParticipantsByGame (storage st) gid) -> isEliminated q = true) ->
   forall uid h, handleBuzzerRelease st gid uid h = (st, [])) /\
  (forall game,
     getGame (storage st) gid = Some game -> status game = in_progress ->
     activeBidders (storage st) gid = [] ->
     (forall g u q, getParticipant (storage st) g u = Some q ->
        exists q', getParticipant (storage (fst (endCurrentRound st gid))) g u = Some q' /\
                   tokensWon q' = tokensWon q) /\
     exists game',
       getGame (storage (fst (endCurrentRound st gid))) gid = Some game' /\
       currentRound game' = currentRound game + 1) /\
  (forall inputs, NoDup (roundEnds (snd (run st inputs)))).
Proof.
  intros Hwf. split; [|split; [|split]].
  - intros uid h game p Hg Hs Hp He Hb.
    rewrite (handleBuzzerRelease_valid st gid uid h game p Hg Hs Hp He Hb).
    cbv zeta. cbn [storage].
    set (s1 := recordBid (storage st) gid uid p h).
    assert (Hwf1 : wf_storage s1) by (apply recordBid_wf; assumption).
    pose proof (getParticipant_recordBid _ _ _ _ h Hp) as Hp1. fold s1 in Hp1.
    destruct (getParticipant_in_game s1 gid uid _ Hwf1 Hp1) as (Hin1 & _ & _).
    assert (He1 : isEliminated
                    (with_bidDetails
                       match timeBank p with
                       | Some tb => with_timeBank p (Qmax 0 (tb - h / 1000))
                       | None => p
                       end true h) = false).
    { destruct (timeBank p); exact He. }
    pose proof (allActivePlayersHaveBid_spec s1 gid Hwf1) as Hspec.
    destruct (allActivePlayersHaveBid s1 gid) eqn:A.
    + assert (Hg1 : getGame (storage (mkState s1 (gameClients st))) gid = Some game).
      { simpl. unfold s1. rewrite getGame_recordBid. assumption. }
      destruct (endCurrentRound_resolves _ gid game Hg1 Hs)
        as (nextRound & rest & game' & Hout & Hrest & Hg' & Hr).
      cbn [fst snd]. rewrite Hout. simpl. split.
      * split; [intros _; apply Hspec; reflexivity | intros _; now left].
      * intros _. exists game'. split; assumption.
    + cbn [fst snd]. simpl. split; [split|]; try contradiction.
      intros Hall. exfalso.
      assert (true = true) as Ht by reflexivity.
      enough (false = true) by discriminate.
      apply Hspec. split; [eauto | assumption].
  - intros Hall uid h. unfold handleBuzzerRelease.
    destruct (getGame (storage st) gid) as [game|]; [|reflexivity].
    destruct (negb (status_eqb (status game) in_progress)); [reflexivity|].
    destruct (getParticipant (storage st) gid uid) as [p|] eqn:Hp; [|reflexivity].
    destruct (getParticipant_in_game _ gid uid p Hwf Hp) as (Hin & _ & _).
    rewrite (Hall p Hin). reflexivity.
  - intros game Hg Hs Hnil.
    destruct (endCurrentRound_no_bidders st gid game Hg Hs Hnil) as (EP & _ & _).
    split; [exact EP|].
    destruct (endCurrentRound_resolves st gid game Hg Hs)
      as (nextRound & rest & game' & _ & _ & Hg' & Hr).
    exists game'. split; assumption.
  - intros inputs. apply run_roundEnds_NoDup.
Qed.

(** The table invariant of a store written out in full. *)
Ltac wf_by_computation :=
  split;
  [ repeat constructor; simpl; intuition congruence
  | intros k p H; simpl in H;
    repeat (destruct H as [H|H]; [injection H as <- <-; reflexivity|]);
    contradiction ].

Lemma C2_round_resolution_witness :
  In (1, 0) (roundEnds (snd (handleBuzzerRelease Examples.arenaTied 1 2 1000))) /\
  exists game',
    getGame (storage (fst (handleBuzzerRelease Examples.arenaTied 1 2 1000))) 1
      = Some game' /\
    currentRound game' = 0 + 1.
Proof.
  assert (Hwf : wf_storage (storage Examples.arenaTied)) by wf_by_computation.
  destruct (C2_round_resolution Examples.arenaTied 1 Hwf) as (Ha & _).
  destruct (Ha 2 1000%Q
              (mkGame 1 3 in_progress 0 3 60 true false 0 None)
              (mkParticipant 3 1 2 false true (Some 60%Q) 0 false false false 0)
              eq_refl eq_refl eq_refl eq_refl eq_refl) as (Hiff & Hadv).
  assert (Hin : In (1, 0)
                  (roundEnds (snd (handleBuzzerRelease Examples.arenaTied 1 2 1000)))).
  { apply Hiff. intros q Hq. vm_compute in Hq.
    destruct Hq as [<-|[<-|[<-|[]]]]; reflexivity. }
  split; [exact Hin | exact (Hadv Hin)].
Defined.

(** C2 as stated fails: in a game in progress whose participants are all
    eliminated, every non-eliminated participant has (vacuously) bid, yet a
    BUZZER_RELEASE resolves nothing: no ROUND_END is broadcast and the
    round counter stays at 2. *)
Lemma C2_counterexample :
  (forall q, In q (getParticipantsByGame (storage Examples.allOut) 1) ->
             isEliminated q = true) /\
  (forall q, In q (getParticipantsByGame (storage Examples.allOut) 1) ->
             isEliminated q = false -> hasBidThisRound q = true) /\
  option_map status (getGame (storage Examples.allOut) 1) = Some in_progress /\
  option_map currentRound (getGame (storage Examples.allOut) 1) = Some 2 /\
  roundEnds (snd (handleBuzzerRelease Examples.allOut 1 1 1000)) = [] /\
  option_map currentRound
    (getGame (storage (fst (handleBuzzerRelease Examples.allOut 1 1 1000))) 1)
    = Some 2.
Proof.
  split; [|split; [|repeat split; reflexivity]].
  - intros q [<-|[<-|[]]]; reflexivity.
  - intros q [<-|[<-|[]]]; discriminate.
Qed.

(** ** The token award *)

(** C1 (a resolved round awards its token to the bidder with the strictly
    greatest recorded hold duration: that participant's tokens rise by one
    and nobody else's change) fails on the code.  In game 1 the rows are
    (row 1, user 3), (row 2, user 1), (row 3, user 2).  User 3 holds
    5000 ms, user 1 holds 3000 ms, user 2 holds 1000 ms.  Round 0 is resolved with row 1 as the
    winner, and [updateParticipantTokens] is called with the winner's row id
    1 in the place of a user id: the token lands on the row of user 1, and
    the tokens of user 3, who held strictly longest, stay at 0. *)
Theorem C1_token_lands_on_row_id_as_user_id :
  reduceWinner
    (activeBidders
       (recordBid (storage (fst (run Examples.arena [Examples.release 3 5000;
                                                     Examples.release 1 3000])))
          1 2 (mkParticipant 3 1 2 false true (Some 60%Q) 0 false false false 0) 1000)
       1)
  = Some (mkParticipant 1 1 3 true true (Some (55000 # 1000)) 0 false false true 5000) /\
  snd (run Examples.arena Examples.round1) =
    [Broadcast 1 (BUZZER_RELEASE 1 3 5000);
     Broadcast 1 (BUZZER_RELEASE 1 1 3000);
     Broadcast 1 (BUZZER_RELEASE 1 2 1000);
     Broadcast 1 (ROUND_END 1 0 1 5000 1);
     RoundStartTimer 1 1] /\
  option_map tokensWon
    (getParticipant (storage (fst (run Examples.arena Examples.round1))) 1 3) = Some 0 /\
  option_map tokensWon
    (getParticipant (storage (fst (run Examples.arena Examples.round1))) 1 1) = Some 1 /\
  option_map tokensWon
    (getParticipant (storage (fst (run Examples.arena Examples.round1))) 1 2) = Some 0.
Proof. repeat split; vm_compute; reflexivity. Qed.

(** ** The cleanup pass *)

(** C9 (a cleanup pass examines every open game and completes the ones
    with fewer than two participants, or still waiting with no live
    connection) fails on the code.  [cleanupGames] iterates over
    [getPublicGames], which keeps only the public games in status waiting.  A private lobby
    with a single participant and no connection is below the minimum of two
    participants, yet the pass leaves it waiting; [handleEmptyGame], which
    applies the same test to the game it is given, completes it. *)
Theorem C9_cleanup_skips_private_lobby :
  length (getParticipantsByGame (storage Examples.privateLobby) 1) = 1%nat /\
  option_map status (getGame (storage Examples.privateLobby) 1) = Some waiting /\
  getPublicGames (storage Examples.privateLobby) = [] /\
  cleanupGames Examples.privateLobby = Examples.privateLobby /\
  option_map status
    (getGame (storage (handleEmptyGame Examples.privateLobby 1)) 1) = Some completed.
Proof. repeat split; reflexivity. Qed.

(** ** Starting the countdown *)


(** ** Joining twice *)

Lemma rows_absent (l : list (Key * GameParticipant)) g u :
  (forall k p, In (k, p) l -> k = participantKey (gameId p) (userId p)) ->
  ~ In (participantKey g u) (JsMap.keys l) ->
  filter (fun q => (gameId q =? g) && (userId q =? u)) (JsMap.values l) = [].
Proof.
  induction l as [|[k p] l IH]; intros Hkey Hnot; simpl; [reflexivity|].
  destruct ((gameId p =? g) && (userId p =? u)) eqn:E.
  - exfalso. apply Hnot. simpl. left.
    apply andb_true_iff in E. destruct E as [Eg Eu].
    apply Z.eqb_eq in Eg, Eu. rewrite (Hkey k p (or_introl eq_refl)).
    subst. reflexivity.
  - apply IH.
    + intros k' p' Hin. apply Hkey. now right.
    + intros Hin. apply Hnot. simpl. now right.
Qed.

Lemma wf_rows_at_most_one s g u :
  wf_storage s -> (length (rowsOf s g u) <= 1)%nat.
Proof.
  intros [Hnd Hkey]. unfold rowsOf.
  induction (gameParticipants s) as [|[k p] l IH]; simpl; [lia|].
  inversion Hnd as [|? ? Hnotin Hnd']; subst.
  assert (Hkey' : forall k' p', In (k', p') l ->
                                k' = participantKey (gameId p') (userId p')).
  { intros k' p' Hin. apply Hkey. now right. }
  destruct ((gameId p =? g) && (userId p =? u)) eqn:E.
  - apply andb_true_iff in E. destruct E as [Eg Eu].
    apply Z.eqb_eq in Eg, Eu.
    pose proof (Hkey k p (or_introl eq_refl)) as Hk.
    rewrite Eg, Eu in Hk. subst k.
    rewrite (rows_absent l g u Hkey' Hnotin). simpl. lia.
  - apply IH; assumption.
Qed.

Lemma sameStanding_refl p : sameStanding p p.
Proof. repeat split. Qed.

Lemma sameStanding_trans a b c :
  sameStanding a b -> sameStanding b c -> sameStanding a c.
Proof.
  unfold sameStanding. intros H1 H2.
  decompose [and] H1. decompose [and] H2. repeat split; congruence.
Qed.

(** C6: in a store whose participant table is well formed, no sequence of
    inputs ever yields two participant rows for one (game id, user id)
    pair; and a JOIN_GAME by a user who already has a row in the game
    resolves to that row, with the same row id, time bank, tokens,
    elimination flag and bid fields.  Only the host and ready flags can
    differ, and only when the user is the game's creator. *)
Theorem C6_one_row_per_pair_and_rejoin_keeps_it st :
  wf_storage (storage st) ->
  (forall inputs g u,
     (length (rowsOf (storage (fst (run st inputs))) g u) <= 1)%nat) /\
  (forall gid uid ws p,
     getParticipant (storage st) gid uid = Some p ->
     exists p',
       getParticipant (storage (fst (handleJoinGame st gid uid ws))) gid uid = Some p' /\
       sameStanding p p' /\
       (forall game, getGame (storage st) gid = Some game ->
                     createdById game <> uid -> p' = p)).
Proof.
  intros Hwf. split.
  - intros inputs g u. apply wf_rows_at_most_one. apply run_wf. assumption.
  - intros gid uid ws p Hp.
    assert (E : evolves sameStanding (fun _ _ => True) (storage st)
                  (storage (fst (handleJoinGame st gid uid ws)))).
    { apply handleJoinGame_evolves;
        first [ exact sameStanding_refl | exact sameStanding_trans
              | (intros; exact I) | (intros; repeat split) ]. }
    destruct E as (EP & _ & _).
    destruct (EP gid uid p Hp) as (p' & Hp' & Hsame).
    exists p'. split; [assumption|]. split; [assumption|].
    intros game Hg Hne. revert Hp'. unfold handleJoinGame.
    rewrite Hg, Hp. rewrite andb_false_r.
    unfold joinStore. rewrite Hp.
    apply Z.eqb_neq in Hne. rewrite Hne. simpl.
    rewrite Hp. intros H. injection H as <-. reflexivity.
Qed.

Lemma C6_one_row_per_pair_and_rejoin_keeps_it_witness :
  (forall inputs g u,
     (length (rowsOf (storage (fst (run Examples.arenaOneBid inputs))) g u) <= 1)%nat) /\
  (forall gid uid ws p,
     getParticipant (storage Examples.arenaOneBid) gid uid = Some p ->
     exists p',
       getParticipant (storage (fst (handleJoinGame Examples.arenaOneBid gid uid ws)))
         gid uid = Some p' /\
       sameStanding p p' /\
       (forall game, getGame (storage Examples.arenaOneBid) gid = Some game ->
                     createdById game <> uid -> p' = p)).
Proof.
  apply (C6_one_row_per_pair_and_rejoin_keeps_it Examples.arenaOneBid).
  wf_by_computation.
Defined.

(** ** Game completion *)

Lemma compareRankings_le x y :
  Qle_bool (compareRankings x y) 0 = true -> ranksBefore x y.
Proof.
  intros H. apply Qle_bool_iff in H. unfold compareRankings in H.
  unfold ranksBefore. destruct (tokens y =? tokens x) eqn:E; simpl in H.
  - apply Z.eqb_eq in E. right. split; [congruence|]. lra.
  - apply Z.eqb_neq in E. left.
    unfold Qle in H. simpl in H. lia.
Qed.

Lemma compareRankings_gt x y :
  Qle_bool (compareRankings x y) 0 = false -> ranksBefore y x.
Proof.
  intros H.
  assert (Hn : ~ (compareRankings x y <= 0)%Q).
  { intros Hle. apply Qle_bool_iff in Hle. congruence. }
  unfold compareRankings in Hn. unfold ranksBefore.
  destruct (tokens y =? tokens x) eqn:E; simpl in Hn.
  - apply Z.eqb_eq in E. right. split; [assumption|].
    apply Qnot_le_lt in Hn. lra.
  - left. unfold Qle in Hn. simpl in Hn. lia.
Qed.

Lemma ranksBefore_trans a b c :
  ranksBefore a b -> ranksBefore b c -> ranksBefore a c.
Proof.
  unfold ranksBefore. intros [H1|[H1 T1]] [H2|[H2 T2]].
  - left. lia.
  - left. lia.
  - left. lia.
  - right. split; [congruence|]. eapply Qle_trans; eassumption.
Qed.

Lemma insertRanking_perm x l : Permutation (insertRanking x l) (x :: l).
Proof.
  induction l as [|y l IH]; simpl; [reflexivity|].
  destruct (Qle_bool (compareRankings x y) 0); [reflexivity|].
  rewrite IH. apply perm_swap.
Qed.

Lemma sortRankings_perm l : Permutation (sortRankings l) l.
Proof.
  induction l as [|x l IH]; simpl; [reflexivity|].
  rewrite insertRanking_perm. constructor. assumption.
Qed.

Lemma insertRanking_sorted x l :
  StronglySorted ranksBefore l -> StronglySorted ranksBefore (insertRanking x l).
Proof.
  induction l as [|y l IH]; intros Hs; simpl.
  - constructor; constructor.
  - inversion Hs as [|? ? Hs' Hall]; subst.
    destruct (Qle_bool (compareRankings x y) 0) eqn:E.
    + apply compareRankings_le in E. constructor; [assumption|].
      constructor; [assumption|].
      eapply Forall_impl; [|exact Hall].
      intros z Hz. eapply ranksBefore_trans; eassumption.
    + apply compareRankings_gt in E. constructor; [apply IH; assumption|].
      apply Forall_forall. intros z Hz.
      apply (Permutation_in _ (insertRanking_perm x l)) in Hz.
      destruct Hz as [<-|Hz]; [assumption|].
      rewrite Forall_forall in Hall. auto.
Qed.

Lemma sortRankings_sorted l : StronglySorted ranksBefore (sortRankings l).
Proof.
  induction l as [|x l IH]; simpl; [constructor|].
  apply insertRanking_sorted. assumption.
Qed.

Lemma lowestTokens_le l m :
  lowestTokens l = Some m -> forall q, In q l -> m <= tokensWon q.
Proof.
  revert m. induction l as [|p l IH]; intros m H q Hq; simpl in *; [contradiction|].
  destruct (lowestTokens l) as [m'|] eqn:E.
  - injection H as <-. destruct Hq as [<-|Hq]; [lia|].
    specialize (IH m' eq_refl q Hq). lia.
  - injection H as <-. destruct Hq as [<-|Hq]; [lia|].
    destruct l; [contradiction|]. simpl in E.
    destruct (lowestTokens l); discriminate.
Qed.

Lemma lowestTokens_attained l m :
  lowestTokens l = Some m -> exists q, In q l /\ tokensWon q = m.
Proof.
  revert m. induction l as [|p l IH]; intros m H; simpl in *; [discriminate|].
  destruct (lowestTokens l) as [m'|] eqn:E.
  - injection H as <-. destruct (IH m' eq_refl) as (q & Hq & Hm).
    destruct (Z.min_spec (tokensWon p) m') as [[_ ->]|[_ ->]]; eauto.
  - injection H as <-. eauto.
Qed.

Lemma lowestTokens_of_minimum l p :
  In p l -> (forall q, In q l -> tokensWon p <= tokensWon q) ->
  isLowest (lowestTokens l) p = true.
Proof.
  intros Hin Hmin. destruct (lowestTokens l) as [m|] eqn:E.
  - simpl. apply Z.eqb_eq.
    pose proof (lowestTokens_le l m E p Hin).
    destruct (lowestTokens_attained l m E) as (q & Hq & <-).
    specialize (Hmin q Hq). lia.
  - destruct l as [|a l]; [contradiction|]. simpl in E.
    destruct (lowestTokens l); discriminate.
Qed.

(** The elimination loop of [endGame] reaches every row that is at the
    minimum. *)
Lemma eliminate_loop g lowest l : forall s p,
  In p l -> isLowest lowest p = true ->
  (exists q, getParticipant s g (userId p) = Some q) ->
  exists p',
    getParticipant
      (fold_left
         (fun s participant =>
            if isLowest lowest participant
            then eliminateParticipant s g (userId participant)
            else s)
         l s) g (userId p) = Some p' /\
    isEliminated p' = true.
Proof.
  assert (Hstep : forall s a,
            evolves staysEliminated (fun _ _ => True) s
              (if isLowest lowest a then eliminateParticipant s g (userId a) else s)).
  { intros s a. destruct (isLowest lowest a).
    - apply updateParticipant_evolves; unfold staysEliminated; auto.
      intro q. split; reflexivity.
    - apply evolves_refl; unfold staysEliminated; auto. }
  induction l as [|a l IH]; intros s p Hin Hlow [q Hq]; [contradiction|].
  simpl. destruct Hin as [->|Hin].
  - rewrite Hlow.
    assert (Hq' : getParticipant (eliminateParticipant s g (userId p)) g (userId p)
                  = Some (with_isEliminated q true)).
    { unfold eliminateParticipant.
      rewrite getParticipant_updateParticipant, key_eqb_refl, Hq. reflexivity. }
    assert (E : evolves staysEliminated (fun _ _ => True)
                  (eliminateParticipant s g (userId p))
                  (fold_left
                     (fun s participant =>
                        if isLowest lowest participant
                        then eliminateParticipant s g (userId participant)
                        else s)
                     l (eliminateParticipant s g (userId p)))).
    { apply fold_left_evolves; unfold staysEliminated; auto. }
    destruct E as (EP & _ & _).
    destruct (EP _ _ _ Hq') as (p' & Hp' & Hst).
    exists p'. split; [assumption|]. apply Hst. reflexivity.
  - apply IH; try assumption.
    destruct (Hstep s a) as (EP & _ & _).
    destruct (EP _ _ _ Hq) as (q' & Hq' & _). eauto.
Qed.

Lemma getUser_eliminate_loop g lowest l : forall s id,
  getUser
    (fold_left
       (fun s participant =>
          if isLowest lowest participant
          then eliminateParticipant s g (userId participant)
          else s)
       l s) id = getUser s id.
Proof.
  induction l as [|a l IH]; intros s id; simpl; [reflexivity|].
  rewrite IH. destruct (isLowest lowest a); [|reflexivity].
  apply getUser_updateParticipant.
Qed.

Lemma getGame_eliminate_loop g lowest l : forall s id,
  getGame
    (fold_left
       (fun s participant =>
          if isLowest lowest participant
          then eliminateParticipant s g (userId participant)
          else s)
       l s) id = getGame s id.
Proof.
  induction l as [|a l IH]; intros s id; simpl; [reflexivity|].
  rewrite IH. destruct (isLowest lowest a); [|reflexivity].
  apply getGame_updateParticipant.
Qed.

(** C7: when [endGame] runs on a game of a well-formed store, the game is
    marked completed; every participant whose tokens equal the minimum over
    all the game's participants ends up eliminated, all of those tied at
    the minimum together; and the GAME_END broadcast carries one ranking
    entry for each participant of the game, with that participant's user
    id, tokens won and remaining time bank (0 for a null time bank) under
    the user's names, the entries ordered by tokens descending and, among
    equal tokens, by remaining time descending. *)
Theorem C7_end_game_eliminates_minimum_and_sorts st gid game :
  wf_storage (storage st) ->
  getGame (storage st) gid = Some game ->
  (forall p,
     In p (getParticipantsByGame (storage st) gid) ->
     (forall q, In q (getParticipantsByGame (storage st) gid) ->
                tokensWon p <= tokensWon q) ->
     exists p',
       getParticipant (storage (fst (endGame st gid))) gid (userId p) = Some p' /\
       isEliminated p' = true) /\
  (exists game',
     getGame (storage (fst (endGame st gid))) gid = Some game' /\
     status game' = completed) /\
  (exists rankings ranked,
     snd (endGame st gid) = [Broadcast gid (GAME_END gid rankings)] /\
     StronglySorted ranksBefore rankings /\
     Permutation ranked (getParticipantsByGame (storage st) gid) /\
     Forall2 (ranksParticipant (storage st)) rankings ranked).
Proof.
  intros Hwf Hg. unfold endGame. rewrite Hg. cbn [fst snd storage].
  assert (Hl : getParticipantsByGame (updateGameStatus (storage st) gid completed) gid
               = getParticipantsByGame (storage st) gid)
    by (unfold updateGameStatus; apply getParticipantsByGame_updateGame).
  rewrite !Hl.
  set (l := getParticipantsByGame (storage st) gid).
  split; [|split].
  - intros p Hin Hmin. apply eliminate_loop.
    + assumption.
    + apply lowestTokens_of_minimum; assumption.
    + exists p. unfold updateGameStatus. rewrite getParticipant_updateGame.
      apply (in_game_getParticipant _ _ _ Hwf Hin).
  - exists (with_status game completed). split; [|reflexivity].
    rewrite getGame_eliminate_loop. unfold updateGameStatus.
    rewrite getGame_updateGame, Z.eqb_refl, Hg. reflexivity.
  - set (s2 := fold_left _ l _).
    destruct (Permutation_map_inv (toRanking s2) l (sortRankings_perm (map (toRanking s2) l)))
      as (ranked & Hr & Hperm).
    exists (sortRankings (map (toRanking s2) l)), ranked.
    split; [reflexivity|]. split; [apply sortRankings_sorted|].
    split; [symmetry; exact Hperm|].
    rewrite Hr. clear Hr Hperm.
    assert (Hu : forall id, getUser s2 id = getUser (storage st) id).
    { intros id. unfold s2. rewrite getUser_eliminate_loop.
      unfold updateGameStatus. apply getUser_updateGame. }
    induction ranked as [|p ranked IH]; simpl; constructor; [|exact IH].
    unfold ranksParticipant, toRanking. cbn [r_userId tokens timeRemaining r_username
                                              r_displayName].
    rewrite Hu. repeat (split; [reflexivity|]).
    destruct (getUser (storage st) (userId p)); split; reflexivity.
Qed.

Lemma C7_end_game_eliminates_minimum_and_sorts_witness :
  (forall p,
     In p (getParticipantsByGame (storage Examples.arenaOneBid) 1) ->
     (forall q, In q (getParticipantsByGame (storage Examples.arenaOneBid) 1) ->
                tokensWon p <= tokensWon q) ->
     exists p',
       getParticipant (storage (fst (endGame Examples.arenaOneBid 1))) 1 (userId p)
         = Some p' /\
       isEliminated p' = true) /\
  (exists game',
     getGame (storage (fst (endGame Examples.arenaOneBid 1))) 1 = Some game' /\
     status game' = completed) /\
  (exists rankings ranked,
     snd (endGame Examples.arenaOneBid 1) = [Broadcast 1 (GAME_END 1 rankings)] /\
     StronglySorted ranksBefore rankings /\
     Permutation ranked (getParticipantsByGame (storage Examples.arenaOneBid) 1) /\
     Forall2 (ranksParticipant (storage Examples.arenaOneBid)) rankings ranked).
Proof.
  apply (C7_end_game_eliminates_minimum_and_sorts Examples.arenaOneBid 1
           (mkGame 1 3 in_progress 0 3 60 true false 0 None)).
  - wf_by_computation.
  - reflexivity.
Defined.

(** * Further properties of the orchestrator *)

(** ** Every handler writes through the guarded primitives *)

Lemma writes_trans allowed s1 s2 s3 :
  writes allowed s1 s2 -> writes allowed s2 s3 -> writes allowed s1 s3.
Proof.
  induction 1 as [|s s' s'' gid Ha Hp Hw IH]; intros H3; [assumption|].
  apply (writes_step allowed s s' s3 gid Ha Hp). apply IH. assumption.
Qed.

Lemma writes_one (allowed : Z -> Prop) gid s s' :
  allowed gid -> prim gid s s' -> writes allowed s s'.
Proof. intros Ha Hp. eapply writes_step; [exact Ha | exact Hp | apply writes_refl]. Qed.

Lemma writes_weaken (A B : Z -> Prop) s s' :
  (forall g, A g -> B g) -> writes A s s' -> writes B s s'.
Proof.
  intros HAB. induction 1 as [|s s' s'' gid Ha Hp Hw IH]; [apply writes_refl|].
  apply (writes_step B s s' s'' gid (HAB gid Ha) Hp IH).
Qed.

Lemma writes_fold {A : Type} allowed (f : MemStorage -> A -> MemStorage) l :
  (forall s a, writes allowed s (f s a)) ->
  forall s, writes allowed s (fold_left f l s).
Proof.
  intros Hf. induction l as [|a l IH]; intros s; simpl; [apply writes_refl|].
  eapply writes_trans; [apply Hf | apply IH].
Qed.

Lemma joinStore_writes s game g u s' :
  joinStore s game g u = Some s' -> writes (eq g) s s'.
Proof.
  unfold joinStore. destruct (getParticipant s g u) as [p|] eqn:Ep.
  - destruct ((createdById game =? u) && negb (isHost p)).
    + destruct (find isHost (getParticipantsByGame s g)) eqn:F.
      { intros H. injection H as <-. apply writes_refl. }
      assert (W2 : writes (eq g) s
                     (updateGameHost (updateParticipantHostStatus s g u true) g u)).
      { eapply writes_step; [reflexivity | apply prim_host; exact F |].
        eapply writes_one; [reflexivity | apply prim_creator]. }
      destruct (getParticipant (updateGameHost _ g u) g u) as [p'|];
        [destruct (negb (isReady p'))|]; intros H; injection H as <-;
        try exact W2.
      eapply writes_trans; [exact W2|].
      eapply writes_one; [reflexivity | apply prim_ready].
    + intros H. injection H as <-. apply writes_refl.
  - destruct (getUser s u); [|discriminate].
    set (sh := (createdById game =? u)
               && negb (isSome (find isHost (getParticipantsByGame s g)))).
    assert (Hsh : sh = true -> find isHost (getParticipantsByGame s g) = None).
    { unfold sh. intros H. apply andb_true_iff in H. destruct H as [_ H].
      destruct (find isHost (getParticipantsByGame s g)); [discriminate|reflexivity]. }
    pose proof (prim_add g s u sh (startingTimeBank game) Ep Hsh) as Pa.
    destruct (addParticipant s g u sh sh (startingTimeBank game) false)
      as [s1 p1]. simpl in Pa.
    destruct sh; intros H; injection H as <-.
    + eapply writes_step; [reflexivity | exact Pa |].
      eapply writes_one; [reflexivity | apply prim_creator].
    + eapply writes_one; [reflexivity | exact Pa].
Qed.

Lemma handleJoinGame_writes st g u ws :
  writes (eq g) (storage st) (storage (fst (handleJoinGame st g u ws))).
Proof.
  unfold handleJoinGame. destruct (getGame (storage st) g) as [game|];
    [|apply writes_refl].
  destruct (negb (status_eqb (status game) waiting)
            && negb (isSome (getParticipant (storage st) g u)));
    [apply writes_refl|].
  destruct (joinStore (storage st) game g u) as [s'|] eqn:J; [|apply writes_refl].
  simpl. eapply joinStore_writes. eassumption.
Qed.

Lemma handlePlayerReady_storage st g u r :
  storage (fst (handlePlayerReady st g u r)) =
  updateParticipantReadyStatus (storage st) g u r.
Proof.
  unfold handlePlayerReady. destruct (getGame _ g) as [game|]; [|reflexivity].
  destruct (status_eqb (status game) waiting && _); [|reflexivity].
  destruct (forallb _ _); reflexivity.
Qed.

Lemma handlePlayerReady_writes st g u r :
  writes (eq g) (storage st) (storage (fst (handlePlayerReady st g u r))).
Proof.
  rewrite handlePlayerReady_storage.
  eapply writes_one; [reflexivity | apply prim_ready].
Qed.

Lemma startGame_writes st g :
  writes (eq g) (storage st) (storage (fst (startGame st g))).
Proof.
  unfold startGame. destruct (getGame (storage st) g) as [game|] eqn:Hg;
    [|apply writes_refl].
  destruct (status_eqb (status game) waiting) eqn:Hs; [|apply writes_refl].
  simpl. apply status_eqb_eq in Hs.
  eapply writes_one; [reflexivity | eapply prim_start; eassumption].
Qed.

Lemma endGame_writes st g :
  writes (eq g) (storage st) (storage (fst (endGame st g))).
Proof.
  unfold endGame. destruct (getGame (storage st) g) as [game|];
    [|apply writes_refl].
  simpl. eapply writes_step; [reflexivity | apply prim_complete |].
  apply writes_fold. intros s p.
  destruct (isLowest _ p); [|apply writes_refl].
  eapply writes_one; [reflexivity | apply prim_elim].
Qed.

Lemma resolveRound_writes s game g ps w :
  getGame s g = Some game -> writes (eq g) s (resolveRound s game g ps w).
Proof.
  intros Hg. unfold resolveRound.
  set (s1 := match w with
             | Some w0 => updateParticipantTokens s g (p_id w0) (tokensWon w0 + 1)
             | None => s
             end).
  assert (W1 : writes (eq g) s s1).
  { subst s1. destruct w; [|apply writes_refl].
    eapply writes_one; [reflexivity | apply prim_tokens]. }
  assert (Hg1 : getGame s1 g = Some game).
  { subst s1. destruct w; [|assumption].
    unfold updateParticipantTokens. rewrite getGame_updateParticipant. assumption. }
  eapply writes_trans; [exact W1|].
  eapply writes_step; [reflexivity | apply (prim_round g s1 game); exact Hg1 |].
  apply writes_fold. intros s0 p.
  eapply writes_one; [reflexivity | apply prim_bid].
Qed.

Lemma endCurrentRound_writes st g :
  writes (eq g) (storage st) (storage (fst (endCurrentRound st g))).
Proof.
  unfold endCurrentRound. destruct (getGame (storage st) g) as [game|] eqn:Hg;
    [|apply writes_refl].
  destruct (negb (status_eqb (status game) in_progress)); [apply writes_refl|].
  cbv zeta.
  set (s3 := resolveRound (storage st) game g _ _).
  assert (W : writes (eq g) (storage st) s3) by (apply resolveRound_writes; exact Hg).
  cbn [storage].
  destruct (getGame s3 g) as [game'|]; [|exact W].
  destruct (totalRounds game' <=? currentRound game' - 1); [|exact W].
  pose proof (endGame_writes (mkState s3 (gameClients st)) g) as W'.
  destruct (endGame _ g) as [st4 outs]. simpl in *.
  eapply writes_trans; eassumption.
Qed.

Lemma recordBid_writes s g u p h : writes (eq g) s (recordBid s g u p h).
Proof.
  unfold recordBid.
  eapply writes_trans with
    (s2 := match timeBank p with
           | Some tb => updateParticipantTimeBank s g u (Qmax 0 (tb - h / 1000))
           | None => s
           end).
  - destruct (timeBank p); [|apply writes_refl].
    eapply writes_one; [reflexivity | apply prim_time].
  - eapply writes_one; [reflexivity | apply prim_bid].
Qed.

Lemma handleBuzzerRelease_writes st g u h :
  writes (eq g) (storage st) (storage (fst (handleBuzzerRelease st g u h))).
Proof.
  unfold handleBuzzerRelease.
  destruct (getGame (storage st) g) as [game|]; [|apply writes_refl].
  destruct (negb (status_eqb (status game) in_progress)); [apply writes_refl|].
  destruct (getParticipant (storage st) g u) as [p|]; [|apply writes_refl].
  destruct (isEliminated p); [apply writes_refl|].
  destruct (hasBidThisRound p); [apply writes_refl|].
  pose proof (recordBid_writes (storage st) g u p h) as W. simpl.
  destruct (allActivePlayersHaveBid _ g); [|exact W].
  pose proof (endCurrentRound_writes
                (mkState (recordBid (storage st) g u p h) (gameClients st)) g) as W'.
  destruct (endCurrentRound _ g) as [st2 outs]. simpl in *.
  eapply writes_trans; eassumption.
Qed.

Lemma handleEmptyGame_writes st g :
  writes (eq g) (storage st) (storage (handleEmptyGame st g)).
Proof.
  unfold handleEmptyGame. destruct (getGame (storage st) g) as [game|];
    [|apply writes_refl].
  destruct (_ || _); [|apply writes_refl].
  simpl. eapply writes_one; [reflexivity | apply prim_complete].
Qed.

Lemma cleanupGames_writes st :
  writes anyGame (storage st) (storage (cleanupGames st)).
Proof.
  unfold cleanupGames. generalize (getPublicGames (storage st)) as l.
  intros l. revert st. induction l as [|game l IH]; intros st; simpl.
  - apply writes_refl.
  - eapply writes_trans; [|apply IH].
    unfold cleanupGame. destruct (_ || _); [|apply writes_refl].
    simpl. eapply writes_one; [exact I | apply prim_complete].
Qed.

Lemma onClose_storage st ws u g : storage (fst (onClose st ws u g)) = storage st.
Proof.
  unfold onClose. destruct (_ && _); [|reflexivity].
  destruct (JsMap.get Z.eqb (gameClients st) g) as [room|]; [|reflexivity].
  destruct (JsMap.get Z.eqb room u) as [socket|]; [|reflexivity].
  destruct (_ =? _)%nat; reflexivity.
Qed.

Lemma onMessage_writes st ws u data :
  writes (eq (d_gameId data)) (storage st) (storage (fst (onMessage st ws u data))).
Proof.
  unfold onMessage. destruct (u =? 0); [apply writes_refl|].
  destruct (d_type data), (d_holdTime data) as [h|];
    destruct (negb (d_gameId data =? 0));
    try apply writes_refl;
    try apply handleJoinGame_writes;
    try apply handlePlayerReady_writes.
  apply handleBuzzerRelease_writes.
Qed.

Lemma step_writes st i :
  writes anyGame (storage st) (storage (fst (step st i))).
Proof.
  destruct i as [ws u data| ws u g | g | g |]; simpl.
  - eapply writes_weaken; [|apply onMessage_writes]. intros; exact I.
  - rewrite onClose_storage. apply writes_refl.
  - eapply writes_weaken; [|apply startGame_writes]. intros; exact I.
  - eapply writes_weaken; [|apply handleEmptyGame_writes]. intros; exact I.
  - apply cleanupGames_writes.
Qed.

Lemma run_writes inputs : forall st,
  writes anyGame (storage st) (storage (fst (run st inputs))).
Proof.
  induction inputs as [|i rest IH]; intros st; simpl; [apply writes_refl|].
  pose proof (step_writes st i) as W1.
  destruct (step st i) as [st1 outs1]. simpl in W1.
  pose proof (IH st1) as W2.
  destruct (run st1 rest) as [st2 outs2]. simpl in *.
  eapply writes_trans; eassumption.
Qed.

(** ** More facts about insertion-ordered maps *)

Lemma values_set_absent {K V : Type} (eqb : K -> K -> bool) (m : list (K * V)) k v :
  JsMap.get eqb m k = None -> JsMap.set eqb m k v = m ++ [(k, v)].
Proof.
  induction m as [|[k0 v0] m IH]; simpl; [reflexivity|].
  destruct (eqb k0 k); [discriminate|]. intros H. f_equal. auto.
Qed.

Lemma filter_set_present {K V : Type} (eqb : K -> K -> bool) (P : V -> bool)
    (m : list (K * V)) k v old :
  JsMap.get eqb m k = Some old ->
  (length (filter P (JsMap.values (JsMap.set eqb m k v)))
   + (if P old then 1 else 0)
   = length (filter P (JsMap.values m)) + (if P v then 1 else 0))%nat.
Proof.
  induction m as [|[k0 v0] m IH]; simpl; [discriminate|].
  destruct (eqb k0 k); simpl.
  - intros H. injection H as ->. destruct (P old), (P v); simpl; lia.
  - intros H. specialize (IH H). destruct (P v0); simpl; lia.
Qed.

Lemma filter_set_unseen {K V : Type} (eqb : K -> K -> bool) (P : V -> bool)
    (m : list (K * V)) k v :
  P v = false ->
  (forall old, JsMap.get eqb m k = Some old -> P old = false) ->
  filter P (JsMap.values (JsMap.set eqb m k v)) = filter P (JsMap.values m).
Proof.
  intros Hv. induction m as [|[k0 v0] m IH]; simpl; intros Hold.
  - rewrite Hv. reflexivity.
  - destruct (eqb k0 k); simpl.
    + rewrite Hv, (Hold v0 eq_refl). reflexivity.
    + rewrite IH by assumption. reflexivity.
Qed.

Lemma map_set_same {K V B : Type} (eqb : K -> K -> bool) (f : V -> B)
    (m : list (K * V)) k v old :
  JsMap.get eqb m k = Some old -> f v = f old ->
  map (fun kv => f (snd kv)) (JsMap.set eqb m k v) = map (fun kv => f (snd kv)) m.
Proof.
  intros Hg Hf. revert Hg. induction m as [|[k0 v0] m IH]; simpl; [discriminate|].
  destruct (eqb k0 k); simpl.
  - intros H. injection H as ->. rewrite Hf. reflexivity.
  - intros H. rewrite IH by assumption. reflexivity.
Qed.

Lemma In_delete {K V : Type} (eqb : K -> K -> bool) (m : list (K * V)) k kv :
  In kv (JsMap.delete eqb m k) -> In kv m.
Proof.
  induction m as [|[k0 v0] m IH]; simpl; [tauto|].
  destruct (eqb k0 k); simpl; [tauto|]. intros [H|H]; auto.
Qed.

Lemma get_delete_other (m : list (Z * list (Z * WebSocket))) k k' :
  k <> k' -> JsMap.get Z.eqb (JsMap.delete Z.eqb m k) k' = JsMap.get Z.eqb m k'.
Proof.
  intros Hne. induction m as [|[k0 v0] m IH]; simpl; [reflexivity|].
  destruct (Z.eqb_spec k0 k) as [->|Hk]; simpl.
  - destruct (Z.eqb_spec k k'); [contradiction|reflexivity].
  - rewrite IH. reflexivity.
Qed.

Lemma find_none_filter {A : Type} (P Q : A -> bool) (l : list A) :
  find P (filter Q l) = None -> filter (fun x => Q x && P x) l = [].
Proof.
  induction l as [|a l IH]; simpl; [reflexivity|].
  destruct (Q a); simpl; [|assumption].
  destruct (P a); [discriminate|assumption].
Qed.

(** ** What every write keeps *)

Lemma prim_wf gid s s' : prim gid s s' -> wf_storage s -> wf_storage s'.
Proof.
  intros Hp Hwf.
  destruct Hp;
    try (apply updateParticipant_wf; [intro q; split; reflexivity | assumption]);
    try (apply updateGame_wf; assumption).
  apply addParticipant_wf. assumption.
Qed.

Lemma writes_wf allowed s s' : writes allowed s s' -> wf_storage s -> wf_storage s'.
Proof.
  induction 1 as [|s s' s'' gid Ha Hp Hw IH]; intros Hwf; [assumption|].
  apply IH. eapply prim_wf; eassumption.
Qed.

Lemma gameAdvances_refl g : gameAdvances g g.
Proof. unfold gameAdvances. repeat split; lia. Qed.

Lemma gameAdvances_trans a b c :
  gameAdvances a b -> gameAdvances b c -> gameAdvances a c.
Proof.
  unfold gameAdvances. intros H1 H2.
  decompose [and] H1. decompose [and] H2.
  repeat split; try congruence; lia.
Qed.

Lemma prim_games gid s s' :
  prim gid s s' ->
  forall id game, getGame s id = Some game ->
    exists game', getGame s' id = Some game' /\ gameAdvances game game'.
Proof.
  intros Hp id game Hg.
  assert (Hrow : forall u f,
            exists game', getGame (updateParticipant s gid u f) id = Some game' /\
                          gameAdvances game game').
  { intros u f. rewrite getGame_updateParticipant.
    exists game. split; [assumption | apply gameAdvances_refl]. }
  assert (Hgame : forall f,
            (getGame s gid = Some game -> gameAdvances game (f game)) ->
            exists game', getGame (updateGame s gid f) id = Some game' /\
                          gameAdvances game game').
  { intros f Hf. rewrite getGame_updateGame.
    destruct (Z.eqb_spec gid id) as [->|Hne].
    - rewrite Hg. simpl. eauto.
    - exists game. split; [assumption | apply gameAdvances_refl]. }
  destruct Hp; try apply Hrow.
  - exists game. split; [exact Hg | apply gameAdvances_refl].
  - apply Hgame. intros Hg'. rewrite Hg' in H. injection H as <-.
    unfold gameAdvances. simpl. rewrite H0. simpl. repeat split; lia.
  - apply Hgame. intros _. unfold gameAdvances. simpl.
    repeat split; try lia. destruct (status game); simpl; lia.
  - apply Hgame. intros _. unfold gameAdvances. simpl. repeat split; lia.
  - apply Hgame. intros Hg'. rewrite Hg' in H. injection H as <-.
    unfold gameAdvances. simpl. repeat split; lia.
Qed.

Lemma writes_games allowed s s' :
  writes allowed s s' ->
  forall id game, getGame s id = Some game ->
    exists game', getGame s' id = Some game' /\ gameAdvances game game'.
Proof.
  induction 1 as [|s s' s'' gid Ha Hp Hw IH]; intros id game Hg.
  - exists game. split; [assumption | apply gameAdvances_refl].
  - destruct (prim_games gid s s' Hp id game Hg) as (g1 & Hg1 & A1).
    destruct (IH id g1 Hg1) as (g2 & Hg2 & A2).
    exists g2. split; [assumption | eapply gameAdvances_trans; eassumption].
Qed.

(** A write on game [gid] leaves the records, the rows and the listings of
    every other game as they were, and never touches the users. *)
Lemma prim_other gid s s' :
  prim gid s s' ->
  forall id, id <> gid ->
    getGame s' id = getGame s id /\
    (forall u, getParticipant s' id u = getParticipant s id u).
Proof.
  intros Hp id Hne.
  assert (Hk : forall u u', key_eqb (gid, u) (id, u') = false).
  { intros u u'. destruct (key_eqb (gid, u) (id, u')) eqn:K; [|reflexivity].
    apply key_eqb_eq in K. injection K as -> _. contradiction. }
  assert (Hrow : forall u f,
            getGame (updateParticipant s gid u f) id = getGame s id /\
            (forall u', getParticipant (updateParticipant s gid u f) id u'
                        = getParticipant s id u')).
  { intros u f. split; [apply getGame_updateParticipant|].
    intros u'. rewrite getParticipant_updateParticipant, Hk. reflexivity. }
  assert (Hgame : forall f,
            getGame (updateGame s gid f) id = getGame s id /\
            (forall u', getParticipant (updateGame s gid f) id u'
                        = getParticipant s id u')).
  { intros f. split; [|intros u'; apply getParticipant_updateGame].
    rewrite getGame_updateGame.
    destruct (Z.eqb_spec gid id); [congruence|reflexivity]. }
  destruct Hp; try apply Hrow; try apply Hgame.
  split; [reflexivity|]. intros u'.
  unfold getParticipant, participantKey. simpl.
  apply JsMapFacts.get_set_other; [apply key_eqb_eq|].
  intros K. injection K as -> _. contradiction.
Qed.

Lemma writes_other gid s s' :
  writes (eq gid) s s' ->
  forall id, id <> gid ->
    getGame s' id = getGame s id /\
    (forall u, getParticipant s' id u = getParticipant s id u).
Proof.
  induction 1 as [|s s' s'' g Ha Hp Hw IH]; intros id Hne; [auto|].
  subst g. destruct (prim_other gid s s' Hp id Hne) as [G1 P1].
  destruct (IH id Hne) as [G2 P2]. split; [congruence|].
  intros u. rewrite P2. apply P1.
Qed.

Lemma updateParticipant_listing_other s gid u f id :
  sameIdentity f -> wf_storage s -> id <> gid ->
  getParticipantsByGame (updateParticipant s gid u f) id = getParticipantsByGame s id.
Proof.
  intros Hf [_ Hkey] Hne. unfold updateParticipant.
  destruct (getParticipant s gid u) as [old|] eqn:E; [|reflexivity].
  unfold getParticipantsByGame. simpl.
  assert (Hold : gameId old = gid).
  { unfold getParticipant in E. apply JsMapFacts.get_In in E; [|apply key_eqb_eq].
    apply Hkey in E. unfold participantKey in E. injection E as E _. congruence. }
  apply filter_set_unseen.
  - destruct (Hf old) as [-> _]. apply Z.eqb_neq. congruence.
  - intros old' E'. unfold getParticipant in E. rewrite E in E'.
    injection E' as <-. apply Z.eqb_neq. congruence.
Qed.

Lemma prim_listing_other gid s s' :
  prim gid s s' -> wf_storage s ->
  forall id, id <> gid -> getParticipantsByGame s' id = getParticipantsByGame s id.
Proof.
  intros Hp Hwf id Hne.
  destruct Hp;
    try (apply updateParticipant_listing_other;
         [intro q; split; reflexivity | assumption | assumption]);
    try (unfold updateGameStatus, updateGameHost, updateGameRoundResults;
         apply getParticipantsByGame_updateGame).
  unfold getParticipantsByGame. simpl.
  unfold getParticipant in H.
  rewrite (values_set_absent key_eqb _ _ _ H).
  unfold JsMap.values. rewrite map_app, filter_app. simpl.
  destruct (Z.eqb_spec gid id); [congruence|]. apply app_nil_r.
Qed.

Lemma writes_listing_other gid s s' :
  writes (eq gid) s s' -> wf_storage s ->
  forall id, id <> gid -> getParticipantsByGame s' id = getParticipantsByGame s id.
Proof.
  induction 1 as [|s s' s'' g Ha Hp Hw IH]; intros Hwf id Hne; [reflexivity|].
  subst g. rewrite IH; [|eapply prim_wf; eassumption|assumption].
  eapply prim_listing_other; eassumption.
Qed.

Lemma prim_users gid s s' : prim gid s s' -> users s' = users s.
Proof.
  intros Hp.
  destruct Hp;
    try (unfold updateParticipantReadyStatus, updateParticipantHostStatus,
           updateParticipantTimeBank, updateParticipantTokens, eliminateParticipant,
           updateParticipantBidDetails, updateParticipant;
         match goal with |- context [getParticipant ?s ?g ?u] =>
           destruct (getParticipant s g u) end; reflexivity);
    try (unfold updateGameStatus, updateGameHost, updateGameRoundResults, updateGame;
         match goal with |- context [getGame ?s ?g] =>
           destruct (getGame s g) end; reflexivity).
  reflexivity.
Qed.

Lemma writes_users allowed s s' : writes allowed s s' -> users s' = users s.
Proof.
  induction 1 as [|s s' s'' gid Ha Hp Hw IH]; [reflexivity|].
  rewrite IH. eapply prim_users. eassumption.
Qed.

(** X1: a message that names game [g] changes nothing of any other game:
    the record, every participant row and the participant listing of each
    other game are as before, and so is the user table. *)
Theorem message_touches_one_game st ws u data :
  wf_storage (storage st) ->
  users (storage (fst (onMessage st ws u data))) = users (storage st) /\
  forall id, id <> d_gameId data ->
    getGame (storage (fst (onMessage st ws u data))) id = getGame (storage st) id /\
    (forall u', getParticipant (storage (fst (onMessage st ws u data))) id u'
                = getParticipant (storage st) id u') /\
    getParticipantsByGame (storage (fst (onMessage st ws u data))) id
    = getParticipantsByGame (storage st) id.
Proof.
  intros Hwf. pose proof (onMessage_writes st ws u data) as W.
  split; [eapply writes_users; eassumption|].
  intros id Hne.
  destruct (writes_other _ _ _ W id Hne) as [HG HP].
  split; [assumption|]. split; [assumption|].
  eapply writes_listing_other; eassumption.
Qed.

Lemma message_touches_one_game_witness :
  users (storage (fst (onMessage Examples.arena (Examples.sock 3) 3
                         (mkData T_BUZZER_RELEASE 1 false (Some 5000%Q)))))
  = users (storage Examples.arena) /\
  forall id, id <> 1 ->
    getGame (storage (fst (onMessage Examples.arena (Examples.sock 3) 3
                             (mkData T_BUZZER_RELEASE 1 false (Some 5000%Q))))) id
    = getGame (storage Examples.arena) id /\
    (forall u', getParticipant
                  (storage (fst (onMessage Examples.arena (Examples.sock 3) 3
                                   (mkData T_BUZZER_RELEASE 1 false (Some 5000%Q)))))
                  id u'
                = getParticipant (storage Examples.arena) id u') /\
    getParticipantsByGame
      (storage (fst (onMessage Examples.arena (Examples.sock 3) 3
                       (mkData T_BUZZER_RELEASE 1 false (Some 5000%Q))))) id
    = getParticipantsByGame (storage Examples.arena) id.
Proof.
  apply (message_touches_one_game Examples.arena (Examples.sock 3) 3
           (mkData T_BUZZER_RELEASE 1 false (Some 5000%Q))).
  wf_by_computation.
Defined.

(** X2: over every sequence of inputs a game record is never removed, its
    id and settings (total rounds, starting time bank, visibility, bot flag)
    never change, its round counter never falls, and its status only moves
    forward through waiting, in progress, completed; a completed game stays
    completed. *)
Theorem games_only_advance st inputs id game :
  getGame (storage st) id = Some game ->
  exists game',
    getGame (storage (fst (run st inputs))) id = Some game' /\
    gameAdvances game game' /\
    (status game = completed -> status game' = completed).
Proof.
  intros Hg.
  destruct (writes_games _ _ _ (run_writes inputs st) id game Hg) as (game' & Hg' & A).
  exists game'. split; [assumption|]. split; [assumption|].
  intros Hc. destruct A as (_ & _ & _ & _ & _ & Hr & _).
  rewrite Hc in Hr. destruct (status game'); simpl in Hr; try lia. reflexivity.
Qed.

Lemma games_only_advance_witness :
  exists game',
    getGame (storage (fst (run Examples.lobby0 (Examples.opening ++ Examples.round1)))) 1
      = Some game' /\
    gameAdvances (mkGame 1 3 waiting 0 3 60 true false 0 None) game' /\
    (status (mkGame 1 3 waiting 0 3 60 true false 0 None) = completed ->
     status game' = completed).
Proof.
  apply (games_only_advance Examples.lobby0 (Examples.opening ++ Examples.round1) 1
           (mkGame 1 3 waiting 0 3 60 true false 0 None)).
  reflexivity.
Defined.

(** ** One host per game *)

Lemma hostsOf_updateParticipant_same s gid u f g :
  (forall p, gameId (f p) = gameId p /\ isHost (f p) = isHost p) ->
  length (hostsOf (updateParticipant s gid u f) g) = length (hostsOf s g).
Proof.
  intros Hf. unfold updateParticipant.
  destruct (getParticipant s gid u) as [old|] eqn:E; [|reflexivity].
  unfold hostsOf. simpl. unfold getParticipant in E.
  pose proof (filter_set_present key_eqb
                (fun p => (gameId p =? g) && isHost p)
                (gameParticipants s) (participantKey gid u) (f old) old E) as H.
  simpl in H. destruct (Hf old) as [Hg Hh]. rewrite Hg, Hh in H.
  destruct ((gameId old =? g) && isHost old); lia.
Qed.

Lemma prim_hosts gid s s' :
  prim gid s s' -> wf_storage s ->
  (forall g, (length (hostsOf s g) <= 1)%nat) ->
  forall g, (length (hostsOf s' g) <= 1)%nat.
Proof.
  intros Hp Hwf Hone g. specialize (Hone g).
  destruct Hp;
    try (unfold updateParticipantReadyStatus, updateParticipantTimeBank,
           updateParticipantTokens, eliminateParticipant, updateParticipantBidDetails;
         rewrite hostsOf_updateParticipant_same;
         [assumption | intro q; split; reflexivity]);
    try (unfold hostsOf, updateGameStatus, updateGameHost, updateGameRoundResults;
         rewrite gameParticipants_updateGame; exact Hone).
  - (* the host flag is set *)
    apply find_none_filter in H.
    unfold updateParticipantHostStatus, updateParticipant.
    destruct (getParticipant s gid u) as [old|] eqn:E; [|assumption].
    destruct (getParticipant_in_game s gid u old Hwf E) as (_ & Hg & _).
    unfold hostsOf in *. simpl. unfold getParticipant in E.
    pose proof (filter_set_present key_eqb
                  (fun p => (gameId p =? g) && isHost p)
                  (gameParticipants s) (participantKey gid u)
                  (with_isHost old true) old E) as Hc.
    simpl in Hc. rewrite Hg in Hc.
    destruct (Z.eqb_spec gid g) as [->|Hne].
    + unfold getParticipantsByGame in H. rewrite H in Hc. simpl in Hc.
      destruct (isHost old); simpl in Hc; lia.
    + simpl in Hc. lia.
  - (* a row is added *)
    unfold hostsOf, JsMap.values in *. simpl. unfold getParticipant in H.
    rewrite (values_set_absent key_eqb _ _ _ H), map_app, filter_app, length_app.
    simpl.
    destruct (Z.eqb_spec gid g) as [->|Hne]; simpl; [|lia].
    destruct sh; simpl; [|lia].
    specialize (H0 eq_refl). apply find_none_filter in H0.
    unfold getParticipantsByGame, JsMap.values in H0. rewrite H0. simpl. lia.
Qed.

Lemma writes_hosts allowed s s' :
  writes allowed s s' -> wf_storage s ->
  (forall g, (length (hostsOf s g) <= 1)%nat) ->
  forall g, (length (hostsOf s' g) <= 1)%nat.
Proof.
  induction 1 as [|s s' s'' gid Ha Hp Hw IH]; intros Hwf Hone; [assumption|].
  apply IH; [eapply prim_wf; eassumption | eapply prim_hosts; eassumption].
Qed.

(** X3: in a well-formed store where no game has two rows with the host
    flag, no sequence of inputs ever gives a game a second host: the host
    flag is only set on a joiner when the game has no host yet. *)
Theorem at_most_one_host_per_game st :
  wf_storage (storage st) ->
  (forall g, (length (hostsOf (storage st) g) <= 1)%nat) ->
  forall inputs g,
    (length (hostsOf (storage (fst (run st inputs))) g) <= 1)%nat.
Proof.
  intros Hwf Hone inputs. eapply writes_hosts; [apply run_writes | assumption..].
Qed.

Lemma at_most_one_host_per_game_witness :
  (length (hostsOf (storage (fst (run Examples.lobby0 Examples.opening))) 1) <= 1)%nat.
Proof.
  apply (at_most_one_host_per_game Examples.lobby0).
  - wf_by_computation.
  - intros g. unfold hostsOf.
    etransitivity; [apply filter_length_le | simpl; lia].
Defined.

(** ** Row ids *)

Lemma participantIdCounter_updateParticipant s g u f :
  participantIdCounter (updateParticipant s g u f) = participantIdCounter s.
Proof. unfold updateParticipant. destruct (getParticipant s g u); reflexivity. Qed.

Lemma freshRowIds_updateParticipant s g u f :
  (forall p, p_id (f p) = p_id p) ->
  freshRowIds s -> freshRowIds (updateParticipant s g u f).
Proof.
  intros Hf [Hlt Hnd]. unfold updateParticipant.
  destruct (getParticipant s g u) as [old|] eqn:E; [|split; assumption].
  unfold getParticipant in E. split; simpl.
  - intros k p Hin. apply (JsMapFacts.In_set _ key_eqb_eq) in Hin.
    destruct Hin as [[-> ->]|Hin]; [|eauto].
    rewrite Hf. apply JsMapFacts.get_In in E; [|apply key_eqb_eq]. eauto.
  - rewrite (map_set_same key_eqb p_id _ _ _ old E (Hf old)). assumption.
Qed.

Lemma prim_fresh gid s s' : prim gid s s' -> freshRowIds s -> freshRowIds s'.
Proof.
  intros Hp Hfr.
  destruct Hp;
    try (apply freshRowIds_updateParticipant; [intro q; reflexivity | assumption]);
    try (unfold updateGameStatus, updateGameHost, updateGameRoundResults, updateGame;
         match goal with |- context [getGame ?s ?g] =>
           destruct (getGame s g) end; exact Hfr).
  destruct Hfr as [Hlt Hnd]. unfold getParticipant in H. split; simpl.
  - intros k p Hin. apply (JsMapFacts.In_set _ key_eqb_eq) in Hin.
    destruct Hin as [[-> ->]|Hin]; simpl; [lia|].
    specialize (Hlt k p Hin). lia.
  - rewrite (values_set_absent key_eqb _ _ _ H), map_app. simpl.
    apply NoDup_app; [assumption | repeat constructor; simpl; tauto |].
    intros x Hx [Hc|[]]. subst x. apply in_map_iff in Hx.
    destruct Hx as ([k p] & Hp & Hin). simpl in Hp.
    specialize (Hlt k p Hin). lia.
Qed.

(** X4: the row ids handed out by [addParticipant] stay below the counter
    and pairwise distinct over every sequence of inputs: no two participant
    rows ever share a row id. *)
Theorem row_ids_stay_distinct st :
  freshRowIds (storage st) ->
  forall inputs, freshRowIds (storage (fst (run st inputs))).
Proof.
  intros Hfr inputs. generalize (run_writes inputs st).
  generalize (storage (fst (run st inputs))) as s'. revert Hfr.
  generalize (storage st) as s. intros s Hfr s' W.
  induction W as [|s s1 s2 gid Ha Hp Hw IH]; [assumption|].
  apply IH. eapply prim_fresh; eassumption.
Qed.

Lemma row_ids_stay_distinct_witness :
  freshRowIds (storage (fst (run Examples.lobby0 Examples.opening))).
Proof.
  apply (row_ids_stay_distinct Examples.lobby0).
  split.
  - intros k p [H|[]]. injection H as <- <-. simpl. lia.
  - repeat constructor. simpl. tauto.
Defined.

(** ** Rooms *)

Lemma set_not_nil {K V : Type} (eqb : K -> K -> bool) (m : list (K * V)) k v :
  JsMap.set eqb m k v <> [].
Proof. destruct m as [|[k0 v0] m]; simpl; [|destruct (eqb k0 k)]; discriminate. Qed.

Lemma set_app_absent {V : Type} (m : list (Z * V)) k v0 v :
  JsMap.get Z.eqb m k = None ->
  JsMap.set Z.eqb (m ++ [(k, v0)]) k v = m ++ [(k, v)].
Proof.
  induction m as [|[k1 v1] m IH]; simpl.
  - rewrite Z.eqb_refl. reflexivity.
  - destruct (k1 =? k); [discriminate|]. intros H. f_equal. auto.
Qed.

Lemma joinRoom_nonEmpty clients g u ws :
  (forall g' room, In (g', room) clients -> room <> []) ->
  forall g' room, In (g', room) (joinRoom clients g u ws) -> room <> [].
Proof.
  intros Hinv g' room. unfold joinRoom, JsMap.has.
  destruct (JsMap.get Z.eqb clients g) as [gameUsers|] eqn:E.
  - rewrite E. intros Hin. apply (JsMapFacts.In_set _ Z.eqb_eq) in Hin.
    destruct Hin as [[_ ->]|Hin]; [apply set_not_nil | eauto].
  - rewrite (JsMapFacts.get_set_same _ Z.eqb_eq).
    rewrite (values_set_absent Z.eqb _ _ _ E), (set_app_absent _ _ _ _ E).
    intros Hin. apply in_app_or in Hin.
    destruct Hin as [Hin|[Hin|[]]]; [eauto|].
    injection Hin as _ <-. discriminate.
Qed.

Lemma handlePlayerReady_clients st g u r :
  gameClients (fst (handlePlayerReady st g u r)) = gameClients st.
Proof.
  unfold handlePlayerReady. destruct (getGame _ g) as [game|]; [|reflexivity].
  destruct (status_eqb (status game) waiting && _); [|reflexivity].
  destruct (forallb _ _); reflexivity.
Qed.

Lemma endGame_clients st g : gameClients (fst (endGame st g)) = gameClients st.
Proof. unfold endGame. destruct (getGame _ g); reflexivity. Qed.

Lemma endCurrentRound_clients st g :
  gameClients (fst (endCurrentRound st g)) = gameClients st.
Proof.
  unfold endCurrentRound. destruct (getGame (storage st) g) as [game|]; [|reflexivity].
  destruct (negb _); [reflexivity|]. cbv zeta.
  set (st3 := mkState _ (gameClients st)).
  destruct (getGame (storage st3) g) as [game'|]; [|reflexivity].
  destruct (totalRounds game' <=? currentRound game' - 1); [|reflexivity].
  pose proof (endGame_clients st3 g) as H.
  destruct (endGame st3 g). simpl in *. assumption.
Qed.

Lemma handleBuzzerRelease_clients st g u h :
  gameClients (fst (handleBuzzerRelease st g u h)) = gameClients st.
Proof.
  unfold handleBuzzerRelease.
  destruct (getGame (storage st) g) as [game|]; [|reflexivity].
  destruct (negb _); [reflexivity|].
  destruct (getParticipant (storage st) g u) as [p|]; [|reflexivity].
  destruct (isEliminated p); [reflexivity|].
  destruct (hasBidThisRound p); [reflexivity|]. cbv zeta.
  set (st1 := mkState _ (gameClients st)).
  destruct (allActivePlayersHaveBid (storage st1) g); [|reflexivity].
  pose proof (endCurrentRound_clients st1 g) as H.
  destruct (endCurrentRound st1 g). simpl in *. assumption.
Qed.

Lemma step_roomsNonEmpty st i :
  roomsNonEmpty st -> roomsNonEmpty (fst (step st i)).
Proof.
  intros Hinv. unfold roomsNonEmpty in *.
  destruct i as [ws u data| ws u g | g | g |]; simpl.
  - unfold onMessage. destruct (u =? 0); [exact Hinv|].
    destruct (d_type data), (d_holdTime data) as [h|];
      destruct (negb (d_gameId data =? 0)); try exact Hinv;
      try (rewrite handlePlayerReady_clients; exact Hinv);
      try (rewrite handleBuzzerRelease_clients; exact Hinv).
    all: unfold handleJoinGame;
      destruct (getGame (storage st) (d_gameId data)); [|exact Hinv];
      destruct (_ && _); [exact Hinv|];
      destruct (joinStore _ _ _ _); [|exact Hinv];
      simpl; apply joinRoom_nonEmpty; exact Hinv.
  - unfold onClose. destruct (_ && _); [|exact Hinv].
    destruct (JsMap.get Z.eqb (gameClients st) g) as [room|]; [|exact Hinv].
    destruct (JsMap.get Z.eqb room u) as [socket|]; [|exact Hinv].
    destruct (_ =? _)%nat; [|exact Hinv]. simpl.
    destruct (length (JsMap.delete Z.eqb room u) =? 0)%nat eqn:L.
    + intros g' room' Hin. apply In_delete in Hin. eauto.
    + intros g' room' Hin. apply (JsMapFacts.In_set _ Z.eqb_eq) in Hin.
      destruct Hin as [[_ ->]|Hin]; [|eauto].
      intros Hnil. rewrite Hnil in L. discriminate.
  - unfold startGame. destruct (getGame _ g) as [game|]; [|exact Hinv].
    destruct (negb _); exact Hinv.
  - unfold handleEmptyGame. destruct (getGame _ g) as [game|]; [|exact Hinv].
    destruct (_ || _); [|exact Hinv]. simpl.
    intros g' room' Hin. apply In_delete in Hin. eauto.
  - unfold cleanupGames. generalize (getPublicGames (storage st)) as l.
    intros l. revert st Hinv. induction l as [|game l IH]; intros st Hinv; simpl.
    + exact Hinv.
    + apply IH. unfold cleanupGame. destruct (_ || _); [|exact Hinv]. simpl.
      destruct (JsMap.has Z.eqb (gameClients st) (g_id game)); [|exact Hinv].
      intros g' room' Hin. apply In_delete in Hin. eauto.
Qed.

(** X5: when no room of the room table is empty, none ever is, whatever
    the inputs: a room is created with its first member and removed with
    its last.  So the "waiting with an empty room" branch of the empty-room
    check never fires, and the check leaves every game with at least two
    participants alone. *)
Theorem rooms_are_never_empty st :
  roomsNonEmpty st ->
  forall inputs,
    roomsNonEmpty (fst (run st inputs)) /\
    forall g,
      (2 <= length (getParticipantsByGame (storage (fst (run st inputs))) g))%nat ->
      handleEmptyGame (fst (run st inputs)) g = fst (run st inputs).
Proof.
  intros Hinv inputs.
  assert (Hrun : roomsNonEmpty (fst (run st inputs))).
  { revert st Hinv. induction inputs as [|i rest IH]; intros st Hinv; simpl.
    - exact Hinv.
    - pose proof (step_roomsNonEmpty st i Hinv) as H1.
      destruct (step st i) as [st1 outs1]. simpl in H1.
      specialize (IH st1 H1). destruct (run st1 rest) as [st2 outs2]. exact IH. }
  split; [exact Hrun|]. intros g Hlen.
  set (st' := fst (run st inputs)) in *.
  unfold handleEmptyGame. destruct (getGame (storage st') g) as [game|]; [|reflexivity].
  apply Nat.ltb_ge in Hlen. rewrite Hlen. simpl.
  destruct (JsMap.get Z.eqb (gameClients st') g) as [room|] eqn:E.
  - apply JsMapFacts.get_In in E; [|apply Z.eqb_eq].
    apply Hrun in E. destruct room; [congruence|].
    simpl. rewrite andb_false_r. reflexivity.
  - rewrite andb_false_r. reflexivity.
Qed.

Lemma rooms_are_never_empty_witness :
  roomsNonEmpty (fst (run Examples.lobby0 Examples.opening)) /\
  forall g,
    (2 <= length (getParticipantsByGame
                    (storage (fst (run Examples.lobby0 Examples.opening))) g))%nat ->
    handleEmptyGame (fst (run Examples.lobby0 Examples.opening)) g
    = fst (run Examples.lobby0 Examples.opening).
Proof.
  apply (rooms_are_never_empty Examples.lobby0).
  intros g room [].
Defined.

(** ** The cleanup pass on the games it sees *)

Lemma cleanupGame_participants st a :
  gameParticipants (storage (cleanupGame st a)) = gameParticipants (storage st).
Proof.
  unfold cleanupGame. destruct (_ || _); [|reflexivity]. simpl.
  unfold updateGameStatus. apply gameParticipants_updateGame.
Qed.

Lemma cleanupGame_users st a :
  users (storage (cleanupGame st a)) = users (storage st).
Proof.
  unfold cleanupGame. destruct (_ || _); [|reflexivity]. simpl.
  unfold updateGameStatus, updateGame. destruct (getGame _ _); reflexivity.
Qed.

Lemma cleanupGame_other st a id :
  g_id a <> id ->
  getGame (storage (cleanupGame st a)) id = getGame (storage st) id /\
  JsMap.get Z.eqb (gameClients (cleanupGame st a)) id
  = JsMap.get Z.eqb (gameClients st) id.
Proof.
  intros Hne. unfold cleanupGame. destruct (_ || _); [|split; reflexivity]. simpl.
  split.
  - unfold updateGameStatus. rewrite getGame_updateGame.
    destruct (Z.eqb_spec (g_id a) id); [contradiction|reflexivity].
  - destruct (JsMap.has Z.eqb (gameClients st) (g_id a)); [|reflexivity].
    apply get_delete_other. assumption.
Qed.

Lemma sweepable_cleanupGame st b a :
  g_id b <> g_id a -> sweepable (cleanupGame st b) a = sweepable st a.
Proof.
  intros Hne. unfold sweepable, getParticipantsByGame.
  rewrite cleanupGame_participants.
  destruct (cleanupGame_other st b (g_id a) Hne) as [_ ->]. reflexivity.
Qed.

Lemma cleanup_fold_other id l : forall st,
  ~ In id (map g_id l) ->
  getGame (storage (fold_left cleanupGame l st)) id = getGame (storage st) id.
Proof.
  induction l as [|b l IH]; intros st Hnot; simpl; [reflexivity|].
  rewrite IH by (intros H; apply Hnot; now right).
  apply cleanupGame_other. intros H. apply Hnot. now left.
Qed.

Lemma cleanup_fold_at a l : forall st,
  NoDup (map g_id l) -> In a l ->
  isPublic a = true -> status a = waiting ->
  getGame (storage st) (g_id a) = Some a ->
  getGame (storage (fold_left cleanupGame l st)) (g_id a)
  = Some (if sweepable st a then with_status a completed else a).
Proof.
  induction l as [|b l IH]; intros st Hnd Hin Hpub Hwait Hg; [contradiction|].
  simpl. inversion Hnd as [|? ? Hnotin Hnd']; subst.
  destruct Hin as [->|Hin].
  - rewrite cleanup_fold_other by assumption.
    unfold cleanupGame, sweepable. rewrite Hpub, Hwait. simpl.
    rewrite andb_true_r.
    destruct (_ || _); [|assumption]. simpl.
    unfold updateGameStatus. rewrite getGame_updateGame, Z.eqb_refl, Hg. reflexivity.
  - assert (Hne : g_id b <> g_id a).
    { intros E. apply Hnotin. rewrite E. apply in_map. assumption. }
    rewrite IH; try assumption.
    + rewrite sweepable_cleanupGame by assumption. reflexivity.
    + destruct (cleanupGame_other st b (g_id a) Hne) as [-> _]. assumption.
Qed.

Lemma NoDup_map_filter {A B : Type} (f : A -> B) (P : A -> bool) (l : list A) :
  NoDup (map f l) -> NoDup (map f (filter P l)).
Proof.
  induction l as [|a l IH]; simpl; intros Hnd; [constructor|].
  inversion Hnd as [|? ? Hnotin Hnd']; subst.
  destruct (P a); simpl; [|auto]. constructor; [|auto].
  intros Hin. apply Hnotin. apply in_map_iff in Hin.
  destruct Hin as (x & Hx & Hin). apply filter_In in Hin.
  rewrite <- Hx. apply in_map. tauto.
Qed.

Lemma wf_games_ids s : wf_games s -> NoDup (map g_id (JsMap.values (games s))).
Proof.
  intros [Hnd Hkey]. unfold JsMap.values, JsMap.keys in *.
  rewrite map_map.
  erewrite map_ext_in; [exact Hnd|].
  intros [k game] Hin. simpl. symmetry. apply Hkey. assumption.
Qed.

(** X6: on a store whose games table is well formed, one cleanup pass
    completes exactly the games that are public, still waiting, and either
    have fewer than two participants or have no open connection in their
    room; every other game record is left as it is, and no participant row
    and no user is touched. *)
Theorem cleanup_completes_public_lobbies st :
  wf_games (storage st) ->
  gameParticipants (storage (cleanupGames st)) = gameParticipants (storage st) /\
  users (storage (cleanupGames st)) = users (storage st) /\
  forall id game,
    getGame (storage st) id = Some game ->
    getGame (storage (cleanupGames st)) id
    = Some (if sweepable st game then with_status game completed else game).
Proof.
  intros Hwf. split; [|split].
  - unfold cleanupGames. generalize (getPublicGames (storage st)) as l.
    intros l. generalize st. induction l as [|b l IH]; intros st0; simpl; [reflexivity|].
    rewrite IH. apply cleanupGame_participants.
  - unfold cleanupGames. generalize (getPublicGames (storage st)) as l.
    intros l. generalize st. induction l as [|b l IH]; intros st0; simpl; [reflexivity|].
    rewrite IH. apply cleanupGame_users.
  - intros id game Hg. unfold cleanupGames.
    pose proof (wf_games_ids _ Hwf) as Hids. destruct Hwf as [Hnd Hkey].
    assert (Hin : In (id, game) (games (storage st))).
    { apply JsMapFacts.get_In with (eqb := Z.eqb); [apply Z.eqb_eq | exact Hg]. }
    pose proof (Hkey _ _ Hin) as Hid.
    destruct (isPublic game && status_eqb (status game) waiting) eqn:Pw.
    + apply andb_true_iff in Pw. destruct Pw as [Hpub Hwait].
      apply status_eqb_eq in Hwait. subst id.
      apply cleanup_fold_at; try assumption.
      * unfold getPublicGames. apply NoDup_map_filter. assumption.
      * unfold getPublicGames. apply filter_In. split.
        -- unfold JsMap.values. change game with (snd (g_id game, game)).
           apply in_map. assumption.
        -- rewrite Hpub. simpl. apply status_eqb_eq. assumption.
    + rewrite cleanup_fold_other.
      * unfold sweepable. rewrite Pw. simpl. assumption.
      * intros Hmem. apply in_map_iff in Hmem. destruct Hmem as (b & Hb & Hbin).
        unfold getPublicGames in Hbin. apply filter_In in Hbin.
        destruct Hbin as [Hbin Hbpw].
        unfold JsMap.values in Hbin. apply in_map_iff in Hbin.
        destruct Hbin as ([k b'] & Hsnd & Hkb). simpl in Hsnd. subst b'.
        pose proof (Hkey _ _ Hkb) as Hk. subst k. rewrite Hb in Hkb.
        apply (JsMapFacts.In_get Z.eqb Z.eqb_eq) in Hkb; [|assumption].
        unfold getGame in Hg. rewrite Hg in Hkb. injection Hkb as ->. congruence.
Qed.

Lemma cleanup_completes_public_lobbies_witness :
  gameParticipants (storage (cleanupGames Examples.lobby0))
  = gameParticipants (storage Examples.lobby0) /\
  users (storage (cleanupGames Examples.lobby0)) = users (storage Examples.lobby0) /\
  forall id game,
    getGame (storage Examples.lobby0) id = Some game ->
    getGame (storage (cleanupGames Examples.lobby0)) id
    = Some (if sweepable Examples.lobby0 game then with_status game completed else game).
Proof.
  apply (cleanup_completes_public_lobbies Examples.lobby0).
  split.
  - repeat constructor. simpl. tauto.
  - intros k game [H|[]]. injection H as <- <-. reflexivity.
Defined.

(** ** The end of a round and the end of the game *)

Lemma endGame_game st gid game :
  getGame (storage st) gid = Some game ->
  getGame (storage (fst (endGame st gid))) gid = Some (with_status game completed) /\
  exists rankings, snd (endGame st gid) = [Broadcast gid (GAME_END gid rankings)].
Proof.
  intros Hg. unfold endGame. rewrite Hg. cbn [fst snd storage]. split.
  - rewrite getGame_eliminate_loop. unfold updateGameStatus.
    rewrite getGame_updateGame, Z.eqb_refl, Hg. reflexivity.
  - eexists. reflexivity.
Qed.

(** X7: resolving a round of a game in progress ends the game exactly when
    the round counter has reached the total number of rounds: then ROUND_END
    carries next round -1, GAME_END follows and the game is completed;
    otherwise ROUND_END names the next round, the timer for its start is
    set and the game stays in progress.  Either way the round counter rises
    by one.  (A game whose counter starts at 0 therefore plays
    [totalRounds + 1] rounds.) *)
Theorem round_end_decides_game_over st gid game :
  getGame (storage st) gid = Some game -> status game = in_progress ->
  (totalRounds game <= currentRound game ->
   exists w h rankings game',
     snd (endCurrentRound st gid) =
       [Broadcast gid (ROUND_END gid (currentRound game) w h (-1));
        Broadcast gid (GAME_END gid rankings)] /\
     getGame (storage (fst (endCurrentRound st gid))) gid = Some game' /\
     status game' = completed /\ currentRound game' = currentRound game + 1) /\
  (currentRound game < totalRounds game ->
   exists w h game',
     snd (endCurrentRound st gid) =
       [Broadcast gid (ROUND_END gid (currentRound game) w h (currentRound game + 1));
        RoundStartTimer gid (currentRound game + 1)] /\
     getGame (storage (fst (endCurrentRound st gid))) gid = Some game' /\
     status game' = in_progress /\ currentRound game' = currentRound game + 1).
Proof.
  intros Hg Hs.
  pose proof (getGame_resolveRound (storage st) game gid
                (getParticipantsByGame (storage st) gid)
                (reduceWinner (activeBidders (storage st) gid)) Hg) as Hg3.
  split; intros Hcmp.
  - apply Z.leb_le in Hcmp.
    unfold endCurrentRound. rewrite Hg, Hs. simpl. rewrite Hg3. simpl.
    replace (currentRound game + 1 - 1) with (currentRound game) by lia.
    rewrite Hcmp.
    set (st3 := mkState _ (gameClients st)).
    destruct (endGame_game st3 gid _ Hg3) as (Hg4 & rankings & Hout).
    destruct (endGame st3 gid) as [st4 outs]. simpl in *. subst outs.
    eexists _, _, rankings, _. split; [reflexivity|]. split; [exact Hg4|].
    split; reflexivity.
  - apply Z.leb_gt in Hcmp.
    unfold endCurrentRound. rewrite Hg, Hs. simpl. rewrite Hg3. simpl.
    replace (currentRound game + 1 - 1) with (currentRound game) by lia.
    rewrite Hcmp.
    eexists _, _, _. split; [reflexivity|]. split; [exact Hg3|].
    split; [exact Hs | reflexivity].
Qed.

Lemma round_end_decides_game_over_witness :
  (totalRounds (mkGame 1 3 in_progress 0 3 60 true false 0 None)
   <= currentRound (mkGame 1 3 in_progress 0 3 60 true false 0 None) ->
   exists w h rankings game',
     snd (endCurrentRound Examples.arenaAllBid 1) =
       [Broadcast 1 (ROUND_END 1 0 w h (-1)); Broadcast 1 (GAME_END 1 rankings)] /\
     getGame (storage (fst (endCurrentRound Examples.arenaAllBid 1))) 1 = Some game' /\
     status game' = completed /\ currentRound game' = 0 + 1) /\
  (currentRound (mkGame 1 3 in_progress 0 3 60 true false 0 None)
   < totalRounds (mkGame 1 3 in_progress 0 3 60 true false 0 None) ->
   exists w h game',
     snd (endCurrentRound Examples.arenaAllBid 1) =
       [Broadcast 1 (ROUND_END 1 0 w h (0 + 1)); RoundStartTimer 1 (0 + 1)] /\
     getGame (storage (fst (endCurrentRound Examples.arenaAllBid 1))) 1 = Some game' /\
     status game' = in_progress /\ currentRound game' = 0 + 1).
Proof.
  apply (round_end_decides_game_over Examples.arenaAllBid 1
           (mkGame 1 3 in_progress 0 3 60 true false 0 None)); reflexivity.
Defined.

(** X8: when a round with bidders is resolved, the token write goes to the
    row stored under (game id, row id of the winner): that row, if there is
    one, gets the winner's tokens plus one, and the tokens of every other
    row of every game are unchanged.  The winner is awarded exactly when
    its row id equals its user id. *)
Theorem award_goes_to_key_of_winner_row_id st gid game w :
  getGame (storage st) gid = Some game -> status game = in_progress ->
  reduceWinner (activeBidders (storage st) gid) = Some w ->
  forall g u p,
    getParticipant (storage st) g u = Some p ->
    exists p',
      getParticipant (storage (fst (endCurrentRound st gid))) g u = Some p' /\
      tokensWon p' =
        (if (gid =? g) && (p_id w =? u) then tokensWon w + 1 else tokensWon p).
Proof.
  intros Hg Hs Hw g u p Hp.
  assert (Hrefl : forall q, sameTokens q q) by (intro; reflexivity).
  assert (Htrans : forall a b c, sameTokens a b -> sameTokens b c -> sameTokens a c)
    by (unfold sameTokens; intros; congruence).
  set (s1 := updateParticipantTokens (storage st) gid (p_id w) (tokensWon w + 1)).
  assert (Hp1 : exists p1, getParticipant s1 g u = Some p1 /\
                  tokensWon p1 = (if (gid =? g) && (p_id w =? u)
                                  then tokensWon w + 1 else tokensWon p)).
  { unfold s1, updateParticipantTokens.
    rewrite getParticipant_updateParticipant, Hp.
    unfold key_eqb. simpl.
    destruct ((gid =? g) && (p_id w =? u)); simpl; eauto. }
  destruct Hp1 as (p1 & Hp1 & Ht1).
  set (s3 := resolveRound (storage st) game gid
               (getParticipantsByGame (storage st) gid) (Some w)).
  assert (E3 : evolves sameTokens (fun _ _ => True) s1 s3).
  { unfold s3, resolveRound. fold s1.
    eapply evolves_trans with (s2 := updateGameRoundResults s1 gid _ _ _); auto.
    - apply updateGame_evolves; auto.
    - apply fold_left_evolves; auto. intros s p0.
      apply updateParticipant_evolves; auto.
      + intro q. split; reflexivity.
      + intros; reflexivity. }
  rewrite (endCurrentRound_state st gid game Hg Hs). cbv zeta. rewrite Hw. fold s3.
  assert (E : evolves sameTokens (fun _ _ => True) s1
                (storage (if totalRounds game <=? currentRound game
                          then fst (endGame (mkState s3 (gameClients st)) gid)
                          else mkState s3 (gameClients st)))).
  { destruct (totalRounds game <=? currentRound game); [|exact E3].
    eapply evolves_trans with (s2 := storage (mkState s3 (gameClients st))); auto.
    apply endGame_evolves; auto; intros; reflexivity. }
  destruct E as (EP & _ & _). destruct (EP g u p1 Hp1) as (p' & Hp' & Hsame).
  exists p'. split; [exact Hp'|]. unfold sameTokens in Hsame. congruence.
Qed.

Lemma award_goes_to_key_of_winner_row_id_witness :
  exists p',
    getParticipant (storage (fst (endCurrentRound Examples.arenaAllBid 1))) 1 2
      = Some p' /\
    tokensWon p' =
      (if (1 =? 1) && (p_id (mkParticipant 2 1 1 false true (Some (57000 # 1000))
                               0 false false true 3000) =? 2)
       then tokensWon (mkParticipant 2 1 1 false true (Some (57000 # 1000))
                         0 false false true 3000) + 1
       else tokensWon (mkParticipant 3 1 2 false true (Some (59000 # 1000))
                         0 false false true 1000)).
Proof.
  apply (award_goes_to_key_of_winner_row_id Examples.arenaAllBid 1
           (mkGame 1 3 in_progress 0 3 60 true false 0 None)
           (mkParticipant 2 1 1 false true (Some (57000 # 1000))
              0 false false true 3000)
           eq_refl eq_refl eq_refl 1 2
           (mkParticipant 3 1 2 false true (Some (59000 # 1000))
              0 false false true 1000)).
  reflexivity.
Defined.

(** ** Who is eliminated when the game ends *)

Lemma with_isEliminated_idem p :
  with_isEliminated (with_isEliminated p true) true = with_isEliminated p true.
Proof. destruct p; reflexivity. Qed.

Lemma eliminate_loop_exact gid lowest l : forall s g u,
  getParticipant
    (fold_left
       (fun s participant =>
          if isLowest lowest participant
          then eliminateParticipant s gid (userId participant)
          else s)
       l s) g u
  = if (gid =? g) &&
       existsb (fun q => isLowest lowest q && (userId q =? u)) l
    then option_map (fun p => with_isEliminated p true) (getParticipant s g u)
    else getParticipant s g u.
Proof.
  induction l as [|a l IH]; intros s g u; simpl.
  - rewrite andb_false_r. reflexivity.
  - rewrite IH. destruct (isLowest lowest a) eqn:La; simpl.
    + unfold eliminateParticipant. rewrite getParticipant_updateParticipant.
      unfold key_eqb. simpl.
      destruct (gid =? g); simpl; [|reflexivity].
      destruct (userId a =? u); simpl; [|reflexivity].
      destruct (existsb _ l); [|reflexivity].
      destruct (getParticipant s g u); simpl; [|reflexivity].
      rewrite with_isEliminated_idem. reflexivity.
    + reflexivity.
Qed.

(** The rows after [endGame], by the test the loop makes. *)
Lemma endGame_rows st gid game :
  wf_storage (storage st) ->
  getGame (storage st) gid = Some game ->
  forall g u p,
    getParticipant (storage st) g u = Some p ->
    getParticipant (storage (fst (endGame st gid))) g u
    = Some (if (gid =? g) &&
               isLowest (lowestTokens (getParticipantsByGame (storage st) gid)) p
            then with_isEliminated p true else p).
Proof.
  intros Hwf Hg g u p Hp. unfold endGame. rewrite Hg. cbn [fst storage].
  unfold updateGameStatus at 1 2.
  rewrite getParticipantsByGame_updateGame.
  rewrite eliminate_loop_exact.
  unfold updateGameStatus. rewrite getParticipant_updateGame, Hp.
  set (lowest := lowestTokens _).
  destruct (gid =? g) eqn:G; simpl; [|reflexivity].
  apply Z.eqb_eq in G. subst g.
  destruct (getParticipant_in_game _ _ _ _ Hwf Hp) as (Hin & _ & Hu).
  destruct (existsb _ _) eqn:Ex.
  - apply existsb_exists in Ex. destruct Ex as (q & Hq & Hc).
    apply andb_true_iff in Hc. destruct Hc as [Lq Uq]. apply Z.eqb_eq in Uq.
    destruct (in_game_getParticipant _ _ _ Hwf Hq) as [Hq' _].
    rewrite Uq, Hp in Hq'. injection Hq' as <-. rewrite Lq. reflexivity.
  - destruct (isLowest lowest p) eqn:Lp; [|reflexivity].
    assert (existsb (fun q => isLowest lowest q && (userId q =? u))
              (getParticipantsByGame (storage st) gid) = true) as Ex'.
    { apply existsb_exists. exists p. split; [exact Hin|].
      rewrite Lp, Hu, Z.eqb_refl. reflexivity. }
    congruence.
Qed.

Lemma isLowest_iff_minimum l p :
  In p l ->
  (isLowest (lowestTokens l) p = true <->
   forall q, In q l -> tokensWon p <= tokensWon q).
Proof.
  intros Hin. split.
  - intros Hlow q Hq. destruct (lowestTokens l) as [m|] eqn:E; [|discriminate].
    simpl in Hlow. apply Z.eqb_eq in Hlow. rewrite Hlow.
    apply (lowestTokens_le l m E q Hq).
  - apply lowestTokens_of_minimum. exact Hin.
Qed.

(** X9: ending a game changes nothing of any row but its eliminated flag,
    and a row is eliminated afterwards exactly when it was eliminated
    before or it is a row of that game whose token count is the least among
    the game's rows (no row of the game has fewer tokens).  Rows of other
    games are as they were. *)
Theorem end_game_eliminates_exactly_the_minimum st gid game :
  wf_storage (storage st) ->
  getGame (storage st) gid = Some game ->
  forall g u p,
    getParticipant (storage st) g u = Some p ->
    exists p',
      getParticipant (storage (fst (endGame st gid))) g u = Some p' /\
      p' = mkParticipant (p_id p) (gameId p) (userId p) (isHost p) (isReady p)
             (timeBank p) (tokensWon p) (isEliminated p') (isBot p)
             (hasBidThisRound p) (lastHoldTime p) /\
      (isEliminated p' = true <->
       isEliminated p = true \/
       (g = gid /\
        forall q, In q (getParticipantsByGame (storage st) gid) ->
                  tokensWon p <= tokensWon q)).
Proof.
  intros Hwf Hg g u p Hp.
  rewrite (endGame_rows st gid game Hwf Hg g u p Hp).
  eexists. split; [reflexivity|].
  destruct (Z.eqb_spec gid g) as [<-|Hne]; cbn [andb].
  - destruct (getParticipant_in_game _ _ _ _ Hwf Hp) as (Hin & _ & _).
    pose proof (isLowest_iff_minimum _ p Hin) as Hiff.
    destruct (isLowest (lowestTokens (getParticipantsByGame (storage st) gid)) p).
    + split; [destruct p; reflexivity|]. simpl. split; [intros _|reflexivity].
      right. split; [reflexivity|]. apply Hiff. reflexivity.
    + split; [destruct p; reflexivity|]. split; [intros H; left; exact H|].
      intros [H|[_ H]]; [exact H|]. apply Hiff in H. discriminate.
  - split; [destruct p; reflexivity|]. split; [intros H; left; exact H|].
    intros [H|[H _]]; [exact H | congruence].
Qed.

Lemma end_game_eliminates_exactly_the_minimum_witness :
  exists p',
    getParticipant (storage (fst (endGame Examples.arenaAllBid 1))) 1 2 = Some p' /\
    p' = mkParticipant 3 1 2 false true (Some (59000 # 1000)) 0 (isEliminated p')
           false true 1000 /\
    (isEliminated p' = true <->
     isEliminated (mkParticipant 3 1 2 false true (Some (59000 # 1000)) 0 false
                     false true 1000) = true \/
     (1 = 1 /\
      forall q, In q (getParticipantsByGame (storage Examples.arenaAllBid) 1) ->
                tokensWon (mkParticipant 3 1 2 false true (Some (59000 # 1000)) 0
                             false false true 1000) <= tokensWon q)).
Proof.
  assert (Hwf : wf_storage (storage Examples.arenaAllBid)) by wf_by_computation.
  apply (end_game_eliminates_exactly_the_minimum Examples.arenaAllBid 1
           (mkGame 1 3 in_progress 0 3 60 true false 0 None) Hwf eq_refl 1 2
           (mkParticipant 3 1 2 false true (Some (59000 # 1000)) 0 false false
              true 1000) eq_refl).
Defined.

(** ** A release that does not complete the round *)

Lemma games_updateParticipant s g u f :
  games (updateParticipant s g u f) = games s.
Proof. unfold updateParticipant. destruct (getParticipant s g u); reflexivity. Qed.

Lemma users_updateParticipant s g u f :
  users (updateParticipant s g u f) = users s.
Proof. unfold updateParticipant. destruct (getParticipant s g u); reflexivity. Qed.

Lemma getParticipant_recordBid_other s g u p h g' u' :
  key_eqb (g, u) (g', u') = false ->
  getParticipant (recordBid s g u p h) g' u' = getParticipant s g' u'.
Proof.
  intros K. unfold recordBid, updateParticipantBidDetails, updateParticipantTimeBank.
  rewrite getParticipant_updateParticipant, K.
  destruct (timeBank p); [|reflexivity].
  rewrite getParticipant_updateParticipant, K. reflexivity.
Qed.

(** X10: a release that passes the guards while some active player has not
    bid yet is answered by one BUZZER_RELEASE broadcast and changes only the
    sender's row: the bid flag is set, the hold time recorded, and the time
    bank lowered by the hold time in seconds and floored at zero (a null
    time bank stays null).  The games table, the users, the rooms and every
    other row are untouched. *)
Theorem release_before_round_end_changes_one_row st gid uid h game p :
  getGame (storage st) gid = Some game -> status game = in_progress ->
  getParticipant (storage st) gid uid = Some p ->
  isEliminated p = false -> hasBidThisRound p = false ->
  allActivePlayersHaveBid (recordBid (storage st) gid uid p h) gid = false ->
  let st' := fst (handleBuzzerRelease st gid uid h) in
  snd (handleBuzzerRelease st gid uid h) = [Broadcast gid (BUZZER_RELEASE gid uid h)] /\
  gameClients st' = gameClients st /\
  games (storage st') = games (storage st) /\
  users (storage st') = users (storage st) /\
  getParticipant (storage st') gid uid =
    Some (mkParticipant (p_id p) (gameId p) (userId p) (isHost p) (isReady p)
            (match timeBank p with
             | Some tb => Some (Qmax 0 (tb - h / 1000))
             | None => None
             end)
            (tokensWon p) false (isBot p) true h) /\
  forall g u, (g, u) <> (gid, uid) ->
    getParticipant (storage st') g u = getParticipant (storage st) g u.
Proof.
  intros Hg Hs Hp He Hb Hall.
  rewrite (handleBuzzerRelease_valid st gid uid h game p Hg Hs Hp He Hb).
  cbv zeta. cbn [storage]. rewrite Hall. cbn [fst snd storage gameClients].
  split; [reflexivity|]. split; [reflexivity|]. split; [|split; [|split]].
  - unfold recordBid, updateParticipantBidDetails, updateParticipantTimeBank.
    rewrite games_updateParticipant.
    destruct (timeBank p); [apply games_updateParticipant | reflexivity].
  - unfold recordBid, updateParticipantBidDetails, updateParticipantTimeBank.
    rewrite users_updateParticipant.
    destruct (timeBank p); [apply users_updateParticipant | reflexivity].
  - rewrite (getParticipant_recordBid _ _ _ _ h Hp).
    destruct p as [i g0 u0 ho re tb tk el bo hb lh]. simpl in *. subst el.
    destruct tb; reflexivity.
  - intros g u Hne. apply getParticipant_recordBid_other.
    destruct (key_eqb (gid, uid) (g, u)) eqn:K; [|reflexivity].
    apply key_eqb_eq in K. congruence.
Qed.

Lemma release_before_round_end_changes_one_row_witness :
  let st' := fst (handleBuzzerRelease Examples.arena 1 3 5000) in
  snd (handleBuzzerRelease Examples.arena 1 3 5000)
    = [Broadcast 1 (BUZZER_RELEASE 1 3 5000)] /\
  gameClients st' = gameClients Examples.arena /\
  games (storage st') = games (storage Examples.arena) /\
  users (storage st') = users (storage Examples.arena) /\
  getParticipant (storage st') 1 3 =
    Some (mkParticipant 1 1 3 true true (Some (Qmax 0 (60 - 5000 / 1000)))
            0 false false true 5000) /\
  forall g u, (g, u) <> (1, 3) ->
    getParticipant (storage st') g u = getParticipant (storage Examples.arena) g u.
Proof.
  apply (release_before_round_end_changes_one_row Examples.arena 1 3 5000
           (mkGame 1 3 in_progress 0 3 60 true false 0 None)
           (mkParticipant 1 1 3 true true (Some 60%Q) 0 false false false 0%Q));
    reflexivity.
Defined.

(** ** The round numbers announced for a game *)

Lemma handleJoinGame_roundEnds st g u ws :
  roundEnds (snd (handleJoinGame st g u ws)) = [].
Proof.
  unfold handleJoinGame, sendGameState.
  destruct (getGame (storage st) g); [|reflexivity].
  destruct (_ && _); [reflexivity|].
  destruct (joinStore _ _ _ _); [|reflexivity]. simpl.
  destruct (getGame _ _); reflexivity.
Qed.

Lemma handlePlayerReady_roundEnds st g u r :
  roundEnds (snd (handlePlayerReady st g u r)) = [].
Proof.
  unfold handlePlayerReady.
  destruct (getGame _ _); [|reflexivity].
  destruct (_ && _); [|reflexivity].
  destruct (forallb _ _); reflexivity.
Qed.

Lemma onClose_roundEnds st ws u g :
  roundEnds (snd (onClose st ws u g)) = [].
Proof.
  unfold onClose. destruct (_ && _); [|reflexivity].
  destruct (JsMap.get Z.eqb (gameClients st) g) as [room|]; [|reflexivity].
  destruct (JsMap.get Z.eqb room u) as [socket|]; [|reflexivity].
  destruct (_ =? _)%nat; reflexivity.
Qed.

Lemma startGame_roundEnds st g : roundEnds (snd (startGame st g)) = [].
Proof.
  unfold startGame. destruct (getGame _ _) as [game|]; [|reflexivity].
  destruct (negb _); reflexivity.
Qed.

Lemma roundsOf_app g a b : roundsOf g (a ++ b) = roundsOf g a ++ roundsOf g b.
Proof. unfold roundsOf. rewrite roundEnds_app, filter_app, map_app. reflexivity. Qed.

Lemma quiet_round st st' outs g game :
  evolves (fun _ _ => True) (fun a b => currentRound b = currentRound a)
    (storage st) (storage st') ->
  roundEnds outs = [] ->
  getGame (storage st) g = Some game ->
  exists game',
    getGame (storage st') g = Some game' /\
    ((roundsOf g outs = [] /\ currentRound game' = currentRound game) \/
     (roundsOf g outs = [currentRound game] /\
      currentRound game' = currentRound game + 1)).
Proof.
  intros (_ & EG & _) Hr Hg. destruct (EG g game Hg) as (game' & Hg' & Hc).
  exists game'. split; [exact Hg'|]. left. split; [|exact Hc].
  unfold roundsOf. rewrite Hr. reflexivity.
Qed.

Lemma release_round_exact st gid u h g game :
  getGame (storage st) g = Some game ->
  exists game',
    getGame (storage (fst (handleBuzzerRelease st gid u h))) g = Some game' /\
    ((roundsOf g (snd (handleBuzzerRelease st gid u h)) = [] /\
      currentRound game' = currentRound game) \/
     (roundsOf g (snd (handleBuzzerRelease st gid u h)) = [currentRound game] /\
      currentRound game' = currentRound game + 1)).
Proof.
  intros Hg.
  assert (Same : exists game', getGame (storage st) g = Some game' /\
            ((roundsOf g [] = [] /\ currentRound game' = currentRound game) \/
             (roundsOf g [] = [currentRound game] /\
              currentRound game' = currentRound game + 1))).
  { exists game. split; [exact Hg|]. left. split; reflexivity. }
  unfold handleBuzzerRelease.
  destruct (getGame (storage st) gid) as [game0|] eqn:Hg0; [|exact Same].
  destruct (status_eqb (status game0) in_progress) eqn:Hs; [|exact Same].
  apply status_eqb_eq in Hs. simpl.
  destruct (getParticipant (storage st) gid u) as [p|] eqn:Hp; [|exact Same].
  destruct (isEliminated p) eqn:He; [exact Same|].
  destruct (hasBidThisRound p) eqn:Hb; [exact Same|].
  set (st1 := mkState (recordBid (storage st) gid u p h) (gameClients st)).
  destruct (allActivePlayersHaveBid _ gid).
  - assert (Hg1 : getGame (storage st1) gid = Some game0).
    { simpl. rewrite getGame_recordBid. assumption. }
    destruct (endCurrentRound_resolves st1 gid game0 Hg1 Hs)
      as (nextRound & rest & game' & Hout & Hrest & Hg' & Hr).
    pose proof (endCurrentRound_writes st1 gid) as W.
    destruct (endCurrentRound st1 gid) as [st2 outs]. simpl in *.
    destruct (Z.eq_dec g gid) as [->|Hne].
    + rewrite Hg in Hg0. injection Hg0 as <-.
      exists game'. split; [exact Hg'|]. right. split; [|exact Hr].
      unfold roundsOf. rewrite Hout. simpl. rewrite Hrest. simpl.
      rewrite Z.eqb_refl. reflexivity.
    + destruct (writes_other gid _ _ W g Hne) as [G1 _].
      exists game. split.
      * rewrite G1, getGame_recordBid. exact Hg.
      * left. split; [|reflexivity].
        unfold roundsOf. rewrite Hout. simpl. rewrite Hrest. simpl.
        destruct (gid =? g) eqn:K; [|reflexivity].
        apply Z.eqb_eq in K. congruence.
  - exists game. simpl. split; [rewrite getGame_recordBid; exact Hg|].
    left. split; reflexivity.
Qed.

Lemma step_round_exact st i g game :
  getGame (storage st) g = Some game ->
  exists game',
    getGame (storage (fst (step st i))) g = Some game' /\
    ((roundsOf g (snd (step st i)) = [] /\
      currentRound game' = currentRound game) \/
     (roundsOf g (snd (step st i)) = [currentRound game] /\
      currentRound game' = currentRound game + 1)).
Proof.
  intros Hg.
  assert (Same : forall outs, roundEnds outs = [] ->
            exists game', getGame (storage st) g = Some game' /\
            ((roundsOf g outs = [] /\ currentRound game' = currentRound game) \/
             (roundsOf g outs = [currentRound game] /\
              currentRound game' = currentRound game + 1))).
  { intros outs Hr. apply (quiet_round st st outs g game); auto.
    apply evolves_refl; auto. }
  destruct i as [ws u data| ws u gid | gid | gid |]; simpl.
  - unfold onMessage. destruct (u =? 0); [apply Same; reflexivity|].
    destruct (d_type data), (d_holdTime data) as [h|];
      destruct (negb (d_gameId data =? 0));
      try (apply Same; reflexivity);
      try apply release_round_exact; try exact Hg.
    1,2: (apply (quiet_round st); [|apply handleJoinGame_roundEnds|exact Hg];
          apply handleJoinGame_evolves; intros; simpl; first [exact I | congruence]).
    1,2: (apply (quiet_round st); [|apply handlePlayerReady_roundEnds|exact Hg];
          apply handlePlayerReady_evolves; intros; simpl; first [exact I | congruence]).
  - apply (quiet_round st); [|apply onClose_roundEnds|exact Hg].
    rewrite onClose_storage. apply evolves_refl; auto.
  - apply (quiet_round st); [|apply startGame_roundEnds|exact Hg].
    apply startGame_evolves; intros; simpl; first [exact I | congruence].
  - apply (quiet_round st); [|reflexivity|exact Hg].
    apply handleEmptyGame_evolves; intros; simpl; first [exact I | congruence].
  - apply (quiet_round st); [|reflexivity|exact Hg].
    apply cleanupGames_evolves; intros; simpl; first [exact I | congruence].
Qed.

Lemma countFrom_succ c n : c :: countFrom (c + 1) n = countFrom c (S n).
Proof. reflexivity. Qed.

(** X11: over any run, the round numbers announced by the ROUND_END
    broadcasts of a game are consecutive: they start at the round counter
    the game had before the run and there is one for every unit the
    counter has risen, in rising order, with no gap and no repeat. *)
Theorem round_numbers_are_consecutive inputs : forall st g game,
  getGame (storage st) g = Some game ->
  exists game',
    getGame (storage (fst (run st inputs))) g = Some game' /\
    currentRound game <= currentRound game' /\
    roundsOf g (snd (run st inputs)) =
      countFrom (currentRound game)
        (Z.to_nat (currentRound game' - currentRound game)).
Proof.
  induction inputs as [|i rest IH]; intros st g game Hg; simpl.
  - exists game. split; [exact Hg|]. split; [lia|].
    rewrite Z.sub_diag. reflexivity.
  - destruct (step_round_exact st i g game Hg) as (game1 & Hg1 & Hcase).
    destruct (step st i) as [st1 outs1]. simpl in *.
    destruct (IH st1 g game1 Hg1) as (game2 & Hg2 & Hle & Hrounds).
    destruct (run st1 rest) as [st2 outs2]. simpl in *.
    exists game2. split; [exact Hg2|].
    rewrite roundsOf_app, Hrounds.
    destruct Hcase as [[Hr Hc]|[Hr Hc]]; rewrite Hr, Hc in *.
    + split; [exact Hle | reflexivity].
    + split; [lia|]. simpl.
      replace (currentRound game2 - currentRound game)
        with (Z.succ (currentRound game2 - (currentRound game + 1))) by lia.
      rewrite Z2Nat.inj_succ by lia. reflexivity.
Qed.

Lemma round_numbers_are_consecutive_witness :
  exists game',
    getGame (storage (fst (run Examples.arena Examples.round1))) 1 = Some game' /\
    currentRound (mkGame 1 3 in_progress 0 3 60 true false 0 None)
      <= currentRound game' /\
    roundsOf 1 (snd (run Examples.arena Examples.round1)) =
      countFrom (currentRound (mkGame 1 3 in_progress 0 3 60 true false 0 None))
        (Z.to_nat (currentRound game'
                   - currentRound (mkGame 1 3 in_progress 0 3 60 true false 0 None))).
Proof.
  apply (round_numbers_are_consecutive Examples.round1 Examples.arena 1
           (mkGame 1 3 in_progress 0 3 60 true false 0 None)).
  reflexivity.
Defined.

(** ** Games that have started, games that are over *)

Lemma keepsAbsent_refl s : keepsAbsent s s.
Proof. intros g u H. exact H. Qed.

Lemma keepsAbsent_trans s1 s2 s3 :
  keepsAbsent s1 s2 -> keepsAbsent s2 s3 -> keepsAbsent s1 s3.
Proof. intros H1 H2 g u H. apply H2, H1, H. Qed.

Lemma updateParticipant_keepsAbsent s g u f :
  keepsAbsent s (updateParticipant s g u f).
Proof.
  intros g' u' H. rewrite getParticipant_updateParticipant, H.
  destruct (key_eqb _ _); reflexivity.
Qed.

Lemma updateGame_keepsAbsent s id f : keepsAbsent s (updateGame s id f).
Proof. intros g u H. rewrite getParticipant_updateGame. exact H. Qed.

Lemma fold_keepsAbsent {A} (f : MemStorage -> A -> MemStorage) l :
  (forall s a, keepsAbsent s (f s a)) ->
  forall s, keepsAbsent s (fold_left f l s).
Proof.
  intros Hf. induction l as [|a l IH]; intros s; simpl.
  - apply keepsAbsent_refl.
  - eapply keepsAbsent_trans; [apply Hf | apply IH].
Qed.

Lemma recordBid_keepsAbsent s g u p h : keepsAbsent s (recordBid s g u p h).
Proof.
  unfold recordBid, updateParticipantBidDetails, updateParticipantTimeBank.
  destruct (timeBank p).
  - eapply keepsAbsent_trans; apply updateParticipant_keepsAbsent.
  - apply updateParticipant_keepsAbsent.
Qed.

Lemma resolveRound_keepsAbsent s game g ps w :
  keepsAbsent s (resolveRound s game g ps w).
Proof.
  unfold resolveRound.
  eapply keepsAbsent_trans with
    (s2 := match w with
           | Some w0 => updateParticipantTokens s g (p_id w0) (tokensWon w0 + 1)
           | None => s
           end).
  - destruct w; [apply updateParticipant_keepsAbsent | apply keepsAbsent_refl].
  - eapply keepsAbsent_trans; [apply updateGame_keepsAbsent|].
    apply fold_keepsAbsent. intros s0 a. apply updateParticipant_keepsAbsent.
Qed.

Lemma endGame_keepsAbsent st g :
  keepsAbsent (storage st) (storage (fst (endGame st g))).
Proof.
  unfold endGame. destruct (getGame (storage st) g); [|apply keepsAbsent_refl].
  cbn [fst storage].
  eapply keepsAbsent_trans; [apply updateGame_keepsAbsent|].
  apply fold_keepsAbsent. intros s0 a.
  destruct (isLowest _ a); [apply updateParticipant_keepsAbsent | apply keepsAbsent_refl].
Qed.

Lemma endCurrentRound_keepsAbsent st g :
  keepsAbsent (storage st) (storage (fst (endCurrentRound st g))).
Proof.
  destruct (getGame (storage st) g) as [game|] eqn:Hg.
  - destruct (status_eqb (status game) in_progress) eqn:Hs.
    + apply status_eqb_eq in Hs. rewrite (endCurrentRound_state st g game Hg Hs).
      cbv zeta.
      pose proof (resolveRound_keepsAbsent (storage st) game g
                    (getParticipantsByGame (storage st) g)
                    (reduceWinner (activeBidders (storage st) g))) as K.
      destruct (totalRounds game <=? currentRound game); [|exact K].
      eapply keepsAbsent_trans; [exact K|].
      apply (endGame_keepsAbsent (mkState _ (gameClients st)) g).
    + unfold endCurrentRound. rewrite Hg, Hs. apply keepsAbsent_refl.
  - unfold endCurrentRound. rewrite Hg. apply keepsAbsent_refl.
Qed.

Lemma handleBuzzerRelease_keepsAbsent st g u h :
  keepsAbsent (storage st) (storage (fst (handleBuzzerRelease st g u h))).
Proof.
  unfold handleBuzzerRelease.
  destruct (getGame (storage st) g) as [game|]; [|apply keepsAbsent_refl].
  destruct (negb (status_eqb (status game) in_progress)); [apply keepsAbsent_refl|].
  destruct (getParticipant (storage st) g u) as [p|]; [|apply keepsAbsent_refl].
  destruct (isEliminated p); [apply keepsAbsent_refl|].
  destruct (hasBidThisRound p); [apply keepsAbsent_refl|].
  pose proof (recordBid_keepsAbsent (storage st) g u p h) as K. simpl.
  destruct (allActivePlayersHaveBid _ g); [|exact K].
  pose proof (endCurrentRound_keepsAbsent
                (mkState (recordBid (storage st) g u p h) (gameClients st)) g) as K'.
  destruct (endCurrentRound _ g) as [st2 outs]. simpl in *.
  eapply keepsAbsent_trans; eassumption.
Qed.

Lemma startGame_keepsAbsent st g :
  keepsAbsent (storage st) (storage (fst (startGame st g))).
Proof.
  unfold startGame. destruct (getGame _ _) as [game|]; [|apply keepsAbsent_refl].
  destruct (negb _); [apply keepsAbsent_refl | apply updateGame_keepsAbsent].
Qed.

Lemma handleEmptyGame_keepsAbsent st g :
  keepsAbsent (storage st) (storage (handleEmptyGame st g)).
Proof.
  unfold handleEmptyGame. destruct (getGame _ _) as [game|]; [|apply keepsAbsent_refl].
  destruct (_ || _); [apply updateGame_keepsAbsent | apply keepsAbsent_refl].
Qed.

Lemma cleanupGames_keepsAbsent st :
  keepsAbsent (storage st) (storage (cleanupGames st)).
Proof.
  unfold cleanupGames. generalize (getPublicGames (storage st)) as l.
  intros l. revert st. induction l as [|a l IH]; intros st; simpl.
  - apply keepsAbsent_refl.
  - eapply keepsAbsent_trans; [|apply IH].
    intros g u H. unfold getParticipant in *.
    rewrite cleanupGame_participants. exact H.
Qed.

(** A join of a game that is no longer waiting adds no row. *)
Lemma handleJoinGame_started st g u ws game :
  getGame (storage st) g = Some game -> status game <> waiting ->
  keepsAbsent (storage st) (storage (fst (handleJoinGame st g u ws))).
Proof.
  intros Hg Hs. unfold handleJoinGame. rewrite Hg.
  assert (Hw : status_eqb (status game) waiting = false).
  { destruct (status_eqb (status game) waiting) eqn:E; [|reflexivity].
    apply status_eqb_eq in E. contradiction. }
  rewrite Hw. simpl.
  destruct (getParticipant (storage st) g u) as [p|] eqn:Hp; simpl;
    [|apply keepsAbsent_refl].
  unfold joinStore. rewrite Hp.
  destruct (_ && _); [|apply keepsAbsent_refl].
  destruct (find isHost _); [apply keepsAbsent_refl|].
  set (s2 := updateGameHost (updateParticipantHostStatus (storage st) g u true) g u).
  assert (K2 : keepsAbsent (storage st) s2).
  { eapply keepsAbsent_trans;
      [apply updateParticipant_keepsAbsent | apply updateGame_keepsAbsent]. }
  destruct (getParticipant s2 g u) as [p'|]; [|exact K2].
  destruct (negb (isReady p')); [|exact K2].
  cbn [fst storage].
  eapply keepsAbsent_trans; [exact K2 | apply updateParticipant_keepsAbsent].
Qed.

Lemma status_stays_started a b :
  gameAdvances a b -> status a <> waiting -> status b <> waiting.
Proof.
  intros (_ & _ & _ & _ & _ & Hr & _) Ha Hb. rewrite Hb in Hr.
  destruct (status a); simpl in Hr; try lia. contradiction.
Qed.

Lemma step_no_new_rows st i g game :
  getGame (storage st) g = Some game -> status game <> waiting ->
  forall u, getParticipant (storage st) g u = None ->
            getParticipant (storage (fst (step st i))) g u = None.
Proof.
  intros Hg Hs u Hu.
  destruct i as [ws uid data| ws uid gid | gid | gid |]; simpl.
  - unfold onMessage. destruct (uid =? 0); [exact Hu|].
    destruct (d_type data), (d_holdTime data) as [h|];
      destruct (negb (d_gameId data =? 0));
      try exact Hu;
      try (apply handleBuzzerRelease_keepsAbsent; exact Hu);
      try (rewrite handlePlayerReady_storage;
           apply updateParticipant_keepsAbsent; exact Hu).
    1,2: (destruct (Z.eq_dec g (d_gameId data)) as [->|Hne];
          [ eapply handleJoinGame_started; eassumption
          | pose proof (handleJoinGame_writes st (d_gameId data) uid ws) as W;
            destruct (writes_other _ _ _ W g Hne) as [_ P]; rewrite P; exact Hu ]).
  - rewrite onClose_storage. exact Hu.
  - apply startGame_keepsAbsent. exact Hu.
  - apply handleEmptyGame_keepsAbsent. exact Hu.
  - apply cleanupGames_keepsAbsent. exact Hu.
Qed.

(** X12: once a game has left the waiting state its membership is closed:
    over any run, a user without a row in the game still has none
    afterwards, and a user with a row still has one.  (JOIN_GAME is refused
    for a newcomer; there is no operation that removes a row.) *)
Theorem started_game_membership_is_closed inputs : forall st g game,
  getGame (storage st) g = Some game -> status game <> waiting ->
  forall u,
    getParticipant (storage (fst (run st inputs))) g u = None <->
    getParticipant (storage st) g u = None.
Proof.
  intros st g game Hg Hs u. split.
  - intros Hnone. destruct (getParticipant (storage st) g u) as [p|] eqn:Hp;
      [|reflexivity].
    assert (E : evolves (fun _ _ => True) (fun _ _ => True) (storage st)
                  (storage (fst (run st inputs)))).
    { apply (run_evolves (fun _ _ => True) (fun _ _ => True) (fun _ => True));
        auto.
      apply Forall_forall. intros i _. apply holdsOk_always. }
    destruct E as (EP & _ & _). destruct (EP g u p Hp) as (p' & Hp' & _).
    congruence.
  - revert st game Hg Hs.
    induction inputs as [|i rest IH]; intros st game Hg Hs Hu; simpl; [exact Hu|].
    pose proof (step_no_new_rows st i g game Hg Hs u Hu) as H1.
    destruct (writes_games _ _ _ (step_writes st i) g game Hg) as (game1 & Hg1 & A).
    pose proof (status_stays_started _ _ A Hs) as Hs1.
    destruct (step st i) as [st1 outs1]. simpl in *.
    specialize (IH st1 game1 Hg1 Hs1 H1).
    destruct (run st1 rest) as [st2 outs2]. exact IH.
Qed.

Lemma started_game_membership_is_closed_witness :
  getParticipant
    (storage (fst (run Examples.arena
                     [Examples.join 4; Examples.release 3 5000]))) 1 4 = None <->
  getParticipant (storage Examples.arena) 1 4 = None.
Proof.
  apply (started_game_membership_is_closed
           [Examples.join 4; Examples.release 3 5000] Examples.arena 1
           (mkGame 1 3 in_progress 0 3 60 true false 0 None)).
  - reflexivity.
  - discriminate.
Defined.

Lemma handleBuzzerRelease_idle st g u h game :
  getGame (storage st) g = Some game -> status game <> in_progress ->
  handleBuzzerRelease st g u h = (st, []).
Proof.
  intros Hg Hs. unfold handleBuzzerRelease. rewrite Hg.
  destruct (status_eqb (status game) in_progress) eqn:E; [|reflexivity].
  apply status_eqb_eq in E. contradiction.
Qed.

Lemma step_frozen st i g game :
  getGame (storage st) g = Some game -> status game = completed ->
  forall u p, getParticipant (storage st) g u = Some p ->
    exists p', getParticipant (storage (fst (step st i))) g u = Some p' /\
               sameStanding p p'.
Proof.
  intros Hg Hs u p Hp.
  assert (Same : exists p', getParticipant (storage st) g u = Some p' /\
                            sameStanding p p').
  { exists p. split; [exact Hp | apply sameStanding_refl]. }
  assert (Ev : forall s', evolves sameStanding (fun _ _ => True) (storage st) s' ->
             exists p', getParticipant s' g u = Some p' /\ sameStanding p p').
  { intros s' (EP & _ & _). apply EP. exact Hp. }
  destruct i as [ws uid data| ws uid gid | gid | gid |]; simpl.
  - unfold onMessage. destruct (uid =? 0); [exact Same|].
    destruct (d_type data), (d_holdTime data) as [h|];
      destruct (negb (d_gameId data =? 0)); try exact Same.
    1,2: (apply Ev; apply handleJoinGame_evolves;
          first [ exact sameStanding_refl | exact sameStanding_trans
                | (intros; exact I) | (intros; repeat split) ]).
    1,2: (apply Ev; apply handlePlayerReady_evolves;
          first [ exact sameStanding_refl
                | (intros; exact I) | (intros; repeat split) ]).
    destruct (Z.eq_dec g (d_gameId data)) as [->|Hne].
    + rewrite (handleBuzzerRelease_idle st _ uid h game Hg); [exact Same|].
      rewrite Hs. discriminate.
    + pose proof (handleBuzzerRelease_writes st (d_gameId data) uid h) as W.
      destruct (writes_other _ _ _ W g Hne) as [_ P]. rewrite P. exact Same.
  - rewrite onClose_storage. exact Same.
  - apply Ev. apply startGame_evolves;
      first [ exact sameStanding_refl | (intros; exact I) ].
  - apply Ev. apply handleEmptyGame_evolves;
      first [ exact sameStanding_refl | (intros; exact I) ].
  - apply Ev. apply cleanupGames_evolves;
      first [ exact sameStanding_refl | exact sameStanding_trans
            | (intros; exact I) ].
Qed.

(** X13: the standings of a completed game are final: over any run, every
    row of the game keeps its row id, time bank, tokens, elimination flag
    and bid fields; only the ready and host flags can still change. *)
Theorem completed_game_standings_are_final inputs : forall st g game,
  getGame (storage st) g = Some game -> status game = completed ->
  forall u p, getParticipant (storage st) g u = Some p ->
    exists p',
      getParticipant (storage (fst (run st inputs))) g u = Some p' /\
      sameStanding p p'.
Proof.
  induction inputs as [|i rest IH]; intros st g game Hg Hs u p Hp; simpl.
  - exists p. split; [exact Hp | apply sameStanding_refl].
  - destruct (step_frozen st i g game Hg Hs u p Hp) as (p1 & Hp1 & S1).
    destruct (writes_games _ _ _ (step_writes st i) g game Hg) as (game1 & Hg1 & A).
    assert (Hs1 : status game1 = completed).
    { destruct A as (_ & _ & _ & _ & _ & Hr & _). rewrite Hs in Hr.
      destruct (status game1); simpl in Hr; try lia. reflexivity. }
    destruct (step st i) as [st1 outs1]. simpl in *.
    destruct (IH st1 g game1 Hg1 Hs1 u p1 Hp1) as (p2 & Hp2 & S2).
    destruct (run st1 rest) as [st2 outs2]. simpl in *.
    exists p2. split; [exact Hp2 | eapply sameStanding_trans; eassumption].
Qed.

Lemma completed_game_standings_are_final_witness :
  exists p',
    getParticipant
      (storage (fst (run (cleanupGames Examples.lobby0)
                       [Examples.join 3; Examples.ready 3;
                        Examples.release 3 5000]))) 1 3 = Some p' /\
    sameStanding
      (mkParticipant 1 1 3 true false (Some 60%Q) 0 false false false 0%Q) p'.
Proof.
  apply (completed_game_standings_are_final
           [Examples.join 3; Examples.ready 3; Examples.release 3 5000]
           (cleanupGames Examples.lobby0) 1
           (mkGame 1 3 completed 0 3 60 true false 0 None)); reflexivity.
Defined.

(** ** Joining a game *)






Lemma participantIdCounter_updateGame s id f :
  participantIdCounter (updateGame s id f) = participantIdCounter s.
Proof. unfold updateGame. destruct (getGame s id); reflexivity. Qed.

(** X15: a user who joins a waiting game for the first time gets a fresh
    row: its id is the current counter value (which then rises by one), the
    time bank is the game's starting time bank, tokens are 0, it is neither
    eliminated nor a bot and has not bid; it is host and ready exactly when
    the user is the game's creator and the game has no host yet.  The row
    is appended at the end of the game's participant listing and no other
    row changes. *)
Theorem newcomer_gets_a_fresh_row st gid uid ws game user :
  getGame (storage st) gid = Some game -> status game = waiting ->
  getParticipant (storage st) gid uid = None ->
  getUser (storage st) uid = Some user ->
  let s' := storage (fst (handleJoinGame st gid uid ws)) in
  let host :=
    (createdById game =? uid)
    && negb (isSome (find isHost (getParticipantsByGame (storage st) gid))) in
  let row :=
    mkParticipant (participantIdCounter (storage st)) gid uid host host
      (Some (startingTimeBank game)) 0 false false false 0 in
  getParticipant s' gid uid = Some row /\
  getParticipantsByGame s' gid = getParticipantsByGame (storage st) gid ++ [row] /\
  participantIdCounter s' = participantIdCounter (storage st) + 1 /\
  forall g u, (g, u) <> (gid, uid) ->
    getParticipant s' g u = getParticipant (storage st) g u.
Proof.
  intros Hg Hs Hp Hu. cbv zeta.
  unfold handleJoinGame. rewrite Hg, Hs, Hp. cbn [status_eqb negb andb].
  unfold joinStore. rewrite Hp, Hu.
  set (host := (createdById game =? uid) && _).
  unfold addParticipant.
  set (row := mkParticipant _ gid uid host host _ 0 false false false 0%Q).
  set (s1 := mkStorage _ _ _ _).
  assert (E : forall g u,
            getParticipant (if host then updateGameHost s1 gid uid else s1) g u
            = getParticipant s1 g u).
  { intros g u. destruct host; [apply getParticipant_updateGame | reflexivity]. }
  assert (L : getParticipantsByGame (if host then updateGameHost s1 gid uid else s1) gid
              = getParticipantsByGame s1 gid).
  { destruct host; [apply getParticipantsByGame_updateGame | reflexivity]. }
  assert (C : participantIdCounter (if host then updateGameHost s1 gid uid else s1)
              = participantIdCounter s1).
  { destruct host; [apply participantIdCounter_updateGame | reflexivity]. }
  cbn [fst storage]. rewrite E, L, C.
  split; [|split; [|split]].
  - unfold getParticipant, s1. simpl.
    apply JsMapFacts.get_set_same. apply key_eqb_eq.
  - unfold getParticipantsByGame, s1. cbn [gameParticipants].
    rewrite values_set_absent by exact Hp.
    unfold JsMap.values. rewrite map_app, filter_app. simpl.
    rewrite Z.eqb_refl. reflexivity.
  - reflexivity.
  - intros g u Hne. rewrite E. unfold getParticipant, s1. cbn [gameParticipants].
    apply JsMapFacts.get_set_other; [apply key_eqb_eq|].
    unfold participantKey. congruence.
Qed.

Lemma newcomer_gets_a_fresh_row_witness :
  let s' := storage (fst (handleJoinGame Examples.lobby0 1 1 (Examples.sock 1))) in
  let row := mkParticipant 2 1 1 false false (Some 60%Q) 0 false false false 0%Q in
  getParticipant s' 1 1 = Some row /\
  getParticipantsByGame s' 1
    = getParticipantsByGame (storage Examples.lobby0) 1 ++ [row] /\
  participantIdCounter s' = participantIdCounter (storage Examples.lobby0) + 1 /\
  forall g u, (g, u) <> (1, 1) ->
    getParticipant s' g u = getParticipant (storage Examples.lobby0) g u.
Proof.
  apply (newcomer_gets_a_fresh_row Examples.lobby0 1 1 (Examples.sock 1)
           (mkGame 1 3 waiting 0 3 60 true false 0 None) Examples.ann);
    reflexivity.
Defined.

(** ** The life cycle of a game *)

Lemma prim_games_none gid s s' :
  prim gid s s' -> forall id, getGame s id = None -> getGame s' id = None.
Proof.
  intros Hp id Hn.
  assert (Hgame : forall f, getGame (updateGame s gid f) id = None).
  { intros f. rewrite getGame_updateGame, Hn. destruct (gid =? id); reflexivity. }
  destruct Hp;
    try (unfold updateParticipantReadyStatus, updateParticipantHostStatus,
           updateParticipantTimeBank, updateParticipantTokens,
           eliminateParticipant, updateParticipantBidDetails;
         rewrite getGame_updateParticipant; exact Hn);
    try apply Hgame.
  exact Hn.
Qed.

Lemma prim_budget gid s s' :
  prim gid s s' ->
  forall g, (startsLeft s' g <= startsLeft s g)%nat /\
            (endsLeft s' g <= endsLeft s g)%nat.
Proof.
  intros Hp g. unfold startsLeft, endsLeft.
  destruct (getGame s g) as [game|] eqn:Hg.
  - destruct (prim_games gid s s' Hp g game Hg) as (game' & Hg' & A).
    rewrite Hg'. destruct A as (_ & _ & _ & _ & _ & Hr & _).
    destruct (status game), (status game'); simpl in *; lia.
  - rewrite (prim_games_none gid s s' Hp g Hg). lia.
Qed.

Lemma writes_budget allowed s s' :
  writes allowed s s' ->
  forall g, (startsLeft s' g <= startsLeft s g)%nat /\
            (endsLeft s' g <= endsLeft s g)%nat.
Proof.
  induction 1 as [|s s' s'' gid Ha Hp Hw IH]; intros g; [lia|].
  destruct (prim_budget gid s s' Hp g). destruct (IH g). lia.
Qed.

Lemma handleJoinGame_quiet st gid u ws g :
  filter (isGameStart g) (snd (handleJoinGame st gid u ws)) = [] /\
  filter (isGameEnd g) (snd (handleJoinGame st gid u ws)) = [].
Proof.
  unfold handleJoinGame, sendGameState.
  destruct (getGame (storage st) gid); [|split; reflexivity].
  destruct (_ && _); [split; reflexivity|].
  destruct (joinStore _ _ _ _); [|split; reflexivity]. simpl.
  destruct (getGame _ _); split; reflexivity.
Qed.

Lemma handlePlayerReady_quiet st gid u r g :
  filter (isGameStart g) (snd (handlePlayerReady st gid u r)) = [] /\
  filter (isGameEnd g) (snd (handlePlayerReady st gid u r)) = [].
Proof.
  unfold handlePlayerReady.
  destruct (getGame _ _); [|split; reflexivity].
  destruct (_ && _); [|split; reflexivity].
  destruct (forallb _ _); split; reflexivity.
Qed.

Lemma onClose_quiet st ws u gid g :
  filter (isGameStart g) (snd (onClose st ws u gid)) = [] /\
  filter (isGameEnd g) (snd (onClose st ws u gid)) = [].
Proof.
  unfold onClose. destruct (_ && _); [|split; reflexivity].
  destruct (JsMap.get Z.eqb (gameClients st) gid) as [room|]; [|split; reflexivity].
  destruct (JsMap.get Z.eqb room u) as [socket|]; [|split; reflexivity].
  destruct (_ =? _)%nat; split; reflexivity.
Qed.

(** The effects of [endCurrentRound], and the status it leaves. *)
Lemma endCurrentRound_outs st gid game :
  getGame (storage st) gid = Some game -> status game = in_progress ->
  exists w h next game',
    getGame (storage (fst (endCurrentRound st gid))) gid = Some game' /\
    ((snd (endCurrentRound st gid) =
        [Broadcast gid (ROUND_END gid (currentRound game) w h next);
         RoundStartTimer gid (currentRound game + 1)] /\
      status game' = in_progress) \/
     (exists rankings,
        snd (endCurrentRound st gid) =
          [Broadcast gid (ROUND_END gid (currentRound game) w h next);
           Broadcast gid (GAME_END gid rankings)] /\
        status game' = completed)).
Proof.
  intros Hg Hs.
  pose proof (getGame_resolveRound (storage st) game gid
                (getParticipantsByGame (storage st) gid)
                (reduceWinner (activeBidders (storage st) gid)) Hg) as Hg3.
  unfold endCurrentRound. rewrite Hg, Hs. simpl. rewrite Hg3. simpl.
  replace (currentRound game + 1 - 1) with (currentRound game) by lia.
  destruct (totalRounds game <=? currentRound game).
  - set (st3 := mkState _ (gameClients st)).
    destruct (endGame_game st3 gid _ Hg3) as (Hg4 & rankings & Hout).
    destruct (endGame st3 gid) as [st4 outs]. simpl in *. subst outs.
    eexists _, _, _, _. split; [exact Hg4|]. right.
    exists rankings. split; reflexivity.
  - eexists _, _, _, _. split; [exact Hg3|]. left. split; [reflexivity | exact Hs].
Qed.

Lemma handleBuzzerRelease_budget st gid u h g :
  filter (isGameStart g) (snd (handleBuzzerRelease st gid u h)) = [] /\
  (length (filter (isGameEnd g) (snd (handleBuzzerRelease st gid u h)))
   + endsLeft (storage (fst (handleBuzzerRelease st gid u h))) g
   <= endsLeft (storage st) g)%nat.
Proof.
  pose proof (writes_budget _ _ _ (handleBuzzerRelease_writes st gid u h) g) as [_ B].
  revert B. unfold handleBuzzerRelease.
  destruct (getGame (storage st) gid) as [game|] eqn:Hg;
    [|intros B; split; [reflexivity | exact B]].
  destruct (status_eqb (status game) in_progress) eqn:Hs;
    [|intros B; split; [reflexivity | exact B]].
  apply status_eqb_eq in Hs. simpl.
  destruct (getParticipant (storage st) gid u) as [p|] eqn:Hp;
    [|intros B; split; [reflexivity | exact B]].
  destruct (isEliminated p); [intros B; split; [reflexivity | exact B]|].
  destruct (hasBidThisRound p); [intros B; split; [reflexivity | exact B]|].
  destruct (allActivePlayersHaveBid _ gid);
    [|intros B; split; [reflexivity | exact B]].
  set (st1 := mkState (recordBid (storage st) gid u p h) (gameClients st)).
  assert (Hg1 : getGame (storage st1) gid = Some game).
  { simpl. rewrite getGame_recordBid. assumption. }
  destruct (endCurrentRound_outs st1 gid game Hg1 Hs)
    as (w & hh & next & game' & Hg' & Hcase).
  destruct (endCurrentRound st1 gid) as [st2 outs]. simpl in *.
  intros B.
  destruct Hcase as [[Hout Hst]|(rankings & Hout & Hst)]; subst outs; simpl.
  - split; [reflexivity | exact B].
  - split; [reflexivity|].
    destruct (gid =? g) eqn:K; simpl; [|exact B].
    apply Z.eqb_eq in K. subst g. unfold endsLeft in *.
    rewrite Hg'. rewrite Hg, Hst, Hs. simpl. lia.
Qed.

Lemma startGame_budget st gid g :
  (length (filter (isGameStart g) (snd (startGame st gid)))
   + startsLeft (storage (fst (startGame st gid))) g
   <= startsLeft (storage st) g)%nat /\
  filter (isGameEnd g) (snd (startGame st gid)) = [].
Proof.
  pose proof (writes_budget _ _ _ (startGame_writes st gid) g) as [B _].
  revert B. unfold startGame.
  destruct (getGame (storage st) gid) as [game|] eqn:Hg;
    [|intros B; split; [exact B | reflexivity]].
  destruct (status_eqb (status game) waiting) eqn:Hs; simpl;
    [|intros B; split; [exact B | reflexivity]].
  intros B. split; [|reflexivity].
  destruct (gid =? g) eqn:K; simpl; [|exact B].
  apply Z.eqb_eq in K. subst g. unfold startsLeft in *.
  unfold updateGameStatus. rewrite getGame_updateGame, Z.eqb_refl, Hg. simpl.
  rewrite Hs. lia.
Qed.

Lemma step_budget st i g :
  (length (filter (isGameStart g) (snd (step st i)))
   + startsLeft (storage (fst (step st i))) g <= startsLeft (storage st) g)%nat /\
  (length (filter (isGameEnd g) (snd (step st i)))
   + endsLeft (storage (fst (step st i))) g <= endsLeft (storage st) g)%nat.
Proof.
  pose proof (writes_budget _ _ _ (step_writes st i) g) as [Bs Be].
  assert (Quiet : forall outs,
            filter (isGameStart g) outs = [] /\ filter (isGameEnd g) outs = [] ->
            snd (step st i) = outs ->
            (length (filter (isGameStart g) (snd (step st i)))
             + startsLeft (storage (fst (step st i))) g
             <= startsLeft (storage st) g)%nat /\
            (length (filter (isGameEnd g) (snd (step st i)))
             + endsLeft (storage (fst (step st i))) g
             <= endsLeft (storage st) g)%nat).
  { intros outs [Hs He] Ho. rewrite Ho, Hs, He. simpl. split; assumption. }
  destruct i as [ws u data| ws u gid | gid | gid |].
  - simpl in *. unfold onMessage in *. destruct (u =? 0).
    { eapply Quiet; [|reflexivity]. split; reflexivity. }
    destruct (d_type data), (d_holdTime data) as [h|];
      destruct (negb (d_gameId data =? 0));
      try (eapply Quiet; [|reflexivity]; split; reflexivity);
      try (eapply Quiet; [apply handleJoinGame_quiet | reflexivity]);
      try (eapply Quiet; [apply handlePlayerReady_quiet | reflexivity]).
    destruct (handleBuzzerRelease_budget st (d_gameId data) u h g) as [Hs He].
    rewrite Hs. simpl. split; assumption.
  - eapply Quiet; [apply onClose_quiet | reflexivity].
  - simpl in *. destruct (startGame_budget st gid g) as [Hs He].
    rewrite He. simpl. split; assumption.
  - eapply Quiet; [|reflexivity]. split; reflexivity.
  - eapply Quiet; [|reflexivity]. split; reflexivity.
Qed.

Lemma run_budget inputs : forall st g,
  (length (filter (isGameStart g) (snd (run st inputs)))
   + startsLeft (storage (fst (run st inputs))) g <= startsLeft (storage st) g)%nat /\
  (length (filter (isGameEnd g) (snd (run st inputs)))
   + endsLeft (storage (fst (run st inputs))) g <= endsLeft (storage st) g)%nat.
Proof.
  induction inputs as [|i rest IH]; intros st g; simpl; [lia|].
  destruct (step_budget st i g) as [S1 E1].
  destruct (step st i) as [st1 outs1]. simpl in *.
  destruct (IH st1 g) as [S2 E2].
  destruct (run st1 rest) as [st2 outs2]. simpl in *.
  rewrite !filter_app, !length_app. lia.
Qed.

(** X16: over any run, a game is announced as started at most once and as
    ended at most once, however many countdowns elapse or releases arrive:
    GAME_START is broadcast only for a game that was still waiting, GAME_END
    only for a game that was not yet completed, and a game that does not
    exist gets neither. *)
Theorem game_starts_and_ends_at_most_once st inputs g :
  let outs := snd (run st inputs) in
  (length (filter (isGameStart g) outs) <= 1)%nat /\
  (length (filter (isGameEnd g) outs) <= 1)%nat /\
  (filter (isGameStart g) outs <> [] ->
   exists game, getGame (storage st) g = Some game /\ status game = waiting) /\
  (filter (isGameEnd g) outs <> [] ->
   exists game, getGame (storage st) g = Some game /\ status game <> completed).
Proof.
  cbv zeta. destruct (run_budget inputs st g) as [S E].
  assert (S1 : (startsLeft (storage st) g <= 1)%nat).
  { unfold startsLeft. destruct (getGame _ _) as [game|]; [|lia].
    destruct (status_eqb _ _); lia. }
  assert (E1 : (endsLeft (storage st) g <= 1)%nat).
  { unfold endsLeft. destruct (getGame _ _) as [game|]; [|lia].
    destruct (status_eqb _ _); lia. }
  split; [lia|]. split; [lia|]. split.
  - intros Hne. unfold startsLeft in S.
    destruct (getGame (storage st) g) as [game|].
    + exists game. split; [reflexivity|].
      destruct (status_eqb (status game) waiting) eqn:K;
        [apply status_eqb_eq; exact K|].
      destruct (filter (isGameStart g) _); [contradiction | simpl in S; lia].
    + destruct (filter (isGameStart g) _); [contradiction | simpl in S; lia].
  - intros Hne. unfold endsLeft in E.
    destruct (getGame (storage st) g) as [game|].
    + exists game. split; [reflexivity|].
      destruct (status_eqb (status game) completed) eqn:K.
      * destruct (filter (isGameEnd g) _); [contradiction | simpl in E; lia].
      * intros Hc. rewrite Hc in K. discriminate.
    + destruct (filter (isGameEnd g) _); [contradiction | simpl in E; lia].
Qed.

(** ** A ready message from outside the game *)

(** X17: PLAYER_READY is not checked against membership.  Sent by a user
    who has no row in the game it writes nothing, yet it is broadcast to the
    room all the same, and it starts the countdown whenever the game is
    waiting with at least two rows that are all ready, whatever ready value
    the message carries. *)
Theorem ready_from_a_non_member st gid uid ready :
  getParticipant (storage st) gid uid = None ->
  fst (handlePlayerReady st gid uid ready) = st /\
  snd (handlePlayerReady st gid uid ready) =
    Broadcast gid (PLAYER_READY gid uid ready)
    :: (if match getGame (storage st) gid with
           | Some game =>
               status_eqb (status game) waiting
               && (2 <=? length (getParticipantsByGame (storage st) gid))%nat
               && forallb (fun p => isReady p) (getParticipantsByGame (storage st) gid)
           | None => false
           end
        then [StartGameCountdown gid] else []).
Proof.
  intros Hp.
  assert (Hs : updateParticipantReadyStatus (storage st) gid uid ready = storage st).
  { unfold updateParticipantReadyStatus, updateParticipant. rewrite Hp. reflexivity. }
  unfold handlePlayerReady. rewrite Hs.
  assert (Hst : mkState (storage st) (gameClients st) = st) by (destruct st; reflexivity).
  rewrite Hst.
  destruct (getGame (storage st) gid) as [game|]; [|split; reflexivity].
  destruct (status_eqb (status game) waiting); cbn [andb]; [|split; reflexivity].
  destruct (2 <=? length (getParticipantsByGame (storage st) gid))%nat; cbn [andb];
    [|split; reflexivity].
  destruct (forallb _ _); split; reflexivity.
Qed.

Lemma ready_from_a_non_member_witness :
  let st := fst (run Examples.lobby0
                   [Examples.join 1; Examples.ready 1; Examples.ready 3]) in
  fst (handlePlayerReady st 1 2 false) = st /\
  snd (handlePlayerReady st 1 2 false) =
    Broadcast 1 (PLAYER_READY 1 2 false)
    :: (if match getGame (storage st) 1 with
           | Some game =>
               status_eqb (status game) waiting
               && (2 <=? length (getParticipantsByGame (storage st) 1))%nat
               && forallb (fun p => isReady p) (getParticipantsByGame (storage st) 1)
           | None => false
           end
        then [StartGameCountdown 1] else []).
Proof.
  apply (ready_from_a_non_member
           (fst (run Examples.lobby0
                   [Examples.join 1; Examples.ready 1; Examples.ready 3]))
           1 2 false).
  reflexivity.
Defined.

(** ** A round waits for every active player *)

Lemma pending_blocks s g u :
  wf_storage s -> pending s g u -> allActivePlayersHaveBid s g = false.
Proof.
  intros Hwf (p & Hp & He & Hb).
  destruct (allActivePlayersHaveBid s g) eqn:E; [|reflexivity].
  apply allActivePlayersHaveBid_spec in E; [|exact Hwf].
  destruct E as [_ Hall].
  destruct (getParticipant_in_game s g u p Hwf Hp) as (Hin & _ & _).
  specialize (Hall p Hin He). congruence.
Qed.

Lemma pending_evolves s s' g u :
  evolves (fun a b => isEliminated b = isEliminated a /\
                      hasBidThisRound b = hasBidThisRound a)
          (fun _ _ => True) s s' ->
  pending s g u -> pending s' g u.
Proof.
  intros (EP & _ & _) (p & Hp & He & Hb).
  destruct (EP g u p Hp) as (p' & Hp' & He' & Hb').
  exists p'. split; [exact Hp'|]. split; congruence.
Qed.

Lemma release_rounds_elsewhere st gid u h g :
  g <> gid -> roundsOf g (snd (handleBuzzerRelease st gid u h)) = [].
Proof.
  intros Hne. unfold handleBuzzerRelease.
  destruct (getGame (storage st) gid) as [game|] eqn:Hg; [|reflexivity].
  destruct (status_eqb (status game) in_progress) eqn:Hs; [|reflexivity].
  apply status_eqb_eq in Hs. simpl.
  destruct (getParticipant (storage st) gid u) as [p|]; [|reflexivity].
  destruct (isEliminated p); [reflexivity|].
  destruct (hasBidThisRound p); [reflexivity|].
  destruct (allActivePlayersHaveBid _ gid); [|reflexivity].
  set (st1 := mkState (recordBid (storage st) gid u p h) (gameClients st)).
  assert (Hg1 : getGame (storage st1) gid = Some game).
  { simpl. rewrite getGame_recordBid. assumption. }
  destruct (endCurrentRound_resolves st1 gid game Hg1 Hs)
    as (nextRound & rest & game' & Hout & Hrest & _ & _).
  destruct (endCurrentRound st1 gid) as [st2 outs]. simpl in *.
  unfold roundsOf. rewrite Hout. simpl. rewrite Hrest. simpl.
  destruct (gid =? g) eqn:K; [|reflexivity].
  apply Z.eqb_eq in K. congruence.
Qed.

Lemma step_waits st i g u :
  wf_storage (storage st) -> pending (storage st) g u ->
  releaseFrom g u i = false ->
  pending (storage (fst (step st i))) g u /\ roundsOf g (snd (step st i)) = [].
Proof.
  intros Hwf Hpen Hrel.
  assert (Rrefl : forall p : GameParticipant,
            isEliminated p = isEliminated p /\ hasBidThisRound p = hasBidThisRound p)
    by (intro; split; reflexivity).
  assert (Rtrans : forall a b c : GameParticipant,
            isEliminated b = isEliminated a /\ hasBidThisRound b = hasBidThisRound a ->
            isEliminated c = isEliminated b /\ hasBidThisRound c = hasBidThisRound b ->
            isEliminated c = isEliminated a /\ hasBidThisRound c = hasBidThisRound a)
    by (intros a b c [? ?] [? ?]; split; congruence).
  assert (Quiet : forall st' outs,
            evolves (fun a b => isEliminated b = isEliminated a /\
                                hasBidThisRound b = hasBidThisRound a)
                    (fun _ _ => True) (storage st) (storage st') ->
            roundEnds outs = [] ->
            pending (storage st') g u /\ roundsOf g outs = []).
  { intros st' outs E Hr. split; [eapply pending_evolves; eassumption|].
    unfold roundsOf. rewrite Hr. reflexivity. }
  assert (Same : forall outs, roundEnds outs = [] ->
            pending (storage st) g u /\ roundsOf g outs = []).
  { intros outs Hr. split; [exact Hpen|]. unfold roundsOf. rewrite Hr. reflexivity. }
  destruct i as [ws uid data| ws uid gid | gid | gid |]; simpl in *.
  - unfold onMessage. destruct (uid =? 0) eqn:U0; [apply Same; reflexivity|].
    destruct (d_type data) eqn:Ty, (d_holdTime data) as [h|];
      destruct (negb (d_gameId data =? 0));
      try (apply Same; reflexivity).
    1,2: (apply Quiet; [|apply handleJoinGame_roundEnds];
          apply handleJoinGame_evolves; auto; intros; split; reflexivity).
    1,2: (apply Quiet; [|apply handlePlayerReady_roundEnds];
          apply handlePlayerReady_evolves; auto; intros; split; reflexivity).
    set (gid := d_gameId data) in *.
    destruct (Z.eq_dec g gid) as [->|Hne].
    + (* a release for this game, from another user *)
      assert (Hu : uid <> u).
      { intros ->. rewrite !Z.eqb_refl in Hrel. discriminate. }
      unfold handleBuzzerRelease.
      destruct (getGame (storage st) gid) as [game|] eqn:Hg;
        [|apply Same; reflexivity].
      destruct (negb (status_eqb (status game) in_progress));
        [apply Same; reflexivity|].
      destruct (getParticipant (storage st) gid uid) as [p|] eqn:Hp;
        [|apply Same; reflexivity].
      destruct (isEliminated p); [apply Same; reflexivity|].
      destruct (hasBidThisRound p); [apply Same; reflexivity|].
      assert (Hpen1 : pending (recordBid (storage st) gid uid p h) gid u).
      { destruct Hpen as (q & Hq & He & Hb). exists q.
        rewrite getParticipant_recordBid_other; [auto|].
        destruct (key_eqb (gid, uid) (gid, u)) eqn:K; [|reflexivity].
        apply key_eqb_eq in K. congruence. }
      cbn [storage].
      rewrite (pending_blocks _ gid u (recordBid_wf _ _ _ _ h Hp Hwf) Hpen1).
      split; [exact Hpen1 | reflexivity].
    + (* a release for another game *)
      split; [|apply release_rounds_elsewhere; exact Hne].
      pose proof (handleBuzzerRelease_writes st gid uid h) as W.
      destruct (writes_other _ _ _ W g Hne) as [_ P].
      destruct Hpen as (q & Hq & He & Hb). exists q. rewrite P. auto.
  - rewrite onClose_storage. split; [exact Hpen|].
    unfold roundsOf. rewrite onClose_roundEnds. reflexivity.
  - apply Quiet; [|apply startGame_roundEnds].
    apply startGame_evolves; auto.
  - apply Quiet; [|reflexivity]. apply handleEmptyGame_evolves; auto.
  - apply Quiet; [|reflexivity]. apply cleanupGames_evolves; auto.
Qed.

(** X18: a round ends only when every active player has released.  While a
    participant who is not eliminated and has not bid sends no BUZZER_RELEASE
    for the game, no sequence of other inputs produces a ROUND_END for it:
    the releases of the other players are recorded, the participant stays
    pending, and there is no timeout that resolves the round. *)
Theorem silent_player_blocks_the_round inputs : forall st g u,
  wf_storage (storage st) -> pending (storage st) g u ->
  forallb (fun i => negb (releaseFrom g u i)) inputs = true ->
  roundsOf g (snd (run st inputs)) = [] /\
  pending (storage (fst (run st inputs))) g u.
Proof.
  induction inputs as [|i rest IH]; intros st g u Hwf Hpen Hq; simpl.
  - split; [reflexivity | exact Hpen].
  - simpl in Hq. apply andb_true_iff in Hq. destruct Hq as [Hi Hrest].
    apply negb_true_iff in Hi.
    destruct (step_waits st i g u Hwf Hpen Hi) as [Hpen1 Hr1].
    pose proof (writes_wf _ _ _ (step_writes st i) Hwf) as Hwf1.
    destruct (step st i) as [st1 outs1]. simpl in *.
    destruct (IH st1 g u Hwf1 Hpen1 Hrest) as [Hr2 Hpen2].
    destruct (run st1 rest) as [st2 outs2]. simpl in *.
    rewrite roundsOf_app, Hr1, Hr2. split; [reflexivity | exact Hpen2].
Qed.

Lemma silent_player_blocks_the_round_witness :
  roundsOf 1 (snd (run Examples.arena
                     [Examples.release 3 5000; Examples.release 1 3000;
                      Examples.release 3 1000; CleanupTick])) = [] /\
  pending (storage (fst (run Examples.arena
                           [Examples.release 3 5000; Examples.release 1 3000;
                            Examples.release 3 1000; CleanupTick]))) 1 2.
Proof.
  apply (silent_player_blocks_the_round
           [Examples.release 3 5000; Examples.release 1 3000;
            Examples.release 3 1000; CleanupTick] Examples.arena 1 2).
  - wf_by_computation.
  - eexists. split; [reflexivity|]. split; reflexivity.
  - reflexivity.
Defined.

(** * Bots *)

Lemma clamp_bounds lo hi x :
  (lo <= hi)%Q -> (lo <= Qmax lo (Qmin hi x) /\ Qmax lo (Qmin hi x) <= hi)%Q.
Proof.
  intros H. split.
  - apply Q.le_max_l.
  - apply Q.max_lub; [exact H | apply Q.le_min_l].
Qed.

(** X19: whatever [Math.random()] returns, whatever the round number and
    the last winning time, a bot's hold time lies between the minimum and
    the maximum hold time of its profile, hence always between 500 and
    15000 ms; for an id that is not in the bot list it is 3000 ms. *)
Theorem bot_hold_time_within_profile random botId gameId roundNumber w :
  let t := determineBotHoldTime random botId gameId roundNumber w in
  (500 <= t /\ t <= 15000)%Q /\
  match find (fun b => b_id b =? botId) bots with
  | Some bot =>
      (minHoldTime (botBehaviors (profile bot)) <= t /\
       t <= maxHoldTime (botBehaviors (profile bot)))%Q
  | None => t = 3000%Q
  end.
Proof.
  cbv zeta. unfold determineBotHoldTime.
  destruct (find (fun b => b_id b =? botId) bots) as [bot|].
  - cbv zeta.
    set (base := match profile bot with
                 | aggressive => _ | conservative => _ | erratic => _ end).
    clearbody base.
    assert (Hlohi : (minHoldTime (botBehaviors (profile bot))
                     <= maxHoldTime (botBehaviors (profile bot)))%Q)
      by (destruct (profile bot); simpl; lra).
    destruct (clamp_bounds _ _ base Hlohi) as [Hlo Hhi].
    split; [|split; assumption].
    split.
    + eapply Qle_trans; [|exact Hlo]. destruct (profile bot); simpl; lra.
    + eapply Qle_trans; [exact Hhi|]. destruct (profile bot); simpl; lra.
  - split; [lra | reflexivity].
Qed.

Lemma Qfloor_unit_scaled r (n : Z) :
  (0 <= r)%Q -> (r < 1)%Q -> 0 < n ->
  0 <= Qfloor (r * inject_Z n) < n.
Proof.
  intros H0 H1 Hn.
  assert (Hn' : (0 < inject_Z n)%Q) by (unfold Qlt; simpl; lia).
  assert (Hlo : (0 <= r * inject_Z n)%Q).
  { apply Qmult_le_0_compat; [exact H0 | apply Qlt_le_weak; exact Hn']. }
  assert (Hhi : (r * inject_Z n < inject_Z n)%Q).
  { setoid_replace (inject_Z n) with (1 * inject_Z n)%Q at 2 by ring.
    apply Qmult_lt_compat_r; assumption. }
  split.
  - apply (Qfloor_resp_le 0) in Hlo. exact Hlo.
  - rewrite Zlt_Qlt. eapply Qle_lt_trans; [apply Qfloor_le | exact Hhi].
Qed.

(** X20: for a draw in the unit interval and bounds a whole number apart,
    [randomInRange(min, max)] is [min] plus a whole number between 0 and
    [max - min]: it never leaves the closed range. *)
Theorem randomInRange_stays_in_range r min max (width : Z) :
  (0 <= r)%Q -> (r < 1)%Q -> 0 <= width -> (max - min == inject_Z width)%Q ->
  exists k, 0 <= k <= width /\
    randomInRange r min max = (inject_Z k + min)%Q /\
    (min <= randomInRange r min max /\ randomInRange r min max <= max)%Q.
Proof.
  intros H0 H1 Hw Hwidth. unfold randomInRange.
  assert (Hn : (max - min + 1 == inject_Z (width + 1))%Q).
  { rewrite Hwidth, inject_Z_plus. reflexivity. }
  assert (Hf : Qfloor (r * (max - min + 1)) = Qfloor (r * inject_Z (width + 1))).
  { apply Qfloor_comp. rewrite Hn. reflexivity. }
  rewrite Hf.
  destruct (Qfloor_unit_scaled r (width + 1) H0 H1 ltac:(lia)) as [Hlo Hhi].
  set (k := Qfloor (r * inject_Z (width + 1))) in *.
  exists k. split; [lia|]. split; [reflexivity|].
  assert (Hk0 : (0 <= inject_Z k)%Q) by (unfold Qle; simpl; lia).
  assert (Hk1 : (inject_Z k <= inject_Z width)%Q) by (unfold Qle; simpl; lia).
  split; lra.
Qed.

Lemma randomInRange_stays_in_range_witness :
  exists k, 0 <= k <= 7000 /\
    randomInRange (1 # 2) 3000 10000 = (inject_Z k + 3000)%Q /\
    (3000 <= randomInRange (1 # 2) 3000 10000 /\
     randomInRange (1 # 2) 3000 10000 <= 10000)%Q.
Proof.
  apply (randomInRange_stays_in_range (1 # 2) 3000 10000 7000).
  - unfold Qle. simpl. lia.
  - reflexivity.
  - lia.
  - reflexivity.
Defined.

Lemma randomIndex_lt r n :
  (0 <= r)%Q -> (r < 1)%Q -> (0 < n)%nat -> (randomIndex r n < n)%nat.
Proof.
  intros H0 H1 Hn. unfold randomIndex.
  destruct (Qfloor_unit_scaled r (Z.of_nat n) H0 H1 ltac:(lia)) as [Hlo Hhi].
  lia.
Qed.

(** X21: with [Math.random()] in the unit interval, [getRandomBot] always
    returns one of the six bots, and one of the requested profile when a
    profile is given: the index it computes is never out of range. *)
Theorem getRandomBot_returns_a_listed_bot random wanted :
  unitInterval random ->
  exists bot,
    getRandomBot random wanted = Some bot /\ In bot bots /\
    match wanted with Some p => profile bot = p | None => True end.
Proof.
  intros Hr. destruct (Hr 0%nat) as [H0 H1]. unfold getRandomBot.
  set (available := match wanted with
                    | Some p => filter (fun bot => profile_eqb (profile bot) p) bots
                    | None => bots
                    end).
  assert (Hpos : (0 < length available)%nat).
  { unfold available. destruct wanted as [[]|]; simpl; lia. }
  pose proof (randomIndex_lt (random 0%nat) (length available) H0 H1 Hpos) as Hlt.
  destruct (nth_error available (randomIndex (random 0%nat) (length available)))
    as [bot|] eqn:E.
  - exists bot. split; [reflexivity|]. apply nth_error_In in E.
    unfold available in E. destruct wanted as [p|]; [|split; [exact E | exact I]].
    apply filter_In in E. destruct E as [Hin Hp]. split; [exact Hin|].
    destruct (profile bot), p; simpl in Hp; try discriminate; reflexivity.
  - apply nth_error_None in E. lia.
Qed.

Lemma getRandomBot_returns_a_listed_bot_witness :
  exists bot,
    getRandomBot (fun _ => 3 # 4) (Some erratic) = Some bot /\ In bot bots /\
    match Some erratic with Some p => profile bot = p | None => True end.
Proof.
  apply (getRandomBot_returns_a_listed_bot (fun _ => 3 # 4) (Some erratic)).
  intros n. split; [unfold Qle; simpl; lia | reflexivity].
Defined.

(** ** The shuffle *)

Lemma nth_error_setAt_same {A} (a : list A) : forall i v,
  (i < length a)%nat -> nth_error (setAt a i v) i = Some v.
Proof.
  induction a as [|x a IH]; intros [|i] v H; simpl in *; try lia.
  - reflexivity.
  - apply IH. lia.
Qed.

Lemma nth_error_setAt_other {A} (a : list A) : forall i j v,
  i <> j -> nth_error (setAt a i v) j = nth_error a j.
Proof.
  induction a as [|x a IH]; intros [|i] [|j] v H; simpl; try reflexivity.
  - contradiction.
  - apply IH. congruence.
Qed.

Lemma setAt_perm {A} (a : list A) : forall i x y,
  nth_error a i = Some x -> Permutation (y :: a) (x :: setAt a i y).
Proof.
  induction a as [|h a IH]; intros [|i] x y H; simpl in *; try discriminate.
  - injection H as ->. apply perm_swap.
  - eapply perm_trans; [apply perm_swap|].
    eapply perm_trans; [apply perm_skip, (IH i x y H)|]. apply perm_swap.
Qed.

Lemma swap_perm {A} (a : list A) i j : Permutation (swap a i j) a.
Proof.
  unfold swap.
  destruct (nth_error a j) as [aj|] eqn:Ej; [|reflexivity].
  destruct (nth_error a i) as [ai|] eqn:Ei; [|reflexivity].
  pose proof (setAt_perm a i ai aj Ei) as P1.
  assert (Ej' : nth_error (setAt a i aj) j = Some aj).
  { destruct (Nat.eq_dec i j) as [<-|Hne].
    - apply nth_error_setAt_same. apply nth_error_Some. congruence.
    - rewrite nth_error_setAt_other by exact Hne. exact Ej. }
  pose proof (setAt_perm (setAt a i aj) j aj ai Ej') as P2.
  apply Permutation_cons_inv with (a := aj).
  symmetry. eapply perm_trans; [exact P1 | exact P2].
Qed.

Lemma shuffleFrom_perm {A} random : forall i k (a : list A),
  Permutation (shuffleFrom random k i a) a.
Proof.
  induction i as [|i IH]; intros k a; simpl; [reflexivity|].
  eapply perm_trans; [apply IH | apply swap_perm].
Qed.

Lemma filter_perm {A} (f : A -> bool) (l l' : list A) :
  Permutation l l' -> Permutation (filter f l) (filter f l').
Proof.
  induction 1 as [|x l l' _ IH|x y l|l l' l'' _ IH1 _ IH2]; simpl.
  - constructor.
  - destruct (f x); [apply perm_skip|]; exact IH.
  - destruct (f x), (f y); try reflexivity. apply perm_swap.
  - eapply perm_trans; eassumption.
Qed.

Lemma NoDup_map_firstn {A B} (f : A -> B) n (l : list A) :
  NoDup (map f l) -> NoDup (map f (firstn n l)).
Proof.
  intros H. rewrite <- (firstn_skipn n l), map_app in H.
  apply NoDup_app_remove_r in H. exact H.
Qed.

Lemma In_firstn {A} n (l : list A) x : In x (firstn n l) -> In x l.
Proof.
  intros H. rewrite <- (firstn_skipn n l). apply in_or_app. left. exact H.
Qed.

Lemma slice0_length {A} (a : list A) count :
  0 <= count -> length (slice0 a count) = Nat.min (Z.to_nat count) (length a).
Proof.
  intros H. unfold slice0.
  destruct (count <? 0) eqn:E; [apply Z.ltb_lt in E; lia|].
  rewrite length_firstn. lia.
Qed.

(** X22: [getRandomBots(count, profiles)] with a count that is not negative
    returns bots of the list that are pairwise distinct, all of a requested
    profile when profiles are given, and as many as asked for unless fewer
    are eligible: exactly min(count, number of eligible bots).  ([random]
    is assumed to be in the unit interval, as [Math.random()] is; the
    shuffle then only swaps positions inside the array.) *)
Theorem getRandomBots_picks_distinct_bots random count profiles :
  unitInterval random -> 0 <= count ->
  let picked := getRandomBots random count profiles in
  let eligible := fun bot =>
    match profiles with
    | Some ps =>
        if (0 <? length ps)%nat then existsb (profile_eqb (profile bot)) ps else true
    | None => true
    end in
  NoDup (map b_id picked) /\
  (forall bot, In bot picked -> In bot bots /\ eligible bot = true) /\
  length picked = Nat.min (Z.to_nat count) (length (filter eligible bots)).
Proof.
  intros _ Hc. cbv zeta. unfold getRandomBots.
  set (shuffled := shuffleFrom random 0 (length bots - 1) bots).
  assert (P : Permutation shuffled bots) by apply shuffleFrom_perm.
  assert (Hnd : NoDup (map b_id shuffled)).
  { eapply Permutation_NoDup; [apply Permutation_map; symmetry; exact P|].
    simpl. repeat constructor; simpl; intuition discriminate. }
  assert (All : forall f,
            NoDup (map b_id (slice0 (filter f shuffled) count)) /\
            (forall bot, In bot (slice0 (filter f shuffled) count) ->
                         In bot bots /\ f bot = true) /\
            length (slice0 (filter f shuffled) count)
            = Nat.min (Z.to_nat count) (length (filter f bots))).
  { intros f. split; [|split].
    - apply NoDup_map_firstn.
      assert (Hf : NoDup (map b_id (filter f shuffled))).
      { clear -Hnd. induction shuffled as [|x l IH]; simpl in *; [constructor|].
        inversion Hnd as [|? ? Hx Hl]; subst.
        destruct (f x); [|apply IH; exact Hl].
        simpl. constructor; [|apply IH; exact Hl].
        intros Hin. apply Hx. apply in_map_iff in Hin.
        destruct Hin as (y & Hy & Hin). apply filter_In in Hin.
        apply in_map_iff. exists y. tauto. }
      exact Hf.
    - intros bot Hin. apply In_firstn in Hin. apply filter_In in Hin.
      destruct Hin as [Hin Hf]. split; [|exact Hf].
      eapply Permutation_in; eassumption.
    - rewrite slice0_length by exact Hc.
      rewrite (Permutation_length (filter_perm f _ _ P)). reflexivity. }
  assert (Hall : forall l : list Bot, filter (fun _ => true) l = l).
  { induction l as [|x l IH]; simpl; [reflexivity | rewrite IH; reflexivity]. }
  destruct profiles as [ps|].
  - destruct (0 <? length ps)%nat.
    + apply All.
    + specialize (All (fun _ => true)). rewrite !Hall in All. exact All.
  - specialize (All (fun _ => true)). rewrite !Hall in All. exact All.
Qed.

Lemma getRandomBots_picks_distinct_bots_witness :
  let picked := getRandomBots (fun _ => 3 # 4) 3 (Some [erratic; aggressive]) in
  let eligible := fun bot =>
    match Some [erratic; aggressive] with
    | Some ps =>
        if (0 <? length ps)%nat then existsb (profile_eqb (profile bot)) ps else true
    | None => true
    end in
  NoDup (map b_id picked) /\
  (forall bot, In bot picked -> In bot bots /\ eligible bot = true) /\
  length picked = Nat.min (Z.to_nat 3) (length (filter eligible bots)).
Proof.
  apply (getRandomBots_picks_distinct_bots (fun _ => 3 # 4) 3
           (Some [erratic; aggressive])).
  - intros n. split; [unfold Qle; simpl; lia | reflexivity].
  - lia.
Defined.

(** * The rest of the store *)

(** X23: [createGame] always yields a waiting game under a new id, whatever
    status was passed, for the creator that was passed.  A [totalRounds]
    that is missing or 0 becomes 10 and a [startingTimeBank] that is
    missing or 0 becomes 600; any other value is kept, so no game has 0
    rounds or a 0 time bank.  A missing [currentRound] is 0, a missing
    [isPublic] is true and a missing [hasBots] is false.  The game is found
    under its id afterwards and every other game is as before. *)
Theorem createGame_applies_defaults s insertGame :
  let s' := fst (createGame s insertGame) in
  let game := snd (createGame s insertGame) in
  status game = waiting /\
  g_id game = gameIdCounter s /\ gameIdCounter s' = gameIdCounter s + 1 /\
  createdById game = ig_createdById insertGame /\
  totalRounds game <> 0 /\ ~ (startingTimeBank game == 0)%Q /\
  (ig_totalRounds insertGame = None \/ ig_totalRounds insertGame = Some 0 ->
   totalRounds game = 10) /\
  (forall n, ig_totalRounds insertGame = Some n -> n <> 0 -> totalRounds game = n) /\
  (ig_startingTimeBank insertGame = None \/
   (exists q, ig_startingTimeBank insertGame = Some q /\ (q == 0)%Q) ->
   startingTimeBank game = 600%Q) /\
  (forall q, ig_startingTimeBank insertGame = Some q -> ~ (q == 0)%Q ->
             startingTimeBank game = q) /\
  (ig_currentRound insertGame = None -> currentRound game = 0) /\
  (forall n, ig_currentRound insertGame = Some n -> currentRound game = n) /\
  (ig_isPublic insertGame = None -> isPublic game = true) /\
  (forall b, ig_isPublic insertGame = Some b -> isPublic game = b) /\
  (ig_hasBots insertGame = None -> hasBots game = false) /\
  (forall b, ig_hasBots insertGame = Some b -> hasBots game = b) /\
  getGame (mem s') (g_id game) = Some game /\
  forall id, id <> g_id game -> getGame (mem s') id = getGame (mem s) id.
Proof.
  cbv zeta. unfold createGame.
  cbn [fst snd status g_id gameIdCounter totalRounds startingTimeBank mem
       createdById currentRound isPublic hasBots].
  split; [reflexivity|]. split; [reflexivity|]. split; [reflexivity|].
  split; [reflexivity|].
  split.
  { unfold orZ. destruct (ig_totalRounds insertGame) as [n|]; [|discriminate].
    destruct (n =? 0) eqn:E; [discriminate|]. apply Z.eqb_neq. exact E. }
  split.
  { unfold orQ. destruct (ig_startingTimeBank insertGame) as [q|];
      [|intros H; apply Qeq_bool_iff in H; discriminate].
    destruct (Qeq_bool q 0) eqn:E.
    - intros H; apply Qeq_bool_iff in H; discriminate.
    - intros H. apply Qeq_bool_iff in H. congruence. }
  split; [intros [H|H]; rewrite H; reflexivity|].
  split.
  { intros n Hn Hne. rewrite Hn. unfold orZ.
    apply Z.eqb_neq in Hne. rewrite Hne. reflexivity. }
  split.
  { intros [H|(q & H & Hq)]; rewrite H; [reflexivity|]. unfold orQ.
    apply Qeq_bool_iff in Hq. rewrite Hq. reflexivity. }
  split.
  { intros q Hq Hne. rewrite Hq. unfold orQ.
    destruct (Qeq_bool q 0) eqn:E; [|reflexivity].
    apply Qeq_bool_iff in E. contradiction. }
  split; [intros H; rewrite H; reflexivity|].
  split.
  { intros n Hn. rewrite Hn. unfold orZ.
    destruct (Z.eqb_spec n 0) as [->|_]; reflexivity. }
  split; [intros H; rewrite H; reflexivity|].
  split; [intros b H; rewrite H; reflexivity|].
  split; [intros H; rewrite H; reflexivity|].
  split; [intros b H; rewrite H; reflexivity|].
  split.
  - unfold getGame, set_games. cbn [games].
    apply JsMapFacts.get_set_same. apply Z.eqb_eq.
  - intros id Hne. unfold getGame, set_games. cbn [games].
    apply JsMapFacts.get_set_other; [apply Z.eqb_eq | congruence].
Qed.

(** ** Users *)

Lemma find_app_last {A} (f : A -> bool) l x :
  find f (l ++ [x]) =
  match find f l with
  | Some y => Some y
  | None => if f x then Some x else None
  end.
Proof.
  induction l as [|a l IH]; simpl; [reflexivity|].
  destruct (f a); [reflexivity | exact IH].
Qed.

Lemma NoDup_app_iff_fresh {A} (l : list A) x :
  NoDup l -> ~ In x l -> NoDup (l ++ [x]).
Proof.
  intros Hnd Hx. apply NoDup_app; [exact Hnd | repeat constructor; intros [] |].
  intros a Ha [<-|[]]. contradiction.
Qed.

Lemma users_wf_fresh s :
  users_wf s -> JsMap.get Z.eqb (users (mem s)) (userIdCounter s) = None.
Proof.
  intros [_ Hk].
  destruct (JsMap.get Z.eqb (users (mem s)) (userIdCounter s)) as [u|] eqn:E;
    [|reflexivity].
  apply JsMapFacts.get_In in E; [|apply Z.eqb_eq].
  destruct (Hk _ _ E). lia.
Qed.

Section UsernameFacts.
Variable toLowerCase : string -> string.

Lemma createUser_fresh s name shown :
  users_wf s ->
  users (mem (fst (createUser s name shown)))
  = users (mem s) ++ [(userIdCounter s, mkUser (userIdCounter s) name shown)].
Proof.
  intros Hwf. unfold createUser. cbn [fst mem users].
  apply values_set_absent. apply users_wf_fresh. exact Hwf.
Qed.

Lemma createUser_wf s name shown :
  users_wf s -> users_wf (fst (createUser s name shown)).
Proof.
  intros Hwf. pose proof (createUser_fresh s name shown Hwf) as E.
  destruct Hwf as [Hnd Hk]. unfold users_wf. rewrite E. split.
  - unfold JsMap.keys. rewrite map_app. simpl.
    apply NoDup_app_iff_fresh.
    + exact Hnd.
    + intros Hin. apply in_map_iff in Hin. destruct Hin as ([k u] & Hfst & Hin).
      simpl in Hfst. subst k. destruct (Hk _ _ Hin). lia.
  - intros k u Hin. apply in_app_or in Hin. destruct Hin as [Hin|[Hin|[]]].
    + destruct (Hk _ _ Hin). unfold createUser. simpl. split; [assumption | lia].
    + injection Hin as <- <-. unfold createUser. simpl. split; [reflexivity | lia].
Qed.

(** X24: logging in keeps the user table in order.  With ids below the
    counter and usernames unique up to case, a login with a non-empty name
    leaves both properties intact, leaves every existing user as it is, and
    answers with a stored user whose name agrees with the given one up to
    case: the existing one if there is one, a new one otherwise.  Logging in
    again with the same name gives the same user and creates nothing. *)
Theorem login_keeps_usernames_unique s name :
  users_wf s -> uniqueNames toLowerCase s -> name <> EmptyString ->
  let s' := fst (login toLowerCase s name) in
  users_wf s' /\ uniqueNames toLowerCase s' /\
  (forall id user, getUser (mem s) id = Some user -> getUser (mem s') id = Some user) /\
  exists user,
    snd (login toLowerCase s name) = Some user /\
    toLowerCase (username user) = toLowerCase name /\
    getUser (mem s') (u_id user) = Some user /\
    login toLowerCase s' name = (s', Some user).
Proof.
  intros Hwf Huniq Hname. cbv zeta.
  assert (Hne : String.eqb name EmptyString = false).
  { apply String.eqb_neq. exact Hname. }
  unfold login. rewrite Hne.
  destruct (getUserByUsername toLowerCase s name) as [user|] eqn:Hfind.
  - cbn [fst snd]. split; [exact Hwf|]. split; [exact Huniq|].
    split; [auto|]. exists user.
    unfold getUserByUsername in Hfind. pose proof Hfind as Hf.
    apply find_some in Hf. destruct Hf as [Hin Heq].
    apply String.eqb_eq in Heq.
    split; [reflexivity|]. split; [exact Heq|]. split.
    + unfold JsMap.values in Hin. apply in_map_iff in Hin.
      destruct Hin as ([k u] & Hsnd & Hin). simpl in Hsnd. subst u.
      destruct Hwf as [Hnd Hk]. destruct (Hk _ _ Hin) as [-> _].
      unfold getUser. apply JsMapFacts.In_get; [apply Z.eqb_eq | exact Hnd | exact Hin].
    + unfold getUserByUsername. rewrite Hfind. reflexivity.
  - pose proof (createUser_fresh s name name Hwf) as E.
    pose proof (createUser_wf s name name Hwf) as Hwf'.
    destruct (createUser s name name) as [s' newUser] eqn:C.
    assert (HnewUser : newUser = mkUser (userIdCounter s) name name).
    { unfold createUser in C. injection C as _ <-. reflexivity. }
    cbn [fst snd] in *. subst newUser.
    set (new := mkUser (userIdCounter s) name name) in *.
    unfold getUserByUsername in Hfind.
    split; [exact Hwf'|]. split; [|split].
    + unfold uniqueNames. rewrite E. unfold JsMap.values. rewrite !map_app. simpl.
      apply NoDup_app_iff_fresh; [exact Huniq|].
      intros Hin. apply in_map_iff in Hin. destruct Hin as (u & Hu & Hin).
      pose proof (find_none _ _ Hfind u Hin) as Hno. simpl in Hno.
      rewrite Hu, String.eqb_refl in Hno. discriminate.
    + intros id user Hget. unfold getUser in *. rewrite E.
      apply JsMapFacts.get_In in Hget; [|apply Z.eqb_eq].
      apply JsMapFacts.In_get; [apply Z.eqb_eq | | apply in_or_app; left; exact Hget].
      destruct Hwf' as [Hnd' _]. rewrite E in Hnd'. exact Hnd'.
    + exists new. split; [reflexivity|]. split; [reflexivity|].
      assert (Hget : getUser (mem s') (u_id new) = Some new).
      { unfold getUser. apply JsMapFacts.In_get; [apply Z.eqb_eq | apply Hwf' |].
        rewrite E. apply in_or_app. right. left. reflexivity. }
      split; [exact Hget|].
      unfold getUserByUsername. rewrite E. unfold JsMap.values.
      rewrite map_app. simpl. rewrite find_app_last.
      unfold JsMap.values in Hfind. rewrite Hfind. simpl.
      rewrite String.eqb_refl. reflexivity.
Qed.
End UsernameFacts.

Lemma login_keeps_usernames_unique_witness :
  let s' := fst (login (fun x => x) emptyStore "ann") in
  users_wf s' /\ uniqueNames (fun x => x) s' /\
  (forall id user, getUser (mem emptyStore) id = Some user ->
                   getUser (mem s') id = Some user) /\
  exists user,
    snd (login (fun x => x) emptyStore "ann") = Some user /\
    username user = "ann"%string /\
    getUser (mem s') (u_id user) = Some user /\
    login (fun x => x) s' "ann" = (s', Some user).
Proof.
  apply (login_keeps_usernames_unique (fun x => x) emptyStore "ann").
  - split; [constructor | intros k user []].
  - constructor.
  - discriminate.
Defined.

(** ** What the bot driver does to the store *)

Lemma onlyTimeBankMoves_refl p : onlyTimeBankMoves p p.
Proof. unfold onlyTimeBankMoves. repeat split; auto. Qed.

Lemma onlyTimeBankMoves_trans a b c :
  onlyTimeBankMoves a b -> onlyTimeBankMoves b c -> onlyTimeBankMoves a c.
Proof.
  unfold onlyTimeBankMoves. intros H1 H2.
  destruct H1 as (A1 & A2 & A3 & A4 & A5 & A6 & A7 & A8 & A9 & A10 & A11).
  destruct H2 as (B1 & B2 & B3 & B4 & B5 & B6 & B7 & B8 & B9 & B10 & B11).
  repeat (split; [congruence|]).
  destruct B11 as [B|B]; [|right; exact B].
  destruct A11 as [A|A]; [left; congruence|].
  right. destruct A as (v & Hv & Hpos). exists v. split; [congruence | exact Hpos].
Qed.

Lemma isBotUser_negative u : isBotUser u = true -> u < 0.
Proof.
  intros H. destruct u as [|q|q]; [| |lia];
    unfold isBotUser, bots in H; simpl in H; discriminate H.
Qed.

Lemma botTurn_effect randoms game gid round previous s k bp :
  let s' := fst (botTurn randoms game gid round previous (s, k) bp) in
  games (mem s') = games (mem s) /\ users (mem s') = users (mem s) /\
  gameRounds s' = gameRounds s /\
  (forall g u p, getParticipant (mem s) g u = Some p ->
     exists p', getParticipant (mem s') g u = Some p' /\ onlyTimeBankMoves p p') /\
  (forall g u, g <> gid \/ isBotUser u = false ->
     getParticipant (mem s') g u = getParticipant (mem s) g u).
Proof.
  cbv zeta.
  assert (Same : games (mem s) = games (mem s) /\ users (mem s) = users (mem s) /\
            gameRounds s = gameRounds s /\
            (forall g u p, getParticipant (mem s) g u = Some p ->
               exists p', getParticipant (mem s) g u = Some p' /\
                          onlyTimeBankMoves p p') /\
            (forall g u, g <> gid \/ isBotUser u = false ->
               getParticipant (mem s) g u = getParticipant (mem s) g u)).
  { repeat split; auto. intros g u p Hp. exists p.
    split; [exact Hp | apply onlyTimeBankMoves_refl]. }
  unfold botTurn. destruct (isEliminated bp); [exact Same|].
  destruct (find (fun b => b_id b =? userId bp) bots) as [bot|] eqn:Hbot;
    [|exact Same].
  cbv zeta. unfold createBid. cbn [fst].
  destruct (timeBank bp) as [tb|]; [|exact Same].
  cbn [fst mem set_mem gameRounds].
  set (v := Qmax 0 _).
  unfold updateParticipantTimeBank.
  split; [apply games_updateParticipant|].
  split; [apply users_updateParticipant|].
  split; [reflexivity|]. split.
  - intros g u p Hp. rewrite getParticipant_updateParticipant, Hp.
    destruct (key_eqb _ _); simpl; eexists; (split; [reflexivity|]);
      [|apply onlyTimeBankMoves_refl].
    unfold onlyTimeBankMoves. simpl. repeat (split; [reflexivity|]).
    right. exists v. split; [reflexivity | apply Q.le_max_l].
  - intros g u Hor. rewrite getParticipant_updateParticipant.
    destruct (key_eqb (gid, userId bp) (g, u)) eqn:K; [|reflexivity].
    apply key_eqb_eq in K. injection K as <- <-.
    destruct Hor as [Hne|Hno]; [contradiction|].
    unfold isBotUser in Hno. rewrite Hbot in Hno. discriminate.
Qed.

Lemma botTurns_effect randoms game gid round previous l : forall s k,
  let s' := fst (fold_left (botTurn randoms game gid round previous) l (s, k)) in
  games (mem s') = games (mem s) /\ users (mem s') = users (mem s) /\
  gameRounds s' = gameRounds s /\
  (forall g u p, getParticipant (mem s) g u = Some p ->
     exists p', getParticipant (mem s') g u = Some p' /\ onlyTimeBankMoves p p') /\
  (forall g u, g <> gid \/ isBotUser u = false ->
     getParticipant (mem s') g u = getParticipant (mem s) g u).
Proof.
  induction l as [|bp l IH]; intros s k; cbv zeta; cbn [fold_left].
  - cbn [fst]. repeat split; auto. intros g u p Hp. exists p.
    split; [exact Hp | apply onlyTimeBankMoves_refl].
  - pose proof (botTurn_effect randoms game gid round previous s k bp) as H1.
    cbv zeta in H1.
    destruct (botTurn randoms game gid round previous (s, k) bp) as [s1 k1].
    cbn [fst] in H1. specialize (IH s1 k1). cbv zeta in IH.
    destruct H1 as (G1 & U1 & R1 & P1 & O1).
    destruct IH as (G2 & U2 & R2 & P2 & O2).
    split; [congruence|]. split; [congruence|]. split; [congruence|]. split.
    + intros g u p Hp. destruct (P1 g u p Hp) as (p1 & Hp1 & M1).
      destruct (P2 g u p1 Hp1) as (p2 & Hp2 & M2).
      exists p2. split; [exact Hp2 | eapply onlyTimeBankMoves_trans; eassumption].
    + intros g u Hor. rewrite (O2 g u Hor). apply O1. exact Hor.
Qed.

(** X25: [processBotActions] never marks a bid.  All it changes in the
    participant table is the time bank of rows of the given game whose user
    id is one of the bot ids -1 .. -6, and the new time bank is never
    negative; the bid flag, the hold time, tokens and every other field of
    every row stay, as do the games, the users and the rounds table.  So a
    participant who has not bid is still pending afterwards, and the round
    it takes part in cannot end through this function. *)
Theorem processBotActions_never_marks_a_bid randoms s gid round :
  let s' := processBotActions randoms s gid round in
  games (mem s') = games (mem s) /\ users (mem s') = users (mem s) /\
  gameRounds s' = gameRounds s /\
  (forall g u p, getParticipant (mem s) g u = Some p ->
     exists p', getParticipant (mem s') g u = Some p' /\ onlyTimeBankMoves p p') /\
  (forall g u, g <> gid \/ isBotUser u = false ->
     getParticipant (mem s') g u = getParticipant (mem s) g u) /\
  (forall g u, pending (mem s) g u -> pending (mem s') g u).
Proof.
  cbv zeta.
  assert (H : games (mem (processBotActions randoms s gid round)) = games (mem s) /\
              users (mem (processBotActions randoms s gid round)) = users (mem s) /\
              gameRounds (processBotActions randoms s gid round) = gameRounds s /\
              (forall g u p, getParticipant (mem s) g u = Some p ->
                 exists p', getParticipant
                              (mem (processBotActions randoms s gid round)) g u
                            = Some p' /\ onlyTimeBankMoves p p') /\
              (forall g u, g <> gid \/ isBotUser u = false ->
                 getParticipant (mem (processBotActions randoms s gid round)) g u
                 = getParticipant (mem s) g u)).
  { assert (Same : games (mem s) = games (mem s) /\ users (mem s) = users (mem s) /\
              gameRounds s = gameRounds s /\
              (forall g u p, getParticipant (mem s) g u = Some p ->
                 exists p', getParticipant (mem s) g u = Some p' /\
                            onlyTimeBankMoves p p') /\
              (forall g u, g <> gid \/ isBotUser u = false ->
                 getParticipant (mem s) g u = getParticipant (mem s) g u)).
    { repeat split; auto. intros g u p Hp. exists p.
      split; [exact Hp | apply onlyTimeBankMoves_refl]. }
    unfold processBotActions.
    destruct (getGame (mem s) gid) as [game|]; [|exact Same].
    destruct (negb _); [exact Same|].
    destruct (length (getParticipantsByGame (mem s) gid) =? 0)%nat; [exact Same|].
    destruct (length (filter _ _) =? 0)%nat; [exact Same|].
    apply botTurns_effect. }
  destruct H as (G & U & R & P & O).
  repeat (split; [assumption|]).
  intros g u (p & Hp & He & Hb). destruct (P g u p Hp) as (p' & Hp' & M).
  exists p'. split; [exact Hp'|].
  destruct M as (_ & _ & _ & _ & _ & _ & E7 & _ & E9 & _).
  split; congruence.
Qed.

(** ** Bots that are added and bots that are driven *)

Lemma find_none_filter_nil {A} (f : A -> bool) l :
  (forall x, In x l -> f x = false) -> filter f l = [].
Proof.
  induction l as [|a l IH]; intros H; simpl; [reflexivity|].
  rewrite (H a (or_introl eq_refl)). apply IH. intros x Hx. apply H. right. exact Hx.
Qed.


Section AddedBots.
Variable toLowerCase : string -> string.

Lemma addBot_positive s gid bank bot :
  positiveUserIds s ->
  (forall k p, In (k, p) (gameParticipants (mem s)) -> 0 < userId p) ->
  let acc1 :=
    match getUserByUsername toLowerCase s (b_username bot) with
    | Some user => (s, user)
    | None => createUser s (b_username bot) (b_displayName bot)
    end in
  let s' :=
    set_mem (fst acc1)
      (fst (addParticipant (mem (fst acc1)) gid (u_id (snd acc1)) false true bank false)) in
  positiveUserIds s' /\
  (forall k p, In (k, p) (gameParticipants (mem s')) -> 0 < userId p) /\
  (forall k p, In (k, p) (gameParticipants (mem s')) ->
     In (k, p) (gameParticipants (mem s)) \/
     (gameId p = gid /\ isHost p = false /\ isReady p = true /\
      isBot p = false /\ timeBank p = Some bank /\ tokensWon p = 0)).
Proof.
  intros [Hc Hu] Hrows. cbv zeta.
  set (acc1 := match getUserByUsername toLowerCase s (b_username bot) with
               | Some user => (s, user)
               | None => createUser s (b_username bot) (b_displayName bot)
               end).
  assert (H1 : positiveUserIds (fst acc1) /\ 0 < u_id (snd acc1) /\
               gameParticipants (mem (fst acc1)) = gameParticipants (mem s)).
  { unfold acc1.
    destruct (getUserByUsername toLowerCase s (b_username bot)) as [user|] eqn:E.
    - cbn [fst snd]. split; [split; assumption|]. split; [|reflexivity].
      unfold getUserByUsername in E. apply find_some in E. destruct E as [Hin _].
      unfold JsMap.values in Hin. apply in_map_iff in Hin.
      destruct Hin as ([k u] & Hsnd & Hin). simpl in Hsnd. subst u. eauto.
    - unfold createUser, positiveUserIds.
      cbn [fst snd mem users userIdCounter u_id gameParticipants].
      split; [|split; [exact Hc | reflexivity]].
      split; [lia|]. intros k user Hin.
      apply JsMapFacts.In_set in Hin; [|apply Z.eqb_eq].
      destruct Hin as [[_ ->]|Hin]; [exact Hc | eauto]. }
  destruct H1 as ([Hc1 Hu1] & Hid & Hsame).
  unfold addParticipant, set_mem. cbn [fst mem gameParticipants users userIdCounter].
  split; [split; assumption|].
  assert (Hin' : forall k p,
            In (k, p) (JsMap.set key_eqb (gameParticipants (mem (fst acc1)))
                         (participantKey gid (u_id (snd acc1)))
                         (mkParticipant (participantIdCounter (mem (fst acc1))) gid
                            (u_id (snd acc1)) false true (Some bank) 0 false false
                            false 0%Q)) ->
            In (k, p) (gameParticipants (mem s)) \/
            p = mkParticipant (participantIdCounter (mem (fst acc1))) gid
                  (u_id (snd acc1)) false true (Some bank) 0 false false false 0%Q).
  { intros k p Hin. apply JsMapFacts.In_set in Hin; [|apply key_eqb_eq].
    destruct Hin as [[_ ->]|Hin]; [right; reflexivity | left; congruence]. }
  split.
  - intros k p Hin. destruct (Hin' k p Hin) as [Hold| ->]; [eauto | exact Hid].
  - intros k p Hin. destruct (Hin' k p Hin) as [Hold| ->]; [left; exact Hold|].
    right. repeat split.
Qed.

Lemma addBots_positive gid bank picked : forall s,
  positiveUserIds s ->
  (forall k p, In (k, p) (gameParticipants (mem s)) -> 0 < userId p) ->
  let s' :=
    fold_left
      (fun acc bot =>
         let (acc1, botUser) :=
           match getUserByUsername toLowerCase acc (b_username bot) with
           | Some user => (acc, user)
           | None => createUser acc (b_username bot) (b_displayName bot)
           end in
         set_mem acc1
           (fst (addParticipant (mem acc1) gid (u_id botUser) false true bank false)))
      picked s in
  positiveUserIds s' /\
  (forall k p, In (k, p) (gameParticipants (mem s')) -> 0 < userId p) /\
  (forall k p, In (k, p) (gameParticipants (mem s')) ->
     In (k, p) (gameParticipants (mem s)) \/
     (gameId p = gid /\ isHost p = false /\ isReady p = true /\
      isBot p = false /\ timeBank p = Some bank /\ tokensWon p = 0)).
Proof.
  induction picked as [|bot picked IH]; intros s Hpos Hrows; cbv zeta;
    cbn [fold_left].
  - split; [exact Hpos|]. split; [exact Hrows | auto].
  - pose proof (addBot_positive s gid bank bot Hpos Hrows) as H1. cbv zeta in H1.
    destruct (match getUserByUsername toLowerCase s (b_username bot) with
              | Some user => (s, user)
              | None => createUser s (b_username bot) (b_displayName bot)
              end) as [acc1 botUser].
    cbn [fst snd] in H1. destruct H1 as (Hpos1 & Hrows1 & Hnew1).
    specialize (IH _ Hpos1 Hrows1). cbv zeta in IH.
    destruct IH as (Hpos2 & Hrows2 & Hnew2).
    split; [exact Hpos2|]. split; [exact Hrows2|].
    intros k p Hin. destruct (Hnew2 k p Hin) as [Hold|Hnew]; [|right; exact Hnew].
    apply Hnew1. exact Hold.
Qed.

(** X26: the bots that [addBotsToGame] adds are never driven by
    [processBotActions].  A bot is entered under the id of its user record,
    and user ids are positive, while [processBotActions] looks for rows whose
    user id is one of the bot ids -1 .. -6.  So in a store whose user ids and
    participants' user ids are positive, after [addBotsToGame] they still
    are, every new row is a ready non-host row with the game's starting time
    bank and without the bot flag, and [processBotActions] changes nothing,
    for whatever game and round it is called. *)
Theorem added_bots_are_never_driven random randoms s gid hostId botCount profiles :
  positiveUserIds s ->
  (forall k p, In (k, p) (gameParticipants (mem s)) -> 0 < userId p) ->
  let s' := addBotsToGame toLowerCase random s gid hostId botCount profiles in
  positiveUserIds s' /\
  (forall k p, In (k, p) (gameParticipants (mem s')) -> 0 < userId p) /\
  (forall game k p,
     getGame (mem s) gid = Some game ->
     In (k, p) (gameParticipants (mem s')) ->
     In (k, p) (gameParticipants (mem s)) \/
     (gameId p = gid /\ isHost p = false /\ isReady p = true /\
      isBot p = false /\ timeBank p = Some (startingTimeBank game) /\
      tokensWon p = 0)) /\
  forall g round, processBotActions randoms s' g round = s'.
Proof.
  intros Hpos Hrows. cbv zeta.
  assert (H : positiveUserIds (addBotsToGame toLowerCase random s gid hostId
                                 botCount profiles) /\
              (forall k p,
                 In (k, p) (gameParticipants
                              (mem (addBotsToGame toLowerCase random s gid hostId
                                      botCount profiles))) -> 0 < userId p) /\
              (forall game k p,
                 getGame (mem s) gid = Some game ->
                 In (k, p) (gameParticipants
                              (mem (addBotsToGame toLowerCase random s gid hostId
                                      botCount profiles))) ->
                 In (k, p) (gameParticipants (mem s)) \/
                 (gameId p = gid /\ isHost p = false /\ isReady p = true /\
                  isBot p = false /\ timeBank p = Some (startingTimeBank game) /\
                  tokensWon p = 0))).
  { unfold addBotsToGame. destruct (getGame (mem s) gid) as [game|].
    - pose proof (addBots_positive gid (startingTimeBank game)
                    (getRandomBots random botCount profiles) s Hpos Hrows) as H.
      cbv zeta in H. destruct H as (H1 & H2 & H3).
      split; [exact H1|]. split; [exact H2|].
      intros game' k p Hg. injection Hg as <-. apply H3.
    - split; [exact Hpos|]. split; [exact Hrows|]. intros game k p Hg. discriminate. }
  destruct H as (H1 & H2 & H3).
  split; [exact H1|]. split; [exact H2|]. split; [exact H3|].
  intros g round. unfold processBotActions.
  set (s' := addBotsToGame toLowerCase random s gid hostId botCount profiles) in *.
  destruct (getGame (mem s') g) as [game|]; [|reflexivity].
  destruct (negb _); [reflexivity|].
  destruct (length (getParticipantsByGame (mem s') g) =? 0)%nat; [reflexivity|].
  assert (Hnone : filter (fun p => isBotUser (userId p))
                    (getParticipantsByGame (mem s') g) = []).
  { apply find_none_filter_nil. intros p Hin.
    destruct (isBotUser (userId p)) eqn:E; [|reflexivity].
    apply isBotUser_negative in E.
    unfold getParticipantsByGame in Hin. apply filter_In in Hin.
    destruct Hin as [Hin _]. unfold JsMap.values in Hin.
    apply in_map_iff in Hin. destruct Hin as ([k q] & Hsnd & Hin).
    simpl in Hsnd. subst q. specialize (H2 k p Hin). lia. }
  rewrite Hnone. reflexivity.
Qed.
End AddedBots.

Lemma added_bots_are_never_driven_witness :
  let s := fst (createGame emptyStore
                  (mkInsertGame 1 None None None None (Some true))) in
  let s' := addBotsToGame (fun x => x) (fun _ => 1 # 2) s 1 1 2 None in
  positiveUserIds s' /\
  (forall k p, In (k, p) (gameParticipants (mem s')) -> 0 < userId p) /\
  (forall game k p,
     getGame (mem s) 1 = Some game ->
     In (k, p) (gameParticipants (mem s')) ->
     In (k, p) (gameParticipants (mem s)) \/
     (gameId p = 1 /\ isHost p = false /\ isReady p = true /\
      isBot p = false /\ timeBank p = Some (startingTimeBank game) /\
      tokensWon p = 0)) /\
  forall g round, processBotActions (fun _ _ => 1 # 2) s' g round = s'.
Proof.
  apply (added_bots_are_never_driven (fun x => x) (fun _ => 1 # 2)
           (fun _ _ => 1 # 2)
           (fst (createGame emptyStore
                   (mkInsertGame 1 None None None None (Some true))))
           1 1 2 None).
  - split; [reflexivity | intros k user []].
  - intros k p [].
Defined.

(** ** The rounds table *)

Lemma insertRound_perm r l : Permutation (insertRound r l) (r :: l).
Proof.
  induction l as [|x l IH]; simpl; [reflexivity|].
  destruct (roundNumber r <=? roundNumber x); [reflexivity|].
  eapply perm_trans; [apply perm_skip, IH | apply perm_swap].
Qed.

Lemma sortRounds_perm l : Permutation (sortRounds l) l.
Proof.
  induction l as [|x l IH]; simpl; [constructor|].
  eapply perm_trans; [apply insertRound_perm | apply perm_skip, IH].
Qed.

Lemma insertRound_sorted r l :
  StronglySorted (fun a b => roundNumber a <= roundNumber b) l ->
  StronglySorted (fun a b => roundNumber a <= roundNumber b) (insertRound r l).
Proof.
  induction 1 as [|x l Hs IH Hall]; simpl.
  - constructor; constructor.
  - destruct (roundNumber r <=? roundNumber x) eqn:E.
    + apply Z.leb_le in E. constructor; [constructor; assumption|].
      constructor; [exact E|].
      rewrite Forall_forall in *. intros y Hy. specialize (Hall y Hy). lia.
    + apply Z.leb_gt in E. constructor; [exact IH|].
      rewrite Forall_forall in *. intros y Hy.
      apply (Permutation_in _ (insertRound_perm r l)) in Hy.
      destruct Hy as [<-|Hy]; [lia | apply Hall; exact Hy].
Qed.

(** The sort keeps rounds with equal round numbers in their order. *)
Lemma insertRound_before r l :
  Forall (fun x => roundNumber r <= roundNumber x) l -> insertRound r l = r :: l.
Proof.
  intros H. destruct l as [|x l]; [reflexivity|]. simpl.
  inversion H as [|? ? Hx _]; subst. apply Z.leb_le in Hx. rewrite Hx. reflexivity.
Qed.

(** X27: [getGameRounds] returns exactly the rounds stored for the game,
    each as often as it is stored, in ascending order of round number; a
    list that is already in ascending order comes back unchanged, so rounds
    with equal numbers keep their order of insertion. *)
Theorem getGameRounds_sorts_the_rounds_of_the_game s gid :
  let stored :=
    filter (fun round => round_gameId round =? gid) (JsMap.values (gameRounds s)) in
  StronglySorted (fun a b => roundNumber a <= roundNumber b) (getGameRounds s gid) /\
  Permutation (getGameRounds s gid) stored /\
  (forall round, In round (getGameRounds s gid) <->
                 In round (JsMap.values (gameRounds s)) /\ round_gameId round = gid) /\
  (StronglySorted (fun a b => roundNumber a <= roundNumber b) stored ->
   getGameRounds s gid = stored).
Proof.
  cbv zeta. unfold getGameRounds.
  set (stored := filter _ _).
  split; [|split; [|split]].
  - induction stored as [|x l IH]; simpl; [constructor|].
    apply insertRound_sorted. exact IH.
  - apply sortRounds_perm.
  - intros round. split.
    + intros Hin. apply (Permutation_in _ (sortRounds_perm stored)) in Hin.
      unfold stored in Hin. apply filter_In in Hin. destruct Hin as [Hin Hg].
      apply Z.eqb_eq in Hg. split; assumption.
    + intros [Hin Hg].
      apply (Permutation_in _ (Permutation_sym (sortRounds_perm stored))).
      unfold stored. apply filter_In. split; [exact Hin | apply Z.eqb_eq; exact Hg].
  - clearbody stored. induction 1 as [|x l Hs IH Hall]; simpl; [reflexivity|].
    rewrite IH. apply insertRound_before. exact Hall.
Qed.

(** X28: the rounds and bids tables give back what was put in.  A created
    round is found under the id it was given, open and with the winner that
    was passed; completing a round sets its winner and closes it, and does
    nothing for an id that is not stored; neither touches any other round.
    A bid created under an unused id is appended to the bids of its round
    and to no other round's. *)
Theorem rounds_and_bids_round_trip s :
  (forall gid number winner,
     getRound (fst (createRound s gid number winner)) (roundIdCounter s)
     = Some (mkRound (roundIdCounter s) gid number winner false) /\
     forall id, id <> roundIdCounter s ->
       getRound (fst (createRound s gid number winner)) id = getRound s id) /\
  (forall id w,
     getRound (completeRound s id w) id
     = option_map
         (fun r => mkRound (round_id r) (round_gameId r) (roundNumber r) (Some w) true)
         (getRound s id) /\
     forall id', id' <> id -> getRound (completeRound s id w) id' = getRound s id') /\
  (forall round user time,
     JsMap.get Z.eqb (roundBids s) (bidIdCounter s) = None ->
     getBidsByRound (fst (createBid s round user time)) round
     = getBidsByRound s round ++ [mkBid (bidIdCounter s) round user time] /\
     forall other, other <> round ->
       getBidsByRound (fst (createBid s round user time)) other
       = getBidsByRound s other).
Proof.
  split; [|split].
  - intros gid number winner. unfold getRound, createRound. cbn [fst gameRounds].
    split.
    + apply JsMapFacts.get_set_same. apply Z.eqb_eq.
    + intros id Hne. apply JsMapFacts.get_set_other; [apply Z.eqb_eq | congruence].
  - intros id w. unfold getRound, completeRound.
    destruct (JsMap.get Z.eqb (gameRounds s) id) as [r|] eqn:E; cbn [gameRounds].
    + split.
      * rewrite JsMapFacts.get_set_same by apply Z.eqb_eq. reflexivity.
      * intros id' Hne. apply JsMapFacts.get_set_other; [apply Z.eqb_eq | congruence].
    + split; [rewrite E; reflexivity | reflexivity].
  - intros round user time Hfresh. unfold getBidsByRound, createBid.
    cbn [fst roundBids]. rewrite (values_set_absent _ _ _ _ Hfresh).
    unfold JsMap.values. rewrite map_app. simpl. split.
    + rewrite filter_app. simpl. rewrite Z.eqb_refl. reflexivity.
    + intros other Hne. rewrite filter_app. simpl.
      apply Z.eqb_neq in Hne. rewrite Z.eqb_sym in Hne. rewrite Hne.
      apply app_nil_r.
Qed.

(** * The first round and the last connection *)

Lemma run_first_round inputs : forall st g game n rest,
  getGame (storage st) g = Some game ->
  roundsOf g (snd (run st inputs)) = n :: rest -> n = currentRound game.
Proof.
  induction inputs as [|i more IH]; intros st g game n rest Hg Hr; simpl in Hr.
  - discriminate.
  - destruct (step_round_exact st i g game Hg) as (game1 & Hg1 & Hcase).
    destruct (step st i) as [st1 outs1]. simpl in *.
    specialize (IH st1 g game1 n).
    destruct (run st1 more) as [st2 outs2]. simpl in *.
    rewrite roundsOf_app in Hr.
    destruct Hcase as [[Hnil Hc]|[Hone Hc]].
    + rewrite Hnil in Hr. simpl in Hr. rewrite <- Hc. eapply IH; eassumption.
    + rewrite Hone in Hr. simpl in Hr. congruence.
Qed.

(** X29: the round that is announced as round 1 ends under the number the
    round counter had when the game was created.  Starting a waiting game
    broadcasts GAME_START and ROUND_START with round number 1 and sets the
    status, but leaves the round counter, the participants and the rooms as
    they are; whatever happens afterwards, the first ROUND_END of the game
    carries the stored counter (0 for a game created with the default). *)
Theorem first_round_ends_under_the_stored_counter st gid game :
  getGame (storage st) gid = Some game -> status game = waiting ->
  let st1 := fst (startGame st gid) in
  snd (startGame st gid)
    = [Broadcast gid (GAME_START gid); Broadcast gid (ROUND_START gid 1)] /\
  getGame (storage st1) gid = Some (with_status game in_progress) /\
  gameParticipants (storage st1) = gameParticipants (storage st) /\
  gameClients st1 = gameClients st /\
  forall inputs n rest,
    roundsOf gid (snd (run st1 inputs)) = n :: rest -> n = currentRound game.
Proof.
  intros Hg Hs. cbv zeta.
  assert (Hg1 : getGame (storage (fst (startGame st gid))) gid
                = Some (with_status game in_progress)).
  { unfold startGame. rewrite Hg, Hs. cbn [status_eqb negb fst storage].
    unfold updateGameStatus. rewrite getGame_updateGame, Z.eqb_refl, Hg. reflexivity. }
  split; [unfold startGame; rewrite Hg, Hs; reflexivity|].
  split; [exact Hg1|]. split; [|split].
  - unfold startGame. rewrite Hg, Hs. cbn [status_eqb negb fst storage].
    apply gameParticipants_updateGame.
  - unfold startGame. rewrite Hg, Hs. reflexivity.
  - intros inputs n rest Hr.
    apply (run_first_round inputs _ gid _ n rest Hg1 Hr).
Qed.

Lemma first_round_ends_under_the_stored_counter_witness :
  let st1 := fst (startGame Examples.botLobby 1) in
  snd (startGame Examples.botLobby 1)
    = [Broadcast 1 (GAME_START 1); Broadcast 1 (ROUND_START 1 1)] /\
  getGame (storage st1) 1
    = Some (with_status (mkGame 1 1 waiting 0 3 60 true true 0 None) in_progress) /\
  gameParticipants (storage st1) = gameParticipants (storage Examples.botLobby) /\
  gameClients st1 = gameClients Examples.botLobby /\
  forall inputs n rest,
    roundsOf 1 (snd (run st1 inputs)) = n :: rest ->
    n = currentRound (mkGame 1 1 waiting 0 3 60 true true 0 None).
Proof.
  apply (first_round_ends_under_the_stored_counter Examples.botLobby 1
           (mkGame 1 1 waiting 0 3 60 true true 0 None)); reflexivity.
Defined.

Lemma get_absent {V} (m : list (Z * V)) k :
  ~ In k (JsMap.keys m) -> JsMap.get Z.eqb m k = None.
Proof.
  induction m as [|[k' v] m IH]; simpl; intros H; [reflexivity|].
  destruct (Z.eqb_spec k' k) as [->|Hne]; [exfalso; apply H; left; reflexivity|].
  apply IH. intros Hin. apply H. right. exact Hin.
Qed.

Lemma get_delete_same {V} (m : list (Z * V)) k :
  NoDup (JsMap.keys m) -> JsMap.get Z.eqb (JsMap.delete Z.eqb m k) k = None.
Proof.
  induction m as [|[k' v] m IH]; simpl; intros H; [reflexivity|].
  inversion H as [|? ? Hnotin Hnd]; subst.
  destruct (Z.eqb_spec k' k) as [->|Hne].
  - apply get_absent. exact Hnotin.
  - simpl. apply Z.eqb_neq in Hne. rewrite Hne. apply IH. exact Hnd.
Qed.

Lemma get_delete_else {V} (m : list (Z * V)) k k' :
  k <> k' -> JsMap.get Z.eqb (JsMap.delete Z.eqb m k) k' = JsMap.get Z.eqb m k'.
Proof.
  intros Hne. induction m as [|[k0 v] m IH]; simpl; [reflexivity|].
  destruct (Z.eqb_spec k0 k) as [->|H0].
  - apply Z.eqb_neq in Hne. rewrite Hne. reflexivity.
  - simpl. destruct (k0 =? k'); [reflexivity | exact IH].
Qed.

(** X30: a connection that closes takes only its own socket out of the
    room, and never takes the player out of the game.  The store is
    untouched whatever closes.  If the socket registered for the user in the
    room is the closing one, the user is no longer in the room afterwards,
    every other member is, and PLAYER_LEFT is broadcast; if another socket
    has been registered for the user since (a re-join), the close changes
    nothing and nothing is broadcast. *)
Theorem close_unregisters_only_its_own_socket st ws uid gid room socket :
  NoDup (JsMap.keys (gameClients st)) -> NoDup (JsMap.keys room) ->
  uid <> 0 -> gid <> 0 ->
  JsMap.get Z.eqb (gameClients st) gid = Some room ->
  JsMap.get Z.eqb room uid = Some socket ->
  let st' := fst (onClose st ws uid gid) in
  let member u :=
    match JsMap.get Z.eqb (gameClients st') gid with
    | Some room' => JsMap.get Z.eqb room' u
    | None => None
    end in
  storage st' = storage st /\
  if (socketId socket =? socketId ws)%nat
  then snd (onClose st ws uid gid) = [Broadcast gid (PLAYER_LEFT gid uid)] /\
       member uid = None /\
       (forall u, u <> uid -> member u = JsMap.get Z.eqb room u) /\
       (forall g, g <> gid ->
          JsMap.get Z.eqb (gameClients st') g = JsMap.get Z.eqb (gameClients st) g)
  else st' = st /\ snd (onClose st ws uid gid) = [].
Proof.
  intros Hndc Hndr Hu Hg Hroom Hsock. cbv zeta.
  split; [apply onClose_storage|].
  unfold onClose.
  apply Z.eqb_neq in Hu. apply Z.eqb_neq in Hg. rewrite Hu, Hg.
  cbn [negb andb]. rewrite Hroom, Hsock.
  destruct (socketId socket =? socketId ws)%nat; [|split; reflexivity].
  cbn [fst snd gameClients]. split; [reflexivity|].
  apply Z.eqb_neq in Hg.
  destruct (length (JsMap.delete Z.eqb room uid) =? 0)%nat eqn:E.
  - apply Nat.eqb_eq in E. apply length_zero_iff_nil in E.
    rewrite (get_delete_same _ gid Hndc).
    split; [reflexivity|]. split.
    + intros u Hne. rewrite <- (get_delete_else room uid u) by congruence.
      rewrite E. reflexivity.
    + intros g Hne. apply get_delete_else. congruence.
  - rewrite JsMapFacts.get_set_same by apply Z.eqb_eq.
    split; [apply get_delete_same; exact Hndr|]. split.
    + intros u Hne. apply get_delete_else. congruence.
    + intros g Hne. apply JsMapFacts.get_set_other; [apply Z.eqb_eq | congruence].
Qed.

Lemma close_unregisters_only_its_own_socket_witness :
  let st' := fst (onClose Examples.arena (Examples.sock 1) 1 1) in
  let member u :=
    match JsMap.get Z.eqb (gameClients st') 1 with
    | Some room' => JsMap.get Z.eqb room' u
    | None => None
    end in
  storage st' = storage Examples.arena /\
  if (socketId (Examples.sock 1) =? socketId (Examples.sock 1))%nat
  then snd (onClose Examples.arena (Examples.sock 1) 1 1)
         = [Broadcast 1 (PLAYER_LEFT 1 1)] /\
       member 1 = None /\
       (forall u, u <> 1 ->
          member u = JsMap.get Z.eqb
                       [(3, Examples.sock 3); (1, Examples.sock 1);
                        (2, Examples.sock 2)] u) /\
       (forall g, g <> 1 ->
          JsMap.get Z.eqb (gameClients st') g
          = JsMap.get Z.eqb (gameClients Examples.arena) g)
  else st' = Examples.arena /\
       snd (onClose Examples.arena (Examples.sock 1) 1 1) = [].
Proof.
  apply (close_unregisters_only_its_own_socket Examples.arena (Examples.sock 1) 1 1
           [(3, Examples.sock 3); (1, Examples.sock 1); (2, Examples.sock 2)]
           (Examples.sock 1)).
  - repeat constructor. simpl. tauto.
  - repeat constructor; simpl; intuition discriminate.
  - discriminate.
  - discriminate.
  - reflexivity.
  - reflexivity.
Defined.

(** * Starting the countdown *)

(** ** The rows the code creates *)





Lemma addParticipant_producible s g u h r t :
  producible s -> producible (fst (addParticipant s g u h r t false)).
Proof.
  intros Hprod g' u' p' Hp'. unfold addParticipant in Hp'. cbn [fst] in Hp'.
  unfold getParticipant in Hp'. cbn [gameParticipants] in Hp'.
  destruct (key_eqb (participantKey g u) (participantKey g' u')) eqn:K.
  - apply key_eqb_eq in K. rewrite <- K in Hp'.
    rewrite JsMapFacts.get_set_same in Hp' by apply key_eqb_eq.
    injection Hp' as <-. split; [reflexivity | discriminate].
  - rewrite JsMapFacts.get_set_other in Hp'.
    + apply (Hprod g' u' p' Hp').
    + apply key_eqb_eq.
    + intros E. rewrite E, key_eqb_refl in K. discriminate.
Qed.










Lemma createUser_producible s name shown :
  producible (mem s) -> producible (mem (fst (createUser s name shown))).
Proof. intros H g u p Hp. apply (H g u p Hp). Qed.

Lemma addBotsToGame_producible toLowerCase random s gid hostId botCount profiles :
  producible (mem s) ->
  producible (mem (addBotsToGame toLowerCase random s gid hostId botCount profiles)).
Proof.
  unfold addBotsToGame. destruct (getGame (mem s) gid) as [game|]; [|auto].
  generalize (getRandomBots random botCount profiles) as picked.
  intros picked. revert s.
  induction picked as [|bot picked IH]; intros s Hprod; cbn [fold_left];
    [exact Hprod|].
  apply IH.
  destruct (getUserByUsername toLowerCase s (b_username bot)) as [user|].
  - cbn [set_mem mem]. apply addParticipant_producible. exact Hprod.
  - pose proof (createUser_producible s (b_username bot) (b_displayName bot) Hprod) as H1.
    destruct (createUser s (b_username bot) (b_displayName bot)) as [s1 user].
    cbn [fst set_mem mem] in *. apply addParticipant_producible. exact H1.
Qed.

(** ** The condition of the countdown *)






